(** * React-Starter server: JSONL validation and the append-only image logs

    A shallow embedding of [server/server.js]: the JSONL validator
    [validateJSONL], the fine-tune upload handlers, the image handlers and
    the three JSON-lines logs they append to and list.

    JavaScript strings are sequences of UTF-16 code units; they are modelled
    as lists of code units ([text]).  The built-ins the server calls
    ([JSON.parse], [JSON.stringify], [String.prototype.trim],
    [String.prototype.split], [readline]) are modelled from ECMA-262,
    ECMA-404 and the Node.js documentation. *)

From Stdlib Require Import List String Ascii NArith Arith Bool Lia.
From Stdlib Require Import DecimalString DecimalNat DecimalFacts Sorted.
From stdpp Require Import gmap strings.
Import ListNotations.

#[local] Set Warnings "-register-all".

Local Open Scope N_scope.

(** ** Text *)

(** A JavaScript string: its UTF-16 code units. *)
Abbreviation text := (list N).

(** The code units of an ASCII literal. *)
Definition u (s : string) : text :=
  List.map N_of_ascii (list_ascii_of_string s).

(** Same, with every apostrophe standing for a double quote (U+0022), to
    write JSON source text. *)
Definition q (s : string) : text :=
  List.map (fun c => if c =? 39 then 34 else c) (u s).

(** The decimal digits of a natural number, as a template literal
    [`${n}`] renders it. *)
Definition dec (n : nat) : text :=
  u (NilZero.string_of_uint (Nat.to_uint n)).

(** ** JSON values *)

(** The values [JSON.parse] returns.  A number is kept as the literal that
    denotes it: the server never computes with the numbers of a line or of a
    log entry, except to compare a [length] property with 4096, which is left
    to the engine (see [Engine]).  An object is the list of its members in
    source order; reading a property takes the last member of that name, as
    [JSON.parse] does for duplicate names. *)
Inductive json : Type :=
| JNull
| JBool (b : bool)
| JNumber (lit : text)
| JString (s : text)
| JArray (elems : list json)
| JObject (members : list (text * json)).

Definition text_eqb (a b : text) : bool :=
  if decide (a = b) then true else false.

(** Own property [name] of an object given by its members. *)
Fixpoint lookup_member (name : text) (ms : list (text * json)) : option json :=
  match ms with
  | [] => None
  | (k, v) :: ms' =>
      match lookup_member name ms' with
      | Some w => Some w
      | None => if text_eqb k name then Some v else None
      end
  end.

(** ** JSON.parse

    ECMA-404 grammar, read one code unit at a time by a pushdown automaton:
    the mode says what may come next, the stack holds the enclosing arrays
    and objects. *)

Definition is_ws (c : N) : bool :=
  (c =? 32) || (c =? 9) || (c =? 10) || (c =? 13).

Definition is_digit (c : N) : bool := (48 <=? c) && (c <=? 57).

Definition is_exp (c : N) : bool := (c =? 101) || (c =? 69).

(** Where the automaton stands inside a number literal: an optional minus
    sign, then 0 or a non-zero digit and further digits, then optionally a
    dot and digits, then optionally e or E, an optional sign and digits. *)
Inductive num_phase : Type :=
| NStart | NMinus | NZero | NInt | NDot | NFrac | NExp | NExpSign | NExpDigits.

Definition num_step (ph : num_phase) (c : N) : option num_phase :=
  match ph with
  | NStart =>
      if c =? 45 then Some NMinus
      else if c =? 48 then Some NZero
      else if is_digit c then Some NInt else None
  | NMinus =>
      if c =? 48 then Some NZero
      else if is_digit c then Some NInt else None
  | NZero =>
      if c =? 46 then Some NDot
      else if is_exp c then Some NExp else None
  | NInt =>
      if is_digit c then Some NInt
      else if c =? 46 then Some NDot
      else if is_exp c then Some NExp else None
  | NDot => if is_digit c then Some NFrac else None
  | NFrac =>
      if is_digit c then Some NFrac
      else if is_exp c then Some NExp else None
  | NExp =>
      if is_digit c then Some NExpDigits
      else if (c =? 43) || (c =? 45) then Some NExpSign else None
  | NExpSign => if is_digit c then Some NExpDigits else None
  | NExpDigits => if is_digit c then Some NExpDigits else None
  end.

Definition num_accepting (ph : num_phase) : bool :=
  match ph with
  | NZero | NInt | NFrac | NExpDigits => true
  | _ => false
  end.

Fixpoint num_run (ph : num_phase) (t : text) : option num_phase :=
  match t with
  | [] => Some ph
  | c :: t' =>
      match num_step ph c with
      | Some ph' => num_run ph' t'
      | None => None
      end
  end.

(** [lit] is a JSON number literal. *)
Definition is_number_literal (lit : text) : bool :=
  match num_run NStart lit with
  | Some ph => num_accepting ph
  | None => false
  end.

(** Where the automaton stands inside a string literal. *)
Inductive str_state : Type :=
| SChars
| SEscape
| SUnicode (k : nat) (v : N).

Inductive str_result : Type :=
| StrMore (s : str_state) (buf : text)
| StrEnd (s : text)
| StrBad.

Definition hex_value (c : N) : option N :=
  if is_digit c then Some (c - 48)
  else if (97 <=? c) && (c <=? 102) then Some (c - 87)
  else if (65 <=? c) && (c <=? 70) then Some (c - 55)
  else None.

Definition escape_char (c : N) : option N :=
  if c =? 34 then Some 34
  else if c =? 92 then Some 92
  else if c =? 47 then Some 47
  else if c =? 98 then Some 8
  else if c =? 102 then Some 12
  else if c =? 110 then Some 10
  else if c =? 114 then Some 13
  else if c =? 116 then Some 9
  else None.

(** One code unit inside a string; [buf] holds the units read so far, last
    first. *)
Definition str_step (s : str_state) (buf : text) (c : N) : str_result :=
  match s with
  | SChars =>
      if c =? 34 then StrEnd (rev buf)
      else if c =? 92 then StrMore SEscape buf
      else if c <? 32 then StrBad
      else StrMore SChars (c :: buf)
  | SEscape =>
      if c =? 117 then StrMore (SUnicode 0 0) buf
      else match escape_char c with
           | Some d => StrMore SChars (d :: buf)
           | None => StrBad
           end
  | SUnicode k v =>
      match hex_value c with
      | Some d =>
          match k with
          | 3%nat => StrMore SChars (v * 16 + d :: buf)
          | _ => StrMore (SUnicode (S k) (v * 16 + d)) buf
          end
      | None => StrBad
      end
  end.

Inductive mode : Type :=
| MValue
| MArrStart
| MArrNext (acc : list json)
| MObjStart
| MObjKey (acc : list (text * json))
| MKey (acc : list (text * json)) (s : str_state) (buf : text)
| MColon (acc : list (text * json)) (k : text)
| MObjNext (acc : list (text * json))
| MStr (s : str_state) (buf : text)
| MLit (rest : text) (v : json)
| MNum (ph : num_phase) (buf : text)
| MDone (v : json).

(** An enclosing array with the elements read so far, or an enclosing object
    with the members read so far and the name whose value is being read
    (both last first). *)
Inductive frame : Type :=
| FArr (acc : list json)
| FObj (acc : list (text * json)) (k : text).

Abbreviation pstate := (mode * list frame)%type.

(** A value is complete: hand it to the enclosing container. *)
Definition complete (v : json) (st : list frame) : pstate :=
  match st with
  | [] => (MDone v, [])
  | FArr acc :: st' => (MArrNext (v :: acc), st')
  | FObj acc k :: st' => (MObjNext ((k, v) :: acc), st')
  end.

Definition start_value (c : N) (st : list frame) : option pstate :=
  if c =? 34 then Some (MStr SChars [], st)
  else if c =? 91 then Some (MArrStart, st)
  else if c =? 123 then Some (MObjStart, st)
  else if c =? 116 then Some (MLit (u "rue") (JBool true), st)
  else if c =? 102 then Some (MLit (u "alse") (JBool false), st)
  else if c =? 110 then Some (MLit (u "ull") JNull, st)
  else match num_step NStart c with
       | Some ph => Some (MNum ph [c], st)
       | None => None
       end.

(** After a complete value: whitespace, a separator or a closing bracket. *)
Definition step_delim (s : pstate) (c : N) : option pstate :=
  match s with
  | (MDone v, st) => if is_ws c then Some s else None
  | (MArrNext acc, st) =>
      if is_ws c then Some s
      else if c =? 44 then Some (MValue, FArr acc :: st)
      else if c =? 93 then Some (complete (JArray (rev acc)) st)
      else None
  | (MObjNext acc, st) =>
      if is_ws c then Some s
      else if c =? 44 then Some (MObjKey acc, st)
      else if c =? 125 then Some (complete (JObject (rev acc)) st)
      else None
  | _ => None
  end.

Definition step (s : pstate) (c : N) : option pstate :=
  match s with
  | (MValue, st) => if is_ws c then Some s else start_value c st
  | (MArrStart, st) =>
      if is_ws c then Some s
      else if c =? 93 then Some (complete (JArray []) st)
      else start_value c (FArr [] :: st)
  | (MObjStart, st) =>
      if is_ws c then Some s
      else if c =? 34 then Some (MKey [] SChars [], st)
      else if c =? 125 then Some (complete (JObject []) st)
      else None
  | (MObjKey acc, st) =>
      if is_ws c then Some s
      else if c =? 34 then Some (MKey acc SChars [], st)
      else None
  | (MKey acc ss buf, st) =>
      match str_step ss buf c with
      | StrMore ss' buf' => Some (MKey acc ss' buf', st)
      | StrEnd k => Some (MColon acc k, st)
      | StrBad => None
      end
  | (MColon acc k, st) =>
      if is_ws c then Some s
      else if c =? 58 then Some (MValue, FObj acc k :: st)
      else None
  | (MStr ss buf, st) =>
      match str_step ss buf c with
      | StrMore ss' buf' => Some (MStr ss' buf', st)
      | StrEnd x => Some (complete (JString x) st)
      | StrBad => None
      end
  | (MLit rest v, st) =>
      match rest with
      | [] => None
      | x :: rest' =>
          if c =? x then
            match rest' with
            | [] => Some (complete v st)
            | _ => Some (MLit rest' v, st)
            end
          else None
      end
  | (MNum ph buf, st) =>
      match num_step ph c with
      | Some ph' => Some (MNum ph' (c :: buf), st)
      | None =>
          if num_accepting ph
          then step_delim (complete (JNumber (rev buf)) st) c
          else None
      end
  | (MArrNext _, _) | (MObjNext _, _) | (MDone _, _) => step_delim s c
  end.

Fixpoint run (s : pstate) (t : text) : option pstate :=
  match t with
  | [] => Some s
  | c :: t' =>
      match step s c with
      | Some s' => run s' t'
      | None => None
      end
  end.

(** End of input: a complete top-level value, or a number that the end of
    input terminates. *)
Definition finish (s : pstate) : option json :=
  match s with
  | (MDone v, []) => Some v
  | (MNum ph buf, []) =>
      if num_accepting ph then Some (JNumber (rev buf)) else None
  | _ => None
  end.

(** The value a JSON text denotes, [None] when it is not a JSON text. *)
Definition parse_text (t : text) : option json :=
  match run (MValue, []) t with
  | Some s => finish s
  | None => None
  end.

Example parse_example_object :
  parse_text (q "{'prompt':'a', 'n': [1, -2.5e+3, true, null], 'xA\n':{}}")
  = Some (JObject [(u "prompt", JString (u "a"));
                   (u "n", JArray [JNumber (u "1"); JNumber (u "-2.5e+3");
                                   JBool true; JNull]);
                   ([120; 65; 10], JObject [])]).
Proof. vm_compute. reflexivity. Qed.

Example parse_example_rejects :
  List.map parse_text
    [q ""; q " "; q "01"; q "[1,]"; q "{'a':1,}"; q "tru"; q "1."; q "{'a'}";
     q "'a" ; q "[1 2]"; q "nul l"; q "- 1"; q "1 2"; q "{a:1}"]
  = List.map (fun _ => None) (seq 0 14).
Proof. vm_compute. reflexivity. Qed.

(** ** JSON.stringify

    [JSON.stringify(value)] with no replacer and no indentation, on the
    values above (ECMA-262, SerializeJSONProperty and QuoteJSONString). *)

Definition hex_digit (d : N) : N := if d <? 10 then 48 + d else 87 + d.

Definition unicode_escape (c : N) : text :=
  [92; 117; hex_digit (c / 4096 mod 16); hex_digit (c / 256 mod 16);
   hex_digit (c / 16 mod 16); hex_digit (c mod 16)].

Definition is_high_surrogate (c : N) : bool := (55296 <=? c) && (c <=? 56319).
Definition is_low_surrogate (c : N) : bool := (56320 <=? c) && (c <=? 57343).

(** A code point that is not written as a surrogate pair. *)
Definition quote_unit (c : N) : text :=
  if c =? 8 then [92; 98]
  else if c =? 9 then [92; 116]
  else if c =? 10 then [92; 110]
  else if c =? 12 then [92; 102]
  else if c =? 13 then [92; 114]
  else if c =? 34 then [92; 34]
  else if c =? 92 then [92; 92]
  else if (c <? 32) || is_high_surrogate c || is_low_surrogate c
       then unicode_escape c
  else [c].

(** The string is read by code points: a high surrogate followed by a low
    one is one code point and is kept as it is, a lone surrogate is
    escaped. *)
Fixpoint quote_units (s : text) : text :=
  match s with
  | [] => []
  | c :: s' =>
      if is_high_surrogate c then
        match s' with
        | d :: s'' =>
            if is_low_surrogate d then c :: d :: quote_units s''
            else unicode_escape c ++ quote_units s'
        | [] => unicode_escape c
        end
      else quote_unit c ++ quote_units s'
  end.

Definition quote (s : text) : text := [34] ++ quote_units s ++ [34].

Fixpoint join_comma (parts : list text) : text :=
  match parts with
  | [] => []
  | [p] => p
  | p :: ps => p ++ [44] ++ join_comma ps
  end.

Fixpoint JSON_stringify (v : json) : text :=
  match v with
  | JNull => u "null"
  | JBool true => u "true"
  | JBool false => u "false"
  | JNumber lit => lit
  | JString s => quote s
  | JArray elems =>
      [91] ++ join_comma (List.map JSON_stringify elems) ++ [93]
  | JObject members =>
      [123]
      ++ join_comma
           (List.map (fun kv => quote (fst kv) ++ [58] ++ JSON_stringify (snd kv))
              members)
      ++ [125]
  end.

Example stringify_example :
  JSON_stringify
    (JObject [(u "prompt", JString [97; 10; 34; 55357; 56832; 56832]);
              (u "data", JArray [JNumber (u "1"); JNull; JBool false])])
  = q "{'prompt':'a\n\'" ++ [55357; 56832] ++ q "\ude00','data':[1,null,false]}".
Proof. vm_compute. reflexivity. Qed.

(** ** String and stream built-ins *)

(** WhiteSpace and LineTerminator code units, which [trim] removes. *)
Definition is_js_space (c : N) : bool :=
  (c =? 9) || (c =? 10) || (c =? 11) || (c =? 12) || (c =? 13) || (c =? 32)
  || (c =? 160) || (c =? 5760) || ((8192 <=? c) && (c <=? 8202))
  || (c =? 8232) || (c =? 8233) || (c =? 8239) || (c =? 8287)
  || (c =? 12288) || (c =? 65279).

Fixpoint trim_start (t : text) : text :=
  match t with
  | [] => []
  | c :: t' => if is_js_space c then trim_start t' else t
  end.

(** [String.prototype.trim]. *)
Definition trim (t : text) : text := rev (trim_start (rev (trim_start t))).

(** [cur] holds the segment being read, last unit first. *)
Fixpoint split_from (cur : text) (t : text) : list text :=
  match t with
  | [] => [rev cur]
  | c :: t' =>
      if c =? 10 then rev cur :: split_from [] t'
      else split_from (c :: cur) t'
  end.

(** [str.split('\n')]. *)
Definition split_newline (t : text) : list text := split_from [] t.

(** The lines a [readline] interface with [crlfDelay: Infinity] yields for a
    stream.  The reader ends a line at [\r\n], at [\n] and at a [\r] that no
    [\n] follows, and at nothing else: U+2028 and U+2029 stay inside their
    line.  What follows the last line end is a line when it is not empty. *)
Fixpoint readline_from (cur : text) (t : text) : list text :=
  match t with
  | [] => match cur with [] => [] | _ => [rev cur] end
  | c :: t' =>
      if c =? 10 then rev cur :: readline_from [] t'
      else if c =? 13 then
        match t' with
        | d :: t'' =>
            if d =? 10 then rev cur :: readline_from [] t''
            else rev cur :: readline_from [] t'
        | [] => [rev cur]
        end
      else readline_from (c :: cur) t'
  end.

Definition readline (t : text) : list text := readline_from [] t.

Example readline_example :
  readline [97; 10; 10; 98; 13; 10; 99; 13; 100; 8232; 101]
  = [[97]; []; [98]; [99]; [100; 8232; 101]]
  /\ readline [97; 10] = [[97]] /\ readline [] = [] /\ readline [10] = [[]].
Proof. vm_compute. auto. Qed.

(** ** Exceptions and state *)

(** How a JavaScript computation ends: with a value, or with an exception
    (an [Error] object, of which the server only reads [message]). *)
Inductive outcome (A : Type) : Type :=
| Returned (a : A)
| Thrown (message : text).
Arguments Returned {A} a.
Arguments Thrown {A} message.

(** A computation over a mutable state [S]. *)
Definition js (S A : Type) : Type := S -> outcome A * S.

Definition ret {S A} (a : A) : js S A := fun s => (Returned a, s).

Definition throw {S A} (message : text) : js S A := fun s => (Thrown message, s).

Definition bind {S A B} (m : js S A) (k : A -> js S B) : js S B :=
  fun s =>
    match m s with
    | (Returned a, s') => k a s'
    | (Thrown message, s') => (Thrown message, s')
    end.

(** [try { body } catch (error) { handler(error.message) }]: the state
    changes made before the exception stay. *)
Definition try_catch {S A} (body : js S A) (handler : text -> js S A) : js S A :=
  fun s =>
    match body s with
    | (Returned a, s') => (Returned a, s')
    | (Thrown message, s') => handler message s'
    end.

Definition get_state {S} : js S S := fun s => (Returned s, s).
Definition modify {S} (f : S -> S) : js S unit := fun s => (Returned tt, f s).

Definition lift {S A} (o : outcome A) : js S A := fun s => (o, s).

Declare Scope js_scope.
Delimit Scope js_scope with js.
Notation "x <- m ;; k" := (bind m (fun x => k))
  (at level 100, m at next level, right associativity) : js_scope.
Notation "m ;; k" := (bind m (fun _ => k))
  (at level 100, right associativity) : js_scope.

Definition when {S} (b : bool) (m : js S unit) : js S unit :=
  if b then m else ret tt.

Fixpoint for_of {S A} (items : list A) (body : A -> js S unit) : js S unit :=
  match items with
  | [] => ret tt
  | x :: items' => bind (body x) (fun _ => for_of items' body)
  end.

(** ** The engine

    What the source leaves to the JavaScript engine: the wording of
    exception messages, which number literals denote zero, and the outcome of
    comparing a parsed value that is not a length with a number, which is
    [true], [false] or a TypeError.  The validator and the handlers take the
    engine as a parameter. *)
Record Engine : Type := {
  (** message of the SyntaxError [JSON.parse] throws on this text *)
  syntax_error_message : text -> text;
  (** message of the TypeError for reading property [name] of [null] or
      [undefined] (first argument: which of the two) *)
  property_error_message : text -> text -> text;
  (** ToBoolean of the number a literal denotes *)
  number_truthy : text -> bool;
  (** [v > n] for a parsed value [v] and a number [n]: the comparison
      converts [v] to a primitive, and throws a TypeError when that fails, as
      for an object whose [valueOf] and [toString] members are not callable *)
  exceeds : json -> nat -> outcome bool
}.

(** The values the validator handles: [undefined], a length (a number read
    from a string or an array), or parsed JSON data. *)
Inductive value : Type :=
| VUndefined
| VLength (n : nat)
| VData (v : json).

(** The property names the validator reads. *)
Inductive property : Type := Prompt | Completion | Length.

Definition property_name (p : property) : text :=
  match p with
  | Prompt => u "prompt"
  | Completion => u "completion"
  | Length => u "length"
  end.

Definition typeof_string (x : value) : bool :=
  match x with
  | VData (JString _) => true
  | _ => false
  end.

Record ValidationRecord : Type := {
  isValid : bool;
  errors : list text;
  totalLines : nat
}.

(** The local variables of [validateJSONL]. *)
Record locals : Type := {
  lineNumber : nat;
  errors_array : list text
}.

Section Validator.

Variable e : Engine.

Definition JSON_parse (t : text) : outcome json :=
  match parse_text t with
  | Some v => Returned v
  | None => Thrown (syntax_error_message e t)
  end.

(** ToBoolean. *)
Definition truthy (x : value) : bool :=
  match x with
  | VUndefined => false
  | VLength n => negb (n =? 0)%nat
  | VData JNull => false
  | VData (JBool b) => b
  | VData (JNumber lit) => number_truthy e lit
  | VData (JString s) => negb (length s =? 0)%nat
  | VData (JArray _) | VData (JObject _) => true
  end.

(** [obj.p]: a TypeError on [null] and [undefined]; the length of a string
    or an array; the own property of an object; [undefined] otherwise
    (no prototype has a property of one of these three names, except
    [length] on strings and arrays). *)
Definition get_property (obj : value) (p : property) : outcome value :=
  match obj with
  | VUndefined => Thrown (property_error_message e (u "undefined") (property_name p))
  | VData JNull => Thrown (property_error_message e (u "null") (property_name p))
  | VLength _ | VData (JBool _) | VData (JNumber _) => Returned VUndefined
  | VData (JString s) =>
      match p with
      | Length => Returned (VLength (length s))
      | _ => Returned VUndefined
      end
  | VData (JArray elems) =>
      match p with
      | Length => Returned (VLength (length elems))
      | _ => Returned VUndefined
      end
  | VData (JObject members) =>
      match lookup_member (property_name p) members with
      | Some v => Returned (VData v)
      | None => Returned VUndefined
      end
  end.

(** [x > n]: [undefined] is not a number and compares false, a length is
    compared as the number it is, anything else is left to the engine and may
    throw. *)
Definition greater (x : value) (n : nat) : outcome bool :=
  match x with
  | VUndefined => Returned false
  | VLength m => Returned (n <? m)%nat
  | VData v => exceeds e v n
  end.

Local Open Scope js_scope.

Definition read (obj : value) (p : property) : js locals value :=
  lift (get_property obj p).

(** [a || b] and [a && b] as conditions: [b] is evaluated only when [a]
    does not decide. *)
Definition js_or (a b : js locals bool) : js locals bool :=
  x <- a ;; if x then ret true else b.

Definition js_and (a b : js locals bool) : js locals bool :=
  x <- a ;; if x then b else ret false.

(** [errors.push(`Line ${lineNumber}: ` + what)]. *)
Definition report (what : text) : js locals unit :=
  modify (fun s =>
    {| lineNumber := lineNumber s;
       errors_array :=
         errors_array s ++ [u "Line " ++ dec (lineNumber s) ++ u ": " ++ what] |}).

(** The body of the [try] block. *)
Definition try_block (line : text) : js locals unit :=
  parsed <- lift (JSON_parse line) ;;
  c <- js_or (p <- read (VData parsed) Prompt ;; ret (negb (truthy p)))
             (p <- read (VData parsed) Prompt ;; ret (negb (typeof_string p))) ;;
  when c (report (u "Missing or invalid 'prompt' field")) ;;
  c <- js_or (p <- read (VData parsed) Completion ;; ret (negb (truthy p)))
             (p <- read (VData parsed) Completion ;; ret (negb (typeof_string p))) ;;
  when c (report (u "Missing or invalid 'completion' field")) ;;
  c <- js_and (p <- read (VData parsed) Prompt ;; ret (truthy p))
              (p <- read (VData parsed) Prompt ;; l <- read p Length ;;
               lift (greater l 4096)) ;;
  when c (report (u "Prompt exceeds maximum length of 4096 characters")) ;;
  c <- js_and (p <- read (VData parsed) Completion ;; ret (truthy p))
              (p <- read (VData parsed) Completion ;; l <- read p Length ;;
               lift (greater l 4096)) ;;
  when c (report (u "Completion exceeds maximum length of 4096 characters")).

(** The body of the [for await] loop. *)
Definition loop_body (line : text) : js locals unit :=
  modify (fun s => {| lineNumber := S (lineNumber s);
                      errors_array := errors_array s |}) ;;
  try_catch (try_block line)
    (fun message => report (u "Invalid JSON format - " ++ message)).

(** [validateJSONL], on the content of the file at [filePath]. *)
Definition validateJSONL (content : text) : outcome ValidationRecord :=
  match for_of (readline content) loop_body
          {| lineNumber := 0; errors_array := [] |} with
  | (Returned _, s) =>
      Returned {| isValid := (length (errors_array s) =? 0)%nat;
                  errors := errors_array s;
                  totalLines := lineNumber s |}
  | (Thrown message, _) => Thrown message
  end.

End Validator.

(** The value of a run of decimal digits. *)
Definition digits_value (lit : text) : N :=
  fold_left (fun acc c => acc * 10 + (c - 48)) lit 0.

(** The values that cannot be converted to a primitive: an object with a
    member [toString] (a member parsed from JSON is never callable, and the
    inherited [valueOf] returns the object itself), and an array that holds
    such a value, since its conversion joins the texts of its elements. *)
Fixpoint no_primitive (v : json) : bool :=
  match v with
  | JObject members => existsb (fun kv => text_eqb (fst kv) (u "toString")) members
  | JArray elems => existsb no_primitive elems
  | _ => false
  end.

(** An engine to run the model on concrete inputs.  Its messages are V8's
    for a text that ends too early, for a property of [null] and for a value
    without a primitive; a number is falsy when all its digits are zeros;
    only a literal made of digits is compared.  Nothing below depends on
    these choices. *)
Definition sample_engine : Engine :=
  {| syntax_error_message := fun _ => u "Unexpected end of JSON input";
     property_error_message := fun what name =>
       u "Cannot read properties of " ++ what ++ u " (reading '" ++ name ++ u "')";
     number_truthy := fun lit =>
       negb (forallb (fun c => negb (is_digit c) || (c =? 48)) lit);
     exceeds := fun v n =>
       match v with
       | JNumber lit =>
           Returned (forallb is_digit lit && (N.of_nat n <? digits_value lit))
       | _ =>
           if no_primitive v then Thrown (u "Cannot convert object to primitive value")
           else Returned false
       end |}.

Example validate_example :
  validateJSONL sample_engine
    (q "{'prompt':'a','completion':'b'}" ++ [10] ++ q "{'prompt':123}")
  = Returned
      {| isValid := false;
         errors := [u "Line 2: Missing or invalid 'prompt' field";
                    u "Line 2: Missing or invalid 'completion' field"];
         totalLines := 2 |}.
Proof. vm_compute. reflexivity. Qed.

(** ** The file system and the upstream API *)

(** What a handler does to the outside world, in order. *)
Inductive event : Type :=
| Unlinked (path : string)
| Appended (path : string) (data : text)
| FilesCreate (path : string) (purpose : text)
| ImagesGenerate (options : json)
| ImagesEdit (image : string) (mask : option string) (prompt : text)
| ImagesCreateVariation (image : string).

(** The files under the server's directory (path to content) and the
    events so far, last first. *)
Record world : Type := {
  files : gmap string text;
  events : list event
}.

(** The file object [openai.files.create] resolves to. *)
Record api_file : Type := {
  id : text;
  purpose : text;
  filename : text;
  bytes : N;
  created_at : N;
  file_status : text
}.

(** The upstream API and the clock: each call resolves to a value or
    rejects with an error. *)
Record Upstream : Type := {
  files_create : text -> text -> outcome api_file;
  images_generate : json -> outcome (list (text * json));
  images_edit : text -> option text -> text -> outcome (list (text * json));
  images_createVariation : text -> outcome (list (text * json));
  now_iso : text
}.

(** A file stored by multer. *)
Record upload : Type := {
  upload_path : string;
  upload_filename : text
}.

Inductive body : Type :=
| BError (error : text)
| BErrorMessage (error message : text)
| BErrorDetails (error details : text)
| BInvalid (error : text) (details : list text) (lines : option nat)
| BValidated (message : text) (lines : nat)
| BUploaded (message : text) (file : api_file) (lines : nat)
| BListing (key : text) (entries : list json)
| BUpstream (response : list (text * json)).

Record response : Type := {
  status : nat;
  payload : body
}.

(** [res.json(b)] and [res.status(n).json(b)]. *)
Definition res_json (b : body) : response := {| status := 200; payload := b |}.
Definition res_status_json (n : nat) (b : body) : response :=
  {| status := n; payload := b |}.

Definition log (ev : event) (w : world) : world :=
  {| files := files w; events := ev :: events w |}.

Definition existsSync (path : string) : js world bool :=
  fun w =>
    (Returned (match files w !! path with Some _ => true | None => false end), w).

Definition enoent (syscall : string) (path : string) : text :=
  u "ENOENT: no such file or directory, " ++ u syscall ++ u " '" ++ u path ++ u "'".

(** [fs.unlinkSync(path)].  The files of the model are those the server
    keeps under its own directory and may remove: removing one fails only
    when it is not there.  Failures that depend on the host, such as a
    missing permission or a busy file, are not part of the model. *)
Definition unlinkSync (path : string) : js world unit :=
  fun w =>
    match files w !! path with
    | Some _ =>
        (Returned tt,
         {| files := delete path (files w); events := Unlinked path :: events w |})
    | None => (Thrown (enoent "unlink" path), w)
    end.

Definition readFileSync (path : string) : js world text :=
  fun w =>
    match files w !! path with
    | Some content => (Returned content, w)
    | None => (Thrown (enoent "open" path), w)
    end.

(** Creates the file when it does not exist. *)
Definition appendFileSync (path : string) (data : text) : js world unit :=
  fun w =>
    (Returned tt,
     {| files := <[path := default [] (files w !! path) ++ data]> (files w);
        events := Appended path data :: events w |}).

(** ** Log entries *)

(** An object under construction: a property may hold [undefined], which
    [JSON.stringify] leaves out. *)
Fixpoint set_member (k : text) (v : option json) (ms : list (text * option json))
  : list (text * option json) :=
  match ms with
  | [] => [(k, v)]
  | (k', v') :: ms' =>
      if text_eqb k' k then (k', v) :: ms' else (k', v') :: set_member k v ms'
  end.

(** [{ ...fields, ...response }]: a later property of the same name replaces
    the value and keeps the place.  (Array-index names, which JavaScript
    orders first, do not occur in these objects.) *)
Definition object_spread (fields : list (text * option json))
    (response : list (text * json)) : list (text * option json) :=
  fold_left (fun ms kv => set_member (fst kv) (Some (snd kv)) ms) response
    (fold_left (fun ms kv => set_member (fst kv) (snd kv) ms) fields []).

(** The object as [JSON.stringify] sees it. *)
Definition as_json (ms : list (text * option json)) : json :=
  JObject
    (flat_map (fun kv => match snd kv with
                         | Some v => [(fst kv, v)]
                         | None => []
                         end) ms).

(** [fs.appendFileSync(logPath, JSON.stringify(entry) + '\n')]. *)
Definition append_entry (logPath : string) (entry : json) : js world unit :=
  appendFileSync logPath (JSON_stringify entry ++ [10]).

Definition image_generations_log : string := "image_generations.jsonl".
Definition image_edits_log : string := "image_edits.jsonl".
Definition image_variations_log : string := "image_variations.jsonl".

(** ** The handlers *)

Section Server.

Variable e : Engine.
Variable openai : Upstream.

Local Open Scope js_scope.

(** [await validateJSONL(filePath)]: the stream of a missing file fails. *)
Definition validateJSONL_at (filePath : string) : js world ValidationRecord :=
  content <- readFileSync filePath ;;
  lift (validateJSONL e content).

(** The [catch] blocks of the two fine-tune handlers start with
    [if (req.file && fs.existsSync(req.file.path)) fs.unlinkSync(req.file.path)]. *)
Definition cleanup_if_exists (req_file : option upload) : js world unit :=
  match req_file with
  | Some f =>
      c <- existsSync (upload_path f) ;;
      when c (unlinkSync (upload_path f))
  | None => ret tt
  end.

(** [POST /api/validate-jsonl]. *)
Definition validate_jsonl_handler (req_file : option upload) : js world response :=
  try_catch
    (match req_file with
     | None => ret (res_status_json 400 (BError (u "No file uploaded")))
     | Some f =>
         validationResult <- validateJSONL_at (upload_path f) ;;
         unlinkSync (upload_path f) ;;
         if negb (isValid validationResult) then
           ret (res_status_json 400
                  (BInvalid (u "Invalid JSONL format") (errors validationResult)
                     (Some (totalLines validationResult))))
         else
           ret (res_json (BValidated (u "File validation successful")
                            (totalLines validationResult)))
     end)
    (fun message =>
       cleanup_if_exists req_file ;;
       ret (res_status_json 500 (BErrorMessage (u "Validation failed") message))).

(** [req.body.purpose || 'fine-tune']. *)
Definition purpose_or_default (req_purpose : option text) : text :=
  match req_purpose with
  | Some (c :: p) => c :: p
  | _ => u "fine-tune"
  end.

(** [await openai.files.create({ file: fs.createReadStream(path), purpose })]. *)
Definition openai_files_create (path : string) (purpose : text) : js world api_file :=
  content <- readFileSync path ;;
  modify (log (FilesCreate path purpose)) ;;
  lift (files_create openai content purpose).

(** [POST /api/upload]. *)
Definition upload_handler (req_file : option upload) (req_purpose : option text)
  : js world response :=
  try_catch
    (match req_file with
     | None => ret (res_status_json 400 (BError (u "No file uploaded")))
     | Some f =>
         validationResult <- validateJSONL_at (upload_path f) ;;
         if negb (isValid validationResult) then
           unlinkSync (upload_path f) ;;
           ret (res_status_json 400
                  (BInvalid (u "Invalid JSONL format") (errors validationResult) None))
         else
           file <- openai_files_create (upload_path f) (purpose_or_default req_purpose) ;;
           unlinkSync (upload_path f) ;;
           ret (res_json (BUploaded (u "File uploaded successfully") file
                            (totalLines validationResult)))
     end)
    (fun message =>
       cleanup_if_exists req_file ;;
       ret (res_status_json 500 (BErrorMessage (u "Failed to upload file") message))).

(** A destructuring default: used when the property is [undefined]. *)
Definition with_default (body : list (text * json)) (name : string) (d : json) : json :=
  match lookup_member (u name) body with
  | Some v => v
  | None => d
  end.

(** The argument of [openai.images.generate]. *)
Definition generate_options (req_body : list (text * json)) (prompt : json) : json :=
  JObject [(u "model", with_default req_body "model" (JString (u "dall-e-3")));
           (u "prompt", prompt);
           (u "n", with_default req_body "n" (JNumber (u "1")));
           (u "size", with_default req_body "size" (JString (u "1024x1024")));
           (u "quality", with_default req_body "quality" (JString (u "standard")));
           (u "response_format", JString (u "url"))].

(** [{ timestamp: new Date().toISOString(), prompt, ...response }]. *)
Definition imageData (prompt : json) (response : list (text * json)) : json :=
  as_json (object_spread [(u "timestamp", Some (JString (now_iso openai)));
                          (u "prompt", Some prompt)] response).

(** [POST /api/generate-image]; [req_body] is the parsed request body. *)
Definition generate_image_handler (req_body : list (text * json)) : js world response :=
  try_catch
    (match get_property e (VData (JObject req_body)) Prompt with
     | Returned (VData prompt) =>
         if negb (truthy e (VData prompt)) then
           ret (res_status_json 400 (BError (u "Prompt is required")))
         else
           modify (log (ImagesGenerate (generate_options req_body prompt))) ;;
           response <- lift (images_generate openai (generate_options req_body prompt)) ;;
           append_entry image_generations_log (imageData prompt response) ;;
           ret (res_json (BUpstream response))
     | _ => ret (res_status_json 400 (BError (u "Prompt is required")))
     end)
    (fun message =>
       ret (res_status_json 500 (BErrorDetails (u "Failed to generate image") message))).

(** [lines.map(line => JSON.parse(line))]: the first line that does not
    parse throws. *)
Fixpoint map_parse (lines : list text) : outcome (list json) :=
  match lines with
  | [] => Returned []
  | line :: lines' =>
      match JSON_parse e line with
      | Returned v =>
          match map_parse lines' with
          | Returned vs => Returned (v :: vs)
          | Thrown message => Thrown message
          end
      | Thrown message => Thrown message
      end
  end.

(** [line => line.trim()] as a filter: a non-empty string is truthy. *)
Definition not_blank (line : text) : bool :=
  match trim line with
  | [] => false
  | _ => true
  end.

(** The entries of a log, most recent first. *)
Definition listAll (logPath : string) : js world (list json) :=
  c <- existsSync logPath ;;
  if negb c then ret []
  else
    content <- readFileSync logPath ;;
    parsed <- lift (map_parse (List.filter not_blank (split_newline content))) ;;
    ret (rev parsed).

(** [GET /api/images], [GET /api/image-edits], [GET /api/image-variations]:
    the same handler on its own log, response key and error text. *)
Definition list_handler (logPath : string) (key : string) (failure : string)
  : js world response :=
  try_catch
    (entries <- listAll logPath ;;
     ret (res_json (BListing (u key) entries)))
    (fun message => ret (res_status_json 500 (BErrorDetails (u failure) message))).

Definition images_handler : js world response :=
  list_handler image_generations_log "images" "Failed to fetch images".
Definition image_edits_handler : js world response :=
  list_handler image_edits_log "edits" "Failed to fetch image edits".
Definition image_variations_list_handler : js world response :=
  list_handler image_variations_log "variations" "Failed to fetch variations".

(** [POST /api/edit-image]; [req_prompt] is the multipart field, [req_image]
    and [req_mask] the files multer stored. *)
Definition edit_image_handler (req_prompt : option text)
    (req_image req_mask : option upload) : js world response :=
  try_catch
    (match req_prompt with
     | Some (c :: p) =>
         let prompt := c :: p in
         match req_image with
         | None => ret (res_status_json 400 (BError (u "Image is required")))
         | Some image =>
             image_content <- readFileSync (upload_path image) ;;
             mask_content <-
               match req_mask with
               | Some mask => m <- readFileSync (upload_path mask) ;; ret (Some m)
               | None => ret None
               end ;;
             modify (log (ImagesEdit (upload_path image)
                            (option_map upload_path req_mask) prompt)) ;;
             response <- lift (images_edit openai image_content mask_content prompt) ;;
             let editData :=
               object_spread
                 [(u "timestamp", Some (JString (now_iso openai)));
                  (u "prompt", Some (JString prompt));
                  (u "originalImage", Some (JString (upload_filename image)));
                  (u "mask", option_map (fun m => JString (upload_filename m)) req_mask)]
                 response in
             append_entry image_edits_log (as_json editData) ;;
             unlinkSync (upload_path image) ;;
             match req_mask with
             | Some mask => unlinkSync (upload_path mask)
             | None => ret tt
             end ;;
             ret (res_json (BUpstream response))
         end
     | _ => ret (res_status_json 400 (BError (u "Prompt is required")))
     end)
    (fun message =>
       ret (res_status_json 500 (BErrorDetails (u "Failed to edit image") message))).

(** [POST /api/image-variations]. *)
Definition image_variations_handler (req_file : option upload) : js world response :=
  try_catch
    (match req_file with
     | None => ret (res_status_json 400 (BError (u "Image is required")))
     | Some image =>
         image_content <- readFileSync (upload_path image) ;;
         modify (log (ImagesCreateVariation (upload_path image))) ;;
         response <- lift (images_createVariation openai image_content) ;;
         let variationData :=
           object_spread
             [(u "timestamp", Some (JString (now_iso openai)));
              (u "originalImage", Some (JString (upload_filename image)))]
             response in
         append_entry image_variations_log (as_json variationData) ;;
         unlinkSync (upload_path image) ;;
         ret (res_json (BUpstream response))
     end)
    (fun message =>
       ret (res_status_json 500
              (BErrorDetails (u "Failed to generate variations") message))).

End Server.

(** * Properties *)

(** ** What the loop body does to the local variables *)

Section ValidatorFacts.

Variable e : Engine.

(** [parsed.prompt] and [parsed.completion] when [parsed] is not [null]. *)
Definition field (parsed : json) (p : property) : value :=
  match parsed with
  | JObject members =>
      match lookup_member (property_name p) members with
      | Some v => VData v
      | None => VUndefined
      end
  | _ => VUndefined
  end.

(** [x.length] when [x] is truthy. *)
Definition length_value (x : value) : value :=
  match x with
  | VData (JString s) => VLength (length s)
  | VData (JArray elems) => VLength (length elems)
  | VData (JObject members) =>
      match lookup_member (u "length") members with
      | Some v => VData v
      | None => VUndefined
      end
  | _ => VUndefined
  end.

Definition missing_or_invalid (x : value) : bool :=
  negb (truthy e x) || negb (typeof_string x).

(** [x && x.length > 4096]. *)
Definition too_long (x : value) : outcome bool :=
  if truthy e x then greater e (length_value x) 4096 else Returned false.

Definition line_message (n : nat) (what : text) : text :=
  u "Line " ++ dec n ++ u ": " ++ what.

Definition opt_message (b : bool) (n : nat) (what : string) : list text :=
  if b then [line_message n (u what)] else [].

(** The entry the [catch] block pushes. *)
Definition invalid_json (n : nat) (message : text) : text :=
  line_message n (u "Invalid JSON format - " ++ message).

(** The entries of the two length checks: the first comparison that throws
    ends the [try] block, and the [catch] block pushes its entry. *)
Definition length_report (n : nat) (parsed : json) : list text :=
  match too_long (field parsed Prompt) with
  | Thrown message => [invalid_json n message]
  | Returned long_prompt =>
      opt_message long_prompt n "Prompt exceeds maximum length of 4096 characters"
      ++ match too_long (field parsed Completion) with
         | Thrown message => [invalid_json n message]
         | Returned long_completion =>
             opt_message long_completion n
               "Completion exceeds maximum length of 4096 characters"
         end
  end.

(** The error entries of line number [n]. *)
Definition line_report (n : nat) (line : text) : list text :=
  match parse_text line with
  | None => [invalid_json n (syntax_error_message e line)]
  | Some JNull => [invalid_json n (property_error_message e (u "null") (u "prompt"))]
  | Some parsed =>
      opt_message (missing_or_invalid (field parsed Prompt)) n
        "Missing or invalid 'prompt' field"
      ++ opt_message (missing_or_invalid (field parsed Completion)) n
           "Missing or invalid 'completion' field"
      ++ length_report n parsed
  end.

Fixpoint reports_from (n : nat) (lines : list text) : list text :=
  match lines with
  | [] => []
  | line :: lines' => line_report n line ++ reports_from (S n) lines'
  end.

Lemma get_field (parsed : json) (p : property) :
  parsed <> JNull -> p <> Length ->
  get_property e (VData parsed) p = Returned (field parsed p).
Proof.
  intros Hn Hp. destruct parsed; try congruence; destruct p; try congruence;
    simpl; try reflexivity;
    match goal with |- context [lookup_member ?k ?m] =>
      destruct (lookup_member k m); reflexivity end.
Qed.

Lemma get_length (x : value) :
  truthy e x = true -> get_property e x Length = Returned (length_value x).
Proof.
  destruct x as [|n|v]; simpl; try discriminate; try reflexivity.
  destruct v; simpl; try discriminate; try reflexivity.
  intros _.
  change (property_name Length) with (u "length").
  destruct (lookup_member (u "length") members); reflexivity.
Qed.

Lemma report_app (what : text) (s : locals) :
  report what s
  = (Returned tt,
     {| lineNumber := lineNumber s;
        errors_array := errors_array s ++ [line_message (lineNumber s) what] |}).
Proof. reflexivity. Qed.

Lemma js_or_missing (parsed : json) (p : property) (s : locals) :
  parsed <> JNull -> p <> Length ->
  js_or (bind (read e (VData parsed) p) (fun x => ret (negb (truthy e x))))
        (bind (read e (VData parsed) p) (fun x => ret (negb (typeof_string x)))) s
  = (Returned (missing_or_invalid (field parsed p)), s).
Proof.
  intros Hn Hp. unfold js_or, read, lift, bind, ret, missing_or_invalid.
  rewrite (get_field parsed p Hn Hp).
  destruct (truthy e (field parsed p)); reflexivity.
Qed.

Lemma js_and_too_long (parsed : json) (p : property) (s : locals) :
  parsed <> JNull -> p <> Length ->
  js_and (bind (read e (VData parsed) p) (fun x => ret (truthy e x)))
         (bind (read e (VData parsed) p)
            (fun x => bind (read e x Length) (fun l => lift (greater e l 4096)))) s
  = (too_long (field parsed p), s).
Proof.
  intros Hn Hp. unfold js_and, read, lift, bind, ret, too_long.
  rewrite (get_field parsed p Hn Hp).
  destruct (truthy e (field parsed p)) eqn:Ht; [|reflexivity].
  rewrite (get_length _ Ht). reflexivity.
Qed.

Lemma when_report (b : bool) (what : string) (s : locals) :
  when b (report (u what)) s
  = (Returned tt,
     {| lineNumber := lineNumber s;
        errors_array := errors_array s ++ opt_message b (lineNumber s) what |}).
Proof.
  destruct b; simpl.
  - apply report_app.
  - unfold ret. rewrite app_nil_r. destruct s; reflexivity.
Qed.

(** The [try] block and its [catch] on a line that parses to a value other
    than [null]. *)
Lemma try_block_not_null (line : text) (parsed : json) (s : locals) :
  parse_text line = Some parsed -> parsed <> JNull ->
  try_catch (try_block e line)
    (fun message => report (u "Invalid JSON format - " ++ message)) s
  = (Returned tt,
     {| lineNumber := lineNumber s;
        errors_array := errors_array s ++ line_report (lineNumber s) line |}).
Proof.
  intros Hp Hn.
  assert (line_report (lineNumber s) line
          = opt_message (missing_or_invalid (field parsed Prompt)) (lineNumber s)
              "Missing or invalid 'prompt' field"
            ++ opt_message (missing_or_invalid (field parsed Completion)) (lineNumber s)
                 "Missing or invalid 'completion' field"
            ++ length_report (lineNumber s) parsed) as ->
    by (unfold line_report; rewrite Hp; destruct parsed; congruence).
  unfold try_catch, try_block, JSON_parse. rewrite Hp.
  unfold lift at 1. unfold bind at 1.
  unfold bind at 1. rewrite js_or_missing by congruence.
  unfold bind at 1. rewrite when_report. cbn [lineNumber errors_array].
  unfold bind at 1. rewrite js_or_missing by congruence.
  unfold bind at 1. rewrite when_report. cbn [lineNumber errors_array].
  unfold bind at 1. rewrite js_and_too_long by congruence.
  unfold length_report.
  destruct (too_long (field parsed Prompt)) as [long_prompt|message].
  - unfold bind at 1. rewrite when_report. cbn [lineNumber errors_array].
    unfold bind at 1. rewrite js_and_too_long by congruence.
    destruct (too_long (field parsed Completion)) as [long_completion|message].
    + rewrite when_report. cbn [lineNumber errors_array].
      rewrite <- !app_assoc. reflexivity.
    + rewrite report_app. cbn [lineNumber errors_array].
      rewrite <- !app_assoc. reflexivity.
  - rewrite report_app. cbn [lineNumber errors_array].
    rewrite <- !app_assoc. reflexivity.
Qed.

Lemma loop_body_spec (line : text) (s : locals) :
  loop_body e line s
  = (Returned tt,
     {| lineNumber := S (lineNumber s);
        errors_array := errors_array s ++ line_report (S (lineNumber s)) line |}).
Proof.
  unfold loop_body. unfold bind at 1. unfold modify at 1. unfold try_catch.
  destruct (parse_text line) as [parsed|] eqn:Hp.
  - assert (parsed = JNull \/ parsed <> JNull) as [->|Hn]
      by (destruct parsed; auto; right; discriminate).
    + unfold try_block, JSON_parse, line_report. rewrite Hp. reflexivity.
    + fold (try_catch (try_block e line)
              (fun message => report (u "Invalid JSON format - " ++ message))
              {| lineNumber := S (lineNumber s); errors_array := errors_array s |}).
      rewrite (try_block_not_null line parsed _ Hp Hn). reflexivity.
  - unfold try_block, JSON_parse, line_report. rewrite Hp. reflexivity.
Qed.

Lemma for_of_loop_body (lines : list text) (s : locals) :
  for_of lines (loop_body e) s
  = (Returned tt,
     {| lineNumber := lineNumber s + length lines;
        errors_array := errors_array s ++ reports_from (S (lineNumber s)) lines |}).
Proof.
  revert s. induction lines as [|line lines IH]; intros s; simpl.
  - unfold ret. rewrite Nat.add_0_r, app_nil_r. destruct s; reflexivity.
  - unfold bind. rewrite loop_body_spec, IH. cbn [lineNumber errors_array].
    rewrite <- app_assoc. f_equal. f_equal. lia.
Qed.

Lemma validateJSONL_spec (content : text) :
  validateJSONL e content
  = Returned {| isValid := (length (reports_from 1 (readline content)) =? 0)%nat;
                errors := reports_from 1 (readline content);
                totalLines := length (readline content) |}.
Proof.
  unfold validateJSONL. rewrite for_of_loop_body. reflexivity.
Qed.

End ValidatorFacts.

(** ** Line tags

    Every error entry starts with [Line n: ]; the entries of line [n] are
    those that carry its tag. *)

Fixpoint starts_with (p t : text) : bool :=
  match p, t with
  | [], _ => true
  | c :: p', d :: t' => (c =? d) && starts_with p' t'
  | _ :: _, [] => false
  end.

Definition tag (n : nat) : text := u "Line " ++ dec n ++ u ": ".

(** The entries of [errs] for line number [n]. *)
Definition errors_of_line (n : nat) (errs : list text) : list text :=
  List.filter (starts_with (tag n)) errs.

Lemma starts_with_app (p r : text) : starts_with p (p ++ r) = true.
Proof.
  induction p as [|c p IH]; simpl; [reflexivity|].
  rewrite N.eqb_refl. exact IH.
Qed.

Lemma starts_with_inv (p t : text) :
  starts_with p t = true -> exists r, t = p ++ r.
Proof.
  revert t. induction p as [|c p IH]; intros t H.
  - exists t. reflexivity.
  - destruct t as [|d t]; [discriminate|]. simpl in H.
    apply andb_true_iff in H. destruct H as [Hc Hp].
    apply N.eqb_eq in Hc. subst d.
    destruct (IH t Hp) as [r ->]. exists r. reflexivity.
Qed.

Lemma u_inj (a b : string) : u a = u b -> a = b.
Proof.
  unfold u. intros H.
  rewrite <- (string_of_list_ascii_of_string a),
          <- (string_of_list_ascii_of_string b).
  f_equal. revert H.
  generalize (list_ascii_of_string a) (list_ascii_of_string b).
  induction l as [|x l IH]; intros [|y l'] H; simpl in H; try discriminate.
  - reflexivity.
  - injection H as Hx Hl. f_equal; [|auto].
    rewrite <- (ascii_N_embedding x), <- (ascii_N_embedding y). congruence.
Qed.

Lemma to_uint_nonnil (n : nat) : Nat.to_uint n <> Decimal.Nil.
Proof.
  rewrite <- (DecimalNat.Unsigned.of_to n) at 1.
  rewrite DecimalNat.Unsigned.to_of. apply unorm_nonnil.
Qed.

Lemma dec_inj (n m : nat) : dec n = dec m -> n = m.
Proof.
  unfold dec. intros H. apply u_inj in H.
  apply DecimalNat.Unsigned.to_uint_inj.
  apply (f_equal NilZero.uint_of_string) in H.
  rewrite !NilZero.usu in H by apply to_uint_nonnil.
  congruence.
Qed.

Lemma digits_of_uint (d : Decimal.uint) :
  Forall (fun c => is_digit c = true) (u (NilEmpty.string_of_uint d)).
Proof.
  induction d; simpl; constructor; try reflexivity; assumption.
Qed.

Lemma dec_digits (n : nat) : Forall (fun c => is_digit c = true) (dec n).
Proof.
  unfold dec, NilZero.string_of_uint.
  destruct (Nat.to_uint n) eqn:E; try (rewrite <- E; apply digits_of_uint).
  repeat constructor.
Qed.

(** Two runs of digits followed by a colon agree when one is a prefix of the
    other. *)
Lemma digits_colon_inj (a b x y : text) :
  Forall (fun c => is_digit c = true) a ->
  Forall (fun c => is_digit c = true) b ->
  a ++ 58 :: x = b ++ 58 :: y -> a = b.
Proof.
  intros Ha. revert b. induction Ha as [|c a Hc Ha IH]; intros b Hb H.
  - destruct Hb as [|d b Hd Hb]; [reflexivity|].
    simpl in H. injection H as H _. subst d. discriminate.
  - destruct Hb as [|d b Hd Hb].
    + simpl in H. injection H as H _. subst c. discriminate.
    + simpl in H. injection H as H1 H2. subst d. f_equal. eapply IH; eauto.
Qed.

Lemma tag_inj (n m : nat) (w : text) :
  starts_with (tag n) (tag m ++ w) = true -> n = m.
Proof.
  intros H. apply starts_with_inv in H. destruct H as [r H].
  unfold tag in H. rewrite <- !app_assoc in H.
  apply app_inv_head in H.
  apply dec_inj. symmetry.
  apply (digits_colon_inj _ _ (32 :: w) (32 :: r)); auto using dec_digits.
Qed.

Lemma tag_other (n m : nat) (w : text) :
  n <> m -> starts_with (tag n) (tag m ++ w) = false.
Proof.
  intros Hne. destruct (starts_with (tag n) (tag m ++ w)) eqn:E; [|reflexivity].
  apply tag_inj in E. contradiction.
Qed.

Lemma line_message_tag (n : nat) (what : text) :
  line_message n what = tag n ++ what.
Proof. unfold line_message, tag. rewrite <- !app_assoc. reflexivity. Qed.

Section TaggedReports.

Variable e : Engine.

Lemma line_report_tagged (n : nat) (line : text) :
  Forall (fun msg => exists what, msg = tag n ++ what) (line_report e n line).
Proof.
  assert (forall what, exists w, line_message n what = tag n ++ w) as Hone
    by (intros what; rewrite line_message_tag; eexists; reflexivity).
  assert (forall b w, Forall (fun msg => exists what, msg = tag n ++ what)
                        (opt_message b n w)) as Hopt
    by (intros [|] w; repeat constructor; apply Hone).
  assert (forall parsed, Forall (fun msg => exists what, msg = tag n ++ what)
                           (length_report e n parsed)) as Hlen.
  { intros parsed. unfold length_report, invalid_json.
    destruct (too_long e (field parsed Prompt)); [|repeat constructor; apply Hone].
    apply Forall_app. split; [apply Hopt|].
    destruct (too_long e (field parsed Completion));
      [apply Hopt | repeat constructor; apply Hone]. }
  unfold line_report, invalid_json.
  destruct (parse_text line) as [parsed|]; [|repeat constructor; apply Hone].
  destruct parsed; try (repeat constructor; apply Hone);
    repeat (apply Forall_app; split); auto.
Qed.

Lemma errors_of_line_same (n : nat) (line : text) :
  errors_of_line n (line_report e n line) = line_report e n line.
Proof.
  unfold errors_of_line.
  induction (line_report_tagged n line) as [|msg l [w ->] _ IH];
    cbn [List.filter].
  - reflexivity.
  - rewrite starts_with_app. f_equal. exact IH.
Qed.

Lemma errors_of_line_other (n m : nat) (line : text) :
  n <> m -> errors_of_line n (line_report e m line) = [].
Proof.
  intros Hne. unfold errors_of_line.
  induction (line_report_tagged m line) as [|msg l [w ->] _ IH];
    cbn [List.filter].
  - reflexivity.
  - rewrite (tag_other n m w Hne). exact IH.
Qed.

Lemma errors_of_line_app (n : nat) (a b : list text) :
  errors_of_line n (a ++ b) = errors_of_line n a ++ errors_of_line n b.
Proof. unfold errors_of_line. apply List.filter_app. Qed.

(** Among the entries of the lines numbered from [k], those of line [k + i]
    are the report of the [i]-th line. *)
Lemma errors_of_line_reports (lines : list text) (k i : nat) (line : text) :
  nth_error lines i = Some line ->
  errors_of_line (k + i) (reports_from e k lines) = line_report e (k + i) line.
Proof.
  revert k i. induction lines as [|l lines IH]; intros k i H.
  - destruct i; discriminate.
  - simpl. rewrite errors_of_line_app. destruct i as [|i]; simpl in H.
    + injection H as ->. rewrite Nat.add_0_r, errors_of_line_same.
      assert (forall ls j, (k < j)%nat -> errors_of_line k (reports_from e j ls) = []) as Hlater.
      { induction ls as [|x ls IHls]; intros j Hj; simpl; [reflexivity|].
        rewrite errors_of_line_app, errors_of_line_other by lia.
        apply IHls. lia. }
      rewrite Hlater by lia. apply app_nil_r.
    + rewrite errors_of_line_other by lia. simpl.
      replace (k + S i)%nat with (S k + i)%nat by lia. apply IH. exact H.
Qed.

(** The record [validateJSONL] returns, and in it the entries of each
    line. *)
Lemma validateJSONL_line (content : text) (i : nat) (line : text) :
  nth_error (readline content) i = Some line ->
  exists r, validateJSONL e content = Returned r
    /\ errors_of_line (S i) (errors r) = line_report e (S i) line.
Proof.
  intros H. eexists. split; [apply validateJSONL_spec|].
  cbn [errors]. apply (errors_of_line_reports _ 1 i line H).
Qed.

End TaggedReports.

(** ** Blank lines are not JSON texts *)

Ltac case_chars :=
  repeat match goal with
         | |- context [N.eqb ?a ?b] => destruct (N.eqb_spec a b); try lia
         | |- context [N.leb ?a ?b] => destruct (N.leb_spec a b); try lia
         | |- context [N.ltb ?a ?b] => destruct (N.ltb_spec a b); try lia
         end.

Lemma space_starts_no_value (c : N) (st : list frame) :
  is_js_space c = true -> is_ws c = false -> start_value c st = None.
Proof.
  unfold is_js_space, is_ws, start_value, num_step, is_digit.
  intros Hs Hw. revert Hs Hw. case_chars; simpl; try discriminate; reflexivity.
Qed.

Lemma spaces_not_json (t : text) :
  forallb is_js_space t = true ->
  run (MValue, []) t = Some (MValue, []) \/ run (MValue, []) t = None.
Proof.
  induction t as [|c t IH]; simpl; intros H.
  - left. reflexivity.
  - apply andb_true_iff in H. destruct H as [Hc Ht].
    destruct (is_ws c) eqn:Hw.
    + apply IH. exact Ht.
    + rewrite (space_starts_no_value c [] Hc Hw). right. reflexivity.
Qed.

Lemma trim_start_head (t : text) :
  match trim_start t with
  | [] => forallb is_js_space t = true
  | c :: _ => is_js_space c = false
  end.
Proof.
  induction t as [|c t IH]; simpl; [reflexivity|].
  destruct (is_js_space c) eqn:Hc; simpl; [exact IH | exact Hc].
Qed.

Lemma trim_nil_spaces (t : text) : trim t = [] -> forallb is_js_space t = true.
Proof.
  unfold trim. intros H.
  apply (f_equal (@rev N)) in H. rewrite rev_involutive in H. simpl in H.
  pose proof (trim_start_head (rev (trim_start t))) as H1. rewrite H in H1.
  rewrite forallb_forall in H1.
  pose proof (trim_start_head t) as H2.
  destruct (trim_start t) as [|c t'] eqn:E; [exact H2|].
  rewrite H1 in H2; [discriminate|].
  apply in_rev. rewrite rev_involutive. left. reflexivity.
Qed.

Lemma blank_not_json (line : text) : trim line = [] -> parse_text line = None.
Proof.
  intros H. apply trim_nil_spaces in H.
  unfold parse_text. destruct (spaces_not_json line H) as [-> | ->]; reflexivity.
Qed.

(** ** The validator's verdict on a line *)

(** The shape the validator accepts: an object whose [prompt] and
    [completion] are non-empty strings of at most 4096 code units. *)
Definition accepted_member (name : string) (members : list (text * json)) : Prop :=
  exists s, lookup_member (u name) members = Some (JString s)
            /\ s <> [] /\ (length s <= 4096)%nat.

Definition accepted_line (line : text) : Prop :=
  exists members, parse_text line = Some (JObject members)
                  /\ accepted_member "prompt" members
                  /\ accepted_member "completion" members.

(** The shape the specification describes: the fields are present, are
    strings and have at most 4096 code units. *)
Definition specified_member (name : string) (members : list (text * json)) : Prop :=
  exists s, lookup_member (u name) members = Some (JString s)
            /\ (length s <= 4096)%nat.

Definition specified_line (line : text) : Prop :=
  exists members, parse_text line = Some (JObject members)
                  /\ specified_member "prompt" members
                  /\ specified_member "completion" members.

Section Verdict.

Variable e : Engine.

Lemma opt_message_nil (b : bool) (n : nat) (what : string) :
  opt_message b n what = [] <-> b = false.
Proof. destruct b; simpl; split; congruence. Qed.

Lemma field_accepted (parsed : json) (p : property) (name : string) :
  property_name p = u name ->
  missing_or_invalid e (field parsed p) = false ->
  too_long e (field parsed p) = Returned false ->
  exists members, parsed = JObject members /\ accepted_member name members.
Proof.
  intros Hname Hm Hl. unfold missing_or_invalid in Hm.
  apply orb_false_iff in Hm. destruct Hm as [Ht Hs].
  apply negb_false_iff in Ht, Hs.
  unfold too_long in Hl. rewrite Ht in Hl.
  destruct parsed; simpl in Hs; try discriminate.
  exists members. split; [reflexivity|].
  unfold field in *. rewrite Hname in *.
  destruct (lookup_member (u name) members) as [v|] eqn:E; [|discriminate].
  destruct v; try discriminate.
  exists s. split; [exact E|]. simpl in Ht, Hl. injection Hl as Hl. split.
  - intros ->. discriminate.
  - apply Nat.ltb_ge in Hl. exact Hl.
Qed.

Lemma accepted_field (members : list (text * json)) (p : property) (name : string) :
  property_name p = u name ->
  accepted_member name members ->
  missing_or_invalid e (field (JObject members) p) = false
  /\ too_long e (field (JObject members) p) = Returned false.
Proof.
  intros Hname (s & Hs & Hne & Hlen). unfold field. rewrite Hname, Hs.
  unfold missing_or_invalid, too_long. simpl.
  destruct s; [congruence|]. simpl. split; [reflexivity|].
  f_equal. apply Nat.ltb_ge. exact Hlen.
Qed.

Lemma length_report_nil (n : nat) (parsed : json) :
  length_report e n parsed = []
  <-> too_long e (field parsed Prompt) = Returned false
      /\ too_long e (field parsed Completion) = Returned false.
Proof.
  unfold length_report. split.
  - destruct (too_long e (field parsed Prompt)) as [[|]|]; try discriminate.
    destruct (too_long e (field parsed Completion)) as [[|]|]; try discriminate.
    auto.
  - intros [-> ->]. reflexivity.
Qed.

Lemma line_report_nil (n : nat) (line : text) :
  line_report e n line = [] <-> accepted_line line.
Proof.
  unfold line_report, accepted_line. split.
  - destruct (parse_text line) as [parsed|]; [|discriminate].
    intros H.
    assert (opt_message (missing_or_invalid e (field parsed Prompt)) n
              "Missing or invalid 'prompt' field" = []
            /\ opt_message (missing_or_invalid e (field parsed Completion)) n
                 "Missing or invalid 'completion' field" = []
            /\ length_report e n parsed = [])
      as (H1 & H2 & H34).
    { destruct parsed; try discriminate;
        repeat match goal with
               | H : _ ++ _ = [] |- _ => apply app_eq_nil in H; destruct H
               end; auto. }
    apply opt_message_nil in H1, H2. apply length_report_nil in H34.
    destruct H34 as [H3 H4].
    destruct (field_accepted parsed Prompt "prompt" eq_refl H1 H3) as (ms & -> & Hp).
    destruct (field_accepted (JObject ms) Completion "completion" eq_refl H2 H4)
      as (ms' & Heq & Hc).
    injection Heq as <-. exists ms. auto.
  - intros (ms & -> & Hp & Hc). unfold length_report.
    destruct (accepted_field ms Prompt "prompt" eq_refl Hp) as [-> ->].
    destruct (accepted_field ms Completion "completion" eq_refl Hc) as [-> ->].
    reflexivity.
Qed.

Lemma reports_from_nil (n : nat) (lines : list text) :
  reports_from e n lines = [] <-> Forall accepted_line lines.
Proof.
  revert n. induction lines as [|line lines IH]; intros n; simpl.
  - split; auto.
  - split.
    + intros H. apply app_eq_nil in H. destruct H as [H1 H2].
      constructor; [apply (line_report_nil n), H1 | apply (IH (S n)), H2].
    + intros H. inversion H as [|? ? H1 H2]; subst.
      apply (line_report_nil n) in H1. apply (IH (S n)) in H2.
      rewrite H1, H2. reflexivity.
Qed.

End Verdict.

(** C1 (as amended): a line contributes no error entries iff it parses as a
    JSON object whose prompt and completion are both present, are non-empty
    strings and have at most 4096 code units; isValid of the returned record
    is true iff every line is such. *)
Theorem validator_accepts_iff (e : Engine) (content : text) :
  exists r, validateJSONL e content = Returned r
    /\ (isValid r = true <-> Forall accepted_line (readline content))
    /\ (forall i line, nth_error (readline content) i = Some line ->
          (errors_of_line (S i) (errors r) = [] <-> accepted_line line)).
Proof.
  eexists. split; [apply validateJSONL_spec|]. cbn [isValid errors]. split.
  - rewrite <- (reports_from_nil e 1). rewrite Nat.eqb_eq.
    split; [apply length_zero_iff_nil | intros ->; reflexivity].
  - intros i line H. change (S i) with (1 + i)%nat.
    rewrite (errors_of_line_reports e _ 1 i line H). apply line_report_nil.
Qed.

(** C1, counterexample: a line whose prompt is the empty string has both
    fields present, both strings, both within the bound, and is rejected. *)
Lemma validator_rejects_empty_prompt :
  specified_line (q "{'prompt':'','completion':'b'}")
  /\ forall e : Engine,
       validateJSONL e (q "{'prompt':'','completion':'b'}")
       = Returned {| isValid := false;
                     errors := [u "Line 1: Missing or invalid 'prompt' field"];
                     totalLines := 1 |}.
Proof.
  split.
  - exists [(u "prompt", JString []); (u "completion", JString (u "b"))].
    split; [vm_compute; reflexivity|].
    split; [exists [] | exists (u "b")]; (split; [vm_compute; reflexivity | simpl; lia]).
  - intros e. rewrite validateJSONL_spec. vm_compute. reflexivity.
Qed.

(** ** The scenario of the specification *)

Definition scenario_body : text :=
  q "{'prompt':'a','completion':'b'}" ++ [10] ++ q "{'prompt':123}".

Definition scenario_errors : list text :=
  [u "Line 2: Missing or invalid 'prompt' field";
   u "Line 2: Missing or invalid 'completion' field"].

Lemma scenario_validation (e : Engine) :
  validateJSONL e scenario_body
  = Returned {| isValid := false; errors := scenario_errors; totalLines := 2 |}.
Proof.
  rewrite validateJSONL_spec. destruct e as [sm pm nt ex]. vm_compute.
  match goal with
  | |- context [nt ?lit] => destruct (nt lit)
  end; reflexivity.
Qed.

(** What [POST /api/validate-jsonl] does with a stored file. *)
Lemma validate_jsonl_handler_stored (e : Engine) (f : upload) (w : world)
    (content : text) (r : ValidationRecord) :
  files w !! upload_path f = Some content ->
  validateJSONL e content = Returned r ->
  validate_jsonl_handler e (Some f) w
  = (Returned
       (if negb (isValid r)
        then res_status_json 400
               (BInvalid (u "Invalid JSONL format") (errors r) (Some (totalLines r)))
        else res_json (BValidated (u "File validation successful") (totalLines r))),
     {| files := delete (upload_path f) (files w);
        events := Unlinked (upload_path f) :: events w |}).
Proof.
  intros Hf Hv.
  unfold validate_jsonl_handler, try_catch, validateJSONL_at, bind,
    readFileSync, lift, unlinkSync.
  rewrite Hf, Hv, Hf. destruct (isValid r); reflexivity.
Qed.

(** C2 (as amended): on the two-line scenario the validator counts 2 lines
    and reports two errors for line 2, the invalid prompt and the missing
    completion, and the endpoint answers with status 400, these two errors
    and totalLines 2. *)
Theorem scenario_response (e : Engine) (f : upload) (w : world) :
  files w !! upload_path f = Some scenario_body ->
  validateJSONL e scenario_body
  = Returned {| isValid := false; errors := scenario_errors; totalLines := 2 |}
  /\ fst (validate_jsonl_handler e (Some f) w)
     = Returned {| status := 400;
                   payload := BInvalid (u "Invalid JSONL format")
                                scenario_errors (Some 2%nat) |}.
Proof.
  intros Hf. split; [apply scenario_validation|].
  rewrite (validate_jsonl_handler_stored e f w _ _ Hf (scenario_validation e)).
  reflexivity.
Qed.

Definition scenario_upload : upload :=
  {| upload_path := "uploads/1730000000000-data.jsonl";
     upload_filename := u "1730000000000-data.jsonl" |}.

Definition scenario_world : world :=
  {| files := {[ upload_path scenario_upload := scenario_body ]}; events := [] |}.

(** The scenario stored as an upload, under the sample engine. *)
Lemma scenario_response_witness :
  files scenario_world !! upload_path scenario_upload = Some scenario_body
  /\ validateJSONL sample_engine scenario_body
     = Returned {| isValid := false; errors := scenario_errors; totalLines := 2 |}
  /\ fst (validate_jsonl_handler sample_engine (Some scenario_upload) scenario_world)
     = Returned {| status := 400;
                   payload := BInvalid (u "Invalid JSONL format")
                                scenario_errors (Some 2%nat) |}.
Proof.
  split; [reflexivity|].
  apply (scenario_response sample_engine scenario_upload scenario_world).
  reflexivity.
Defined.

(** C2, counterexample: the errors of the scenario are not the single
    prompt error, whatever the engine. *)
Lemma scenario_not_one_error :
  ~ exists (e : Engine) (r : ValidationRecord),
      validateJSONL e scenario_body = Returned r
      /\ totalLines r = 2%nat
      /\ errors r = [u "Line 2: Missing or invalid 'prompt' field"].
Proof.
  intros (e & r & Hr & _ & He).
  rewrite scenario_validation in Hr. injection Hr as <-.
  simpl in He. discriminate He.
Qed.

(** ** Blank lines and [null] lines *)

(** C3 (as amended): a blank line that the reader yields is counted in
    totalLines and is reported with exactly one error, the Invalid JSON
    format error of the failed parse; it gets no missing-field error. *)
Theorem blank_line_is_invalid_json (e : Engine) (content : text) (i : nat)
    (line : text) :
  nth_error (readline content) i = Some line ->
  trim line = [] ->
  exists r, validateJSONL e content = Returned r
    /\ totalLines r = length (readline content)
    /\ (i < totalLines r)%nat
    /\ errors_of_line (S i) (errors r)
       = [u "Line " ++ dec (S i) ++ u ": Invalid JSON format - "
          ++ syntax_error_message e line].
Proof.
  intros Hi Hb. eexists. split; [apply validateJSONL_spec|].
  cbn [totalLines errors]. split; [reflexivity|]. split.
  - apply nth_error_Some. congruence.
  - change (S i) with (1 + i)%nat.
    rewrite (errors_of_line_reports e _ 1 i line Hi).
    unfold line_report. rewrite (blank_not_json line Hb). reflexivity.
Qed.

Definition blank_line_input : text :=
  q "{'prompt':'a','completion':'b'}" ++ [10; 32; 10]
  ++ q "{'prompt':'c','completion':'d'}".

(** A line of one space between two valid lines. *)
Lemma blank_line_is_invalid_json_witness :
  nth_error (readline blank_line_input) 1 = Some [32]
  /\ trim [32] = []
  /\ exists r, validateJSONL sample_engine blank_line_input = Returned r
       /\ totalLines r = length (readline blank_line_input)
       /\ (1 < totalLines r)%nat
       /\ errors_of_line 2 (errors r)
          = [u "Line " ++ dec 2 ++ u ": Invalid JSON format - "
             ++ syntax_error_message sample_engine [32]].
Proof.
  split; [reflexivity|]. split; [reflexivity|].
  apply (blank_line_is_invalid_json sample_engine blank_line_input 1 [32]);
    reflexivity.
Defined.

(** C3, counterexample: an input with a blank second line gets no
    missing-field error for line 2, whatever the engine. *)
Lemma blank_line_no_missing_field :
  ~ exists (e : Engine) (r : ValidationRecord),
      validateJSONL e blank_line_input = Returned r
      /\ In (u "Line 2: Missing or invalid 'prompt' field") (errors r).
Proof.
  intros (e & r & Hr & Hin).
  rewrite validateJSONL_spec in Hr. injection Hr as <-.
  cbn [errors] in Hin. vm_compute in Hin.
  destruct Hin as [H|[]]. discriminate H.
Qed.

(** C10: a line that parses to [null] makes the first field check throw; the
    handler of the try block reports it as the single Invalid JSON format
    error of that line, with no missing-field error; and the validator
    returns a record on every input. *)
Theorem null_line_one_error (e : Engine) (content : text) (i : nat) (line : text) :
  nth_error (readline content) i = Some line ->
  parse_text line = Some JNull ->
  (forall s, try_block e line s
             = (Thrown (property_error_message e (u "null") (u "prompt")), s))
  /\ (exists r, validateJSONL e content = Returned r
        /\ errors_of_line (S i) (errors r)
           = [u "Line " ++ dec (S i) ++ u ": Invalid JSON format - "
              ++ property_error_message e (u "null") (u "prompt")])
  /\ (forall input, exists r, validateJSONL e input = Returned r).
Proof.
  intros Hi Hp. split; [|split].
  - intros s. unfold try_block, JSON_parse. rewrite Hp. reflexivity.
  - eexists. split; [apply validateJSONL_spec|]. cbn [errors].
    change (S i) with (1 + i)%nat.
    rewrite (errors_of_line_reports e _ 1 i line Hi).
    unfold line_report. rewrite Hp. reflexivity.
  - intros input. eexists. apply validateJSONL_spec.
Qed.

Definition null_line_input : text :=
  q "{'prompt':'a','completion':'b'}" ++ [10] ++ u " null ".

(** A valid line followed by the line [ null ]. *)
Lemma null_line_one_error_witness :
  nth_error (readline null_line_input) 1 = Some (u " null ")
  /\ parse_text (u " null ") = Some JNull
  /\ (forall s, try_block sample_engine (u " null ") s
                = (Thrown (property_error_message sample_engine (u "null") (u "prompt")), s))
  /\ (exists r, validateJSONL sample_engine null_line_input = Returned r
        /\ errors_of_line 2 (errors r)
           = [u "Line " ++ dec 2 ++ u ": Invalid JSON format - "
              ++ property_error_message sample_engine (u "null") (u "prompt")])
  /\ (forall input, exists r, validateJSONL sample_engine input = Returned r).
Proof.
  split; [reflexivity|]. split; [reflexivity|].
  apply (null_line_one_error sample_engine null_line_input 1 (u " null "));
    reflexivity.
Defined.

(** ** The length checks *)

(** The condition of the length check on property [p], as the source writes
    it: [parsed.p && parsed.p.length > 4096] is true. *)
Definition length_check (e : Engine) (parsed : json) (p : property) : Prop :=
  exists x l,
    get_property e (VData parsed) p = Returned x
    /\ truthy e x = true
    /\ get_property e x Length = Returned l
    /\ greater e l 4096 = Returned true.

(** The comparison of the length check on property [p] throws. *)
Definition length_check_throws (e : Engine) (parsed : json) (p : property) : Prop :=
  exists x l message,
    get_property e (VData parsed) p = Returned x
    /\ truthy e x = true
    /\ get_property e x Length = Returned l
    /\ greater e l 4096 = Thrown message.

Section LengthChecks.

Variable e : Engine.

Lemma line_message_inj (n : nat) (a b : text) :
  line_message n a = line_message n b -> a = b.
Proof.
  unfold line_message. intros H.
  apply app_inv_head in H. apply app_inv_head in H.
  apply app_inv_head in H. exact H.
Qed.

Lemma in_opt_message (b : bool) (n : nat) (w w' : string) :
  In (line_message n (u w')) (opt_message b n w) <-> b = true /\ w = w'.
Proof.
  destruct b; simpl.
  - split.
    + intros [H|[]]. apply line_message_inj, u_inj in H. auto.
    + intros [_ ->]. left. reflexivity.
  - split; [contradiction | intros [H _]; discriminate].
Qed.

Lemma too_long_check (parsed : json) (p : property) :
  parsed <> JNull -> p <> Length ->
  too_long e (field parsed p) = Returned true <-> length_check e parsed p.
Proof.
  intros Hn Hp. unfold too_long, length_check.
  rewrite (get_field e parsed p Hn Hp). split.
  - intros H. destruct (truthy e (field parsed p)) eqn:Ht; [|discriminate].
    exists (field parsed p), (length_value (field parsed p)).
    rewrite (get_length e _ Ht). auto.
  - intros (x & l & Hx & Ht & Hl & Hg). injection Hx as <-.
    rewrite (get_length e _ Ht) in Hl. injection Hl as <-.
    rewrite Ht. exact Hg.
Qed.

Lemma too_long_throws (parsed : json) (p : property) :
  parsed <> JNull -> p <> Length ->
  (exists message, too_long e (field parsed p) = Thrown message)
  <-> length_check_throws e parsed p.
Proof.
  intros Hn Hp. unfold too_long, length_check_throws.
  rewrite (get_field e parsed p Hn Hp). split.
  - intros [message H]. destruct (truthy e (field parsed p)) eqn:Ht; [|discriminate].
    exists (field parsed p), (length_value (field parsed p)), message.
    rewrite (get_length e _ Ht). auto.
  - intros (x & l & message & Hx & Ht & Hl & Hg). injection Hx as <-.
    rewrite (get_length e _ Ht) in Hl. injection Hl as <-.
    rewrite Ht. exists message. exact Hg.
Qed.

(** The entry of the [catch] block is none of the two length errors. *)
Lemma invalid_json_not_length (n : nat) (message : text) (w : string) :
  w = "Prompt exceeds maximum length of 4096 characters"%string
  \/ w = "Completion exceeds maximum length of 4096 characters"%string ->
  In (line_message n (u w)) [invalid_json n message] <-> False.
Proof.
  intros Hw. split; [|contradiction]. intros [H|[]].
  unfold invalid_json in H. apply line_message_inj in H.
  apply (f_equal (hd 0)) in H. destruct Hw as [-> | ->]; discriminate H.
Qed.

Lemma in_line_report (n : nat) (line : text) (parsed : json) :
  parse_text line = Some parsed -> parsed <> JNull ->
  (In (line_message n (u "Prompt exceeds maximum length of 4096 characters"))
      (line_report e n line)
   <-> too_long e (field parsed Prompt) = Returned true)
  /\ (In (line_message n (u "Completion exceeds maximum length of 4096 characters"))
         (line_report e n line)
      <-> too_long e (field parsed Completion) = Returned true
          /\ ~ (exists message, too_long e (field parsed Prompt) = Thrown message)).
Proof.
  intros Hp Hn.
  assert (line_report e n line
          = opt_message (missing_or_invalid e (field parsed Prompt)) n
              "Missing or invalid 'prompt' field"
            ++ opt_message (missing_or_invalid e (field parsed Completion)) n
                 "Missing or invalid 'completion' field"
            ++ length_report e n parsed) as ->
    by (unfold line_report; rewrite Hp; destruct parsed; congruence).
  unfold length_report.
  destruct (too_long e (field parsed Prompt)) as [long_prompt|m];
    [destruct (too_long e (field parsed Completion)) as [long_completion|m]|];
    rewrite ?in_app_iff, ?in_opt_message,
      ?(invalid_json_not_length n m _ (or_introl eq_refl)),
      ?(invalid_json_not_length n m _ (or_intror eq_refl));
    (split;
     [ split;
       [ intros H; decompose [and or] H; subst; try congruence; contradiction
       | intros H; try discriminate H; injection H as ->; auto 7 ]
     | split;
       [ intros H; decompose [and or] H; subst; try congruence; try contradiction;
         (split; [reflexivity | intros [message Hm]; discriminate Hm])
       | intros [H Hno]; try (exfalso; apply Hno; eexists; reflexivity);
         try discriminate H; injection H as ->; auto 7 ] ]).
Qed.

Lemma in_errors_line (lines : list text) (i : nat) (line what : text) :
  nth_error lines i = Some line ->
  In (line_message (S i) what) (reports_from e 1 lines)
  <-> In (line_message (S i) what) (line_report e (S i) line).
Proof.
  intros Hi.
  pose proof (errors_of_line_reports e lines 1 i line Hi) as H.
  change (1 + i)%nat with (S i) in H. rewrite <- H.
  unfold errors_of_line. rewrite filter_In.
  rewrite line_message_tag, starts_with_app. tauto.
Qed.

End LengthChecks.

(** C7 (as amended): on a line that parses to a value other than null, the
    length error of the prompt is appended iff the prompt is truthy and its
    length property exceeds 4096, and the length error of the completion iff
    the same holds of the completion and the comparison of the prompt's
    length did not throw.  For a string field the condition is that the
    string has more than 4096 code units, for an array field that the array
    has more than 4096 elements, and for neither does the comparison
    throw. *)
Theorem length_error_iff (e : Engine) (content : text) (i : nat) (line : text)
    (parsed : json) :
  nth_error (readline content) i = Some line ->
  parse_text line = Some parsed ->
  parsed <> JNull ->
  exists r, validateJSONL e content = Returned r
    /\ (In (u "Line " ++ dec (S i)
            ++ u ": Prompt exceeds maximum length of 4096 characters") (errors r)
        <-> length_check e parsed Prompt)
    /\ (In (u "Line " ++ dec (S i)
            ++ u ": Completion exceeds maximum length of 4096 characters") (errors r)
        <-> length_check e parsed Completion
            /\ ~ length_check_throws e parsed Prompt)
    /\ (forall p s, p <> Length ->
          get_property e (VData parsed) p = Returned (VData (JString s)) ->
          (length_check e parsed p <-> (4096 < length s)%nat)
          /\ ~ length_check_throws e parsed p)
    /\ (forall p elems, p <> Length ->
          get_property e (VData parsed) p = Returned (VData (JArray elems)) ->
          (length_check e parsed p <-> (4096 < length elems)%nat)
          /\ ~ length_check_throws e parsed p).
Proof.
  intros Hi Hp Hn. eexists. split; [apply validateJSONL_spec|].
  cbn [errors].
  destruct (in_line_report e (S i) line parsed Hp Hn) as [Hprompt Hcompletion].
  split; [|split; [|split]].
  - change (u "Line " ++ dec (S i)
            ++ u ": Prompt exceeds maximum length of 4096 characters")
      with (line_message (S i)
              (u "Prompt exceeds maximum length of 4096 characters")).
    rewrite (in_errors_line e _ i line _ Hi), Hprompt.
    apply too_long_check; [exact Hn | discriminate].
  - change (u "Line " ++ dec (S i)
            ++ u ": Completion exceeds maximum length of 4096 characters")
      with (line_message (S i)
              (u "Completion exceeds maximum length of 4096 characters")).
    rewrite (in_errors_line e _ i line _ Hi), Hcompletion.
    rewrite (too_long_check e parsed Completion Hn) by discriminate.
    rewrite (too_long_throws e parsed Prompt Hn) by discriminate.
    reflexivity.
  - intros p s Hpl Hg.
    rewrite <- (too_long_check e parsed p Hn Hpl).
    rewrite <- (too_long_throws e parsed p Hn Hpl).
    rewrite (get_field e parsed p Hn Hpl) in Hg. injection Hg as Hg.
    unfold too_long. rewrite Hg. cbn [truthy length_value greater].
    destruct s as [|c s]; cbn [length Nat.eqb negb].
    + split; [|intros [message H]; discriminate H].
      split; [intros H; discriminate H | intros H; lia].
    + split; [|intros [message H]; discriminate H].
      split; [intros H; injection H as H; apply Nat.ltb_lt; exact H|].
      intros H. f_equal. apply Nat.ltb_lt. exact H.
  - intros p elems Hpl Hg.
    rewrite <- (too_long_check e parsed p Hn Hpl).
    rewrite <- (too_long_throws e parsed p Hn Hpl).
    rewrite (get_field e parsed p Hn Hpl) in Hg. injection Hg as Hg.
    unfold too_long. rewrite Hg. cbn [truthy length_value greater].
    split; [|intros [message H]; discriminate H].
    split; [intros H; injection H as H; apply Nat.ltb_lt; exact H|].
    intros H. f_equal. apply Nat.ltb_lt. exact H.
Qed.

Definition long_prompt_line : text :=
  q "{'prompt':'" ++ repeat 120 4097 ++ q "','completion':'b'}".

Definition long_prompt_value : json :=
  JObject [(u "prompt", JString (repeat 120 4097));
           (u "completion", JString (u "b"))].

(** A line whose prompt is a string of 4097 code units. *)
Lemma length_error_iff_witness :
  nth_error (readline long_prompt_line) 0 = Some long_prompt_line
  /\ parse_text long_prompt_line = Some long_prompt_value
  /\ long_prompt_value <> JNull
  /\ exists r, validateJSONL sample_engine long_prompt_line = Returned r
       /\ (In (u "Line " ++ dec 1
               ++ u ": Prompt exceeds maximum length of 4096 characters") (errors r)
           <-> length_check sample_engine long_prompt_value Prompt)
       /\ (In (u "Line " ++ dec 1
               ++ u ": Completion exceeds maximum length of 4096 characters") (errors r)
           <-> length_check sample_engine long_prompt_value Completion
               /\ ~ length_check_throws sample_engine long_prompt_value Prompt)
       /\ (forall p s, p <> Length ->
             get_property sample_engine (VData long_prompt_value) p
             = Returned (VData (JString s)) ->
             (length_check sample_engine long_prompt_value p <-> (4096 < length s)%nat)
             /\ ~ length_check_throws sample_engine long_prompt_value p)
       /\ (forall p elems, p <> Length ->
             get_property sample_engine (VData long_prompt_value) p
             = Returned (VData (JArray elems)) ->
             (length_check sample_engine long_prompt_value p
              <-> (4096 < length elems)%nat)
             /\ ~ length_check_throws sample_engine long_prompt_value p).
Proof.
  split; [vm_compute; reflexivity|]. split; [vm_compute; reflexivity|].
  split; [discriminate|].
  apply (length_error_iff sample_engine long_prompt_line 0 long_prompt_line);
    [vm_compute; reflexivity | vm_compute; reflexivity | discriminate].
Defined.

(** A line whose prompt has a [length] that cannot be compared, and whose
    completion has 4097 code units: the comparison of the prompt throws, the
    [catch] block reports the line, and the completion is never measured. *)
Definition unmeasured_line : text :=
  q "{'prompt':{'length':{'toString':0}},'completion':'" ++ repeat 120 4097 ++ q "'}".

Example completion_not_measured :
  validateJSONL sample_engine unmeasured_line
  = Returned
      {| isValid := false;
         errors :=
           [u "Line 1: Missing or invalid 'prompt' field";
            u "Line 1: Invalid JSON format - Cannot convert object to primitive value"];
         totalLines := 1 |}.
Proof. vm_compute. reflexivity. Qed.

Definition long_array_line : text :=
  q "{'prompt':[" ++ concat (repeat (u "0,") 4096) ++ q "0],'completion':'b'}".

(** C7, counterexample: a prompt that is an array of 4097 elements is not a
    string, and the line gets the prompt length error. *)
Lemma length_error_on_array :
  parse_text long_array_line
  = Some (JObject [(u "prompt", JArray (repeat (JNumber (u "0")) 4097));
                   (u "completion", JString (u "b"))])
  /\ forall e : Engine,
       validateJSONL e long_array_line
       = Returned
           {| isValid := false;
              errors :=
                [u "Line 1: Missing or invalid 'prompt' field";
                 u "Line 1: Prompt exceeds maximum length of 4096 characters"];
              totalLines := 1 |}.
Proof.
  split; [vm_compute; reflexivity|].
  intros e. rewrite validateJSONL_spec. vm_compute. reflexivity.
Qed.

(** ** Counting lines *)

Definition is_line_end (c : N) : bool := (c =? 10) || (c =? 13).

(** The newlines of a text: every [\n], together with the [\r] just before
    it when there is one, and every [\r] that no [\n] follows. *)
Fixpoint count_line_ends (t : text) : nat :=
  match t with
  | [] => 0%nat
  | c :: t' =>
      Nat.add
        (if c =? 13 then
           match t' with
           | d :: _ => if d =? 10 then 0%nat else 1%nat
           | [] => 1%nat
           end
         else if is_line_end c then 1%nat
         else 0%nat)
        (count_line_ends t')
  end.

(** The text ends with a partial line: it is not empty and its last code
    unit is not a line end. *)
Definition has_partial_line (t : text) : bool :=
  negb (is_line_end (List.last t 10)).

(** The newline-delimited segments of a text, a trailing partial line
    counting for one. *)
Definition segments (t : text) : nat :=
  (count_line_ends t + if has_partial_line t then 1 else 0)%nat.

Example segments_examples :
  List.map segments [[]; [10]; [97]; [97; 10]; [97; 10; 98]; [10; 10];
                     [97; 13; 10; 13; 98]; [32; 10; 32]; [97; 8232; 98]]
  = [0; 1; 1; 1; 2; 2; 3; 2; 1]%nat.
Proof. reflexivity. Qed.






(** A line separator of Unicode is no newline for the reader: the two parts
    are one line, which is not JSON. *)
Example line_separator_is_no_newline :
  validateJSONL sample_engine
    (q "{'prompt':'a','completion':'b'}" ++ [8232] ++ q "{'prompt':'a','completion':'b'}")
  = Returned
      {| isValid := false;
         errors := [u "Line 1: Invalid JSON format - Unexpected end of JSON input"];
         totalLines := 1 |}.
Proof. vm_compute. reflexivity. Qed.

(** ** The upload gate *)

Section UploadGate.

Variable e : Engine.
Variable openai : Upstream.

(** What [POST /api/upload] does with a stored file, by outcome. *)
Lemma upload_handler_stored (f : upload) (req_purpose : option text) (w : world)
    (content : text) (r : ValidationRecord) :
  files w !! upload_path f = Some content ->
  validateJSONL e content = Returned r ->
  upload_handler e openai (Some f) req_purpose w
  = if isValid r then
      (Returned
         match files_create openai content (purpose_or_default req_purpose) with
         | Returned file =>
             res_json (BUploaded (u "File uploaded successfully") file (totalLines r))
         | Thrown message =>
             res_status_json 500 (BErrorMessage (u "Failed to upload file") message)
         end,
       {| files := delete (upload_path f) (files w);
          events := Unlinked (upload_path f)
                    :: FilesCreate (upload_path f) (purpose_or_default req_purpose)
                    :: events w |})
    else
      (Returned
         (res_status_json 400
            (BInvalid (u "Invalid JSONL format") (errors r) None)),
       {| files := delete (upload_path f) (files w);
          events := Unlinked (upload_path f) :: events w |}).
Proof.
  intros Hf Hv.
  unfold upload_handler, try_catch, validateJSONL_at, bind, readFileSync, lift.
  rewrite Hf, Hv. destruct (isValid r); simpl.
  - unfold openai_files_create, bind, readFileSync, modify, lift, log. simpl.
    rewrite Hf.
    destruct (files_create openai content (purpose_or_default req_purpose)).
    + unfold unlinkSync. cbn [files events]. rewrite Hf. reflexivity.
    + unfold cleanup_if_exists, bind, existsSync, when, unlinkSync, ret.
      cbn [files events]. rewrite !Hf. cbn [files events]. rewrite Hf.
      reflexivity.
  - unfold unlinkSync. rewrite Hf. reflexivity.
Qed.

End UploadGate.

(** C8: when the validator reports the stored file invalid, the upload
    endpoint answers 400 with the Invalid JSONL format payload carrying all
    the errors and makes no create-file call; a create-file call is made only
    when validation passed. *)
Theorem upload_gate (e : Engine) (openai : Upstream) (f : upload)
    (req_purpose : option text) (w : world) (content : text) :
  files w !! upload_path f = Some content ->
  exists r out w',
    validateJSONL e content = Returned r
    /\ upload_handler e openai (Some f) req_purpose w = (out, w')
    /\ (isValid r = false ->
          out = Returned (res_status_json 400
                            (BInvalid (u "Invalid JSONL format") (errors r) None))
          /\ events w' = Unlinked (upload_path f) :: events w)
    /\ (forall path purpose,
          In (FilesCreate path purpose) (events w') ->
          ~ In (FilesCreate path purpose) (events w) ->
          isValid r = true).
Proof.
  intros Hf.
  pose proof (validateJSONL_spec e content) as Hv.
  eexists; eexists; eexists. split; [exact Hv|].
  split; [rewrite (upload_handler_stored e openai f req_purpose w _ _ Hf Hv);
          apply surjective_pairing|].
  set (r := {| isValid := _ |}). destruct (isValid r) eqn:Hr; cbn [fst snd events].
  - split; [discriminate | reflexivity].
  - split; [intros _; split; reflexivity|].
    intros path purpose [H|H] Hn; [discriminate | contradiction].
Qed.

(** An upstream whose every call rejects. *)
Definition failing_upstream : Upstream :=
  {| files_create := fun _ _ => Thrown (u "Connection error.");
     images_generate := fun _ => Thrown (u "Connection error.");
     images_edit := fun _ _ _ => Thrown (u "Connection error.");
     images_createVariation := fun _ => Thrown (u "Connection error.");
     now_iso := u "2024-11-01T00:00:00.000Z" |}.

(** The invalid scenario file sent to the upload endpoint. *)
Lemma upload_gate_witness :
  files scenario_world !! upload_path scenario_upload = Some scenario_body
  /\ exists r out w',
       validateJSONL sample_engine scenario_body = Returned r
       /\ upload_handler sample_engine failing_upstream (Some scenario_upload) None
            scenario_world = (out, w')
       /\ (isValid r = false ->
             out = Returned (res_status_json 400
                               (BInvalid (u "Invalid JSONL format") (errors r) None))
             /\ events w' = Unlinked (upload_path scenario_upload)
                            :: events scenario_world)
       /\ (forall path purpose,
             In (FilesCreate path purpose) (events w') ->
             ~ In (FilesCreate path purpose) (events scenario_world) ->
             isValid r = true).
Proof.
  split; [reflexivity|].
  apply (upload_gate sample_engine failing_upstream scenario_upload None
           scenario_world scenario_body).
  reflexivity.
Defined.

(** ** Temporary files *)

(** The fine-tune handlers remove the stored file exactly once, whatever the
    outcome. *)
Lemma fine_tune_handlers_unlink_once (e : Engine) (openai : Upstream) (f : upload)
    (req_purpose : option text) (w : world) (content : text) :
  files w !! upload_path f = Some content ->
  let removed_once (w' : world) :=
    files w' = delete (upload_path f) (files w)
    /\ exists calls, events w' = Unlinked (upload_path f) :: calls ++ events w
                     /\ ~ In (Unlinked (upload_path f)) calls in
  removed_once (snd (validate_jsonl_handler e (Some f) w))
  /\ removed_once (snd (upload_handler e openai (Some f) req_purpose w)).
Proof.
  intros Hf removed_once.
  pose proof (validateJSONL_spec e content) as Hv. split.
  - rewrite (validate_jsonl_handler_stored e f w _ _ Hf Hv).
    split; [reflexivity|]. exists []. split; [reflexivity | intros []].
  - rewrite (upload_handler_stored e openai f req_purpose w _ _ Hf Hv).
    match goal with |- context [if ?b then _ else _] => destruct b end;
      (split; [reflexivity|]).
    + eexists [_]. split; [reflexivity|]. intros [H|[]]. discriminate.
    + exists []. split; [reflexivity | intros []].
Qed.

(** The image handlers and their error paths: with no prompt the edit
    handler answers before touching anything, and when the upstream call
    rejects both handlers answer from their catch block, which unlinks
    nothing. *)
Lemma edit_image_without_prompt (openai : Upstream) (req_image req_mask : option upload)
    (w : world) :
  edit_image_handler openai None req_image req_mask w
  = (Returned (res_status_json 400 (BError (u "Prompt is required"))), w).
Proof. reflexivity. Qed.

Lemma edit_image_upstream_failure (openai : Upstream) (c : N) (p : text)
    (image : upload) (w : world) (content message : text) :
  files w !! upload_path image = Some content ->
  images_edit openai content None (c :: p) = Thrown message ->
  edit_image_handler openai (Some (c :: p)) (Some image) None w
  = (Returned (res_status_json 500 (BErrorDetails (u "Failed to edit image") message)),
     log (ImagesEdit (upload_path image) None (c :: p)) w).
Proof.
  intros Hf Hu.
  unfold edit_image_handler, try_catch, bind, readFileSync, ret, modify, lift.
  rewrite Hf. cbn [option_map]. rewrite Hu. reflexivity.
Qed.

Lemma image_variations_upstream_failure (openai : Upstream) (image : upload)
    (w : world) (content message : text) :
  files w !! upload_path image = Some content ->
  images_createVariation openai content = Thrown message ->
  image_variations_handler openai (Some image) w
  = (Returned (res_status_json 500
                 (BErrorDetails (u "Failed to generate variations") message)),
     log (ImagesCreateVariation (upload_path image)) w).
Proof.
  intros Hf Hu.
  unfold image_variations_handler, try_catch, bind, readFileSync, modify, lift.
  rewrite Hf, Hu. reflexivity.
Qed.

Definition stored_image : upload :=
  {| upload_path := "uploads/image-1730000000000-42.png";
     upload_filename := u "image-1730000000000-42.png" |}.

Definition image_world : world :=
  {| files := {[ upload_path stored_image := [137; 80; 78; 71] ]}; events := [] |}.

(** C4, at the failing inputs: [POST /api/edit-image] with a stored image
    and no prompt answers 400, and with a prompt and a rejecting upstream
    answers 500; [POST /api/image-variations] with a rejecting upstream
    answers 500.  In all three the stored image is still there when the
    handler has finished and no unlink was made. *)
Theorem image_handlers_leave_upload :
  let left_behind (res : outcome response * world) (code : nat) :=
    (exists b, fst res = Returned {| status := code; payload := b |})
    /\ files (snd res) !! upload_path stored_image = Some [137; 80; 78; 71]
    /\ ~ In (Unlinked (upload_path stored_image)) (events (snd res)) in
  left_behind
    (edit_image_handler failing_upstream None (Some stored_image) None image_world)
    400%nat
  /\ left_behind
       (edit_image_handler failing_upstream (Some (u "add a hat"))
          (Some stored_image) None image_world)
       500%nat
  /\ left_behind
       (image_variations_handler failing_upstream (Some stored_image) image_world)
       500%nat.
Proof.
  intros left_behind. unfold left_behind.
  repeat split; try (eexists; reflexivity); try reflexivity;
    vm_compute; intuition discriminate.
Qed.

(** ** JSON.parse after JSON.stringify *)

(** Every number of the value is a number literal. *)
Fixpoint wf_json (v : json) : bool :=
  match v with
  | JNumber lit => is_number_literal lit
  | JArray elems => forallb wf_json elems
  | JObject members => forallb (fun kv => wf_json (snd kv)) members
  | _ => true
  end.

Lemma json_induction (P : json -> Prop) :
  P JNull ->
  (forall b, P (JBool b)) ->
  (forall lit, P (JNumber lit)) ->
  (forall s, P (JString s)) ->
  (forall elems, Forall P elems -> P (JArray elems)) ->
  (forall members, Forall (fun kv => P (snd kv)) members -> P (JObject members)) ->
  forall v, P v.
Proof.
  intros Hnull Hbool Hnum Hstr Harr Hobj.
  fix IH 1. intros [ | b | lit | s | elems | members].
  - exact Hnull.
  - apply Hbool.
  - apply Hnum.
  - apply Hstr.
  - apply Harr. induction elems as [|x elems IHl]; constructor; [apply IH | exact IHl].
  - apply Hobj. induction members as [|[k x] members IHl]; constructor;
      [apply IH | exact IHl].
Qed.

Lemma run_app (s : pstate) (a b : text) :
  run s (a ++ b) = match run s a with Some s' => run s' b | None => None end.
Proof.
  revert s. induction a as [|c a IH]; intros s; simpl; [reflexivity|].
  destruct (step s c); [apply IH | reflexivity].
Qed.

(** *** Strings *)

(** The code units of [t] all stay inside the string. *)
Fixpoint str_feed (ss : str_state) (buf : text) (t : text)
  : option (str_state * text) :=
  match t with
  | [] => Some (ss, buf)
  | c :: t' =>
      match str_step ss buf c with
      | StrMore ss' buf' => str_feed ss' buf' t'
      | _ => None
      end
  end.

Lemma str_feed_app (ss : str_state) (buf a b : text) :
  str_feed ss buf (a ++ b)
  = match str_feed ss buf a with
    | Some (ss', buf') => str_feed ss' buf' b
    | None => None
    end.
Proof.
  revert ss buf. induction a as [|c a IH]; intros ss buf; simpl; [reflexivity|].
  destruct (str_step ss buf c); auto.
Qed.

Lemma hex_digit_value (d : N) : d < 16 -> hex_value (hex_digit d) = Some d.
Proof.
  intros H. unfold hex_value, hex_digit, is_digit.
  destruct (N.ltb_spec d 10).
  - case_chars. f_equal. lia.
  - case_chars. f_equal. lia.
Qed.

Lemma feed_unicode_escape (c : N) (buf : text) :
  c < 65536 -> str_feed SChars buf (unicode_escape c) = Some (SChars, c :: buf).
Proof.
  intros Hc. unfold unicode_escape. cbn [str_feed].
  change (str_step SChars buf 92) with (StrMore SEscape buf). cbv iota.
  change (str_step SEscape buf 117) with (StrMore (SUnicode 0 0) buf). cbv iota.
  unfold str_step.
  rewrite !hex_digit_value by (apply N.mod_lt; discriminate).
  do 3 f_equal.
  pose proof (N.div_mod c 4096 ltac:(discriminate)).
  pose proof (N.div_mod (c mod 4096) 256 ltac:(discriminate)).
  pose proof (N.div_mod (c mod 256) 16 ltac:(discriminate)).
  assert (c / 4096 < 16) by (apply N.Div0.div_lt_upper_bound; lia).
  rewrite (N.mod_small (c / 4096) 16) by assumption.
  assert (c / 256 mod 16 = c mod 4096 / 256) as ->.
  { change 4096 with (256 * 16). rewrite N.Div0.mod_mul_r.
    rewrite N.mul_comm, N.div_add by discriminate.
    rewrite (N.div_small (c mod 256) 256) by (apply N.mod_lt; discriminate).
    reflexivity. }
  assert (c / 16 mod 16 = c mod 256 / 16) as ->.
  { change 256 with (16 * 16). rewrite N.Div0.mod_mul_r.
    rewrite N.mul_comm, N.div_add by discriminate.
    rewrite (N.div_small (c mod 16) 16) by (apply N.mod_lt; discriminate).
    reflexivity. }
  assert (c mod 4096 mod 256 = c mod 256) as E1.
  { change 4096 with (256 * 16). rewrite N.Div0.mod_mul_r.
    rewrite N.mul_comm, N.Div0.mod_add. apply N.Div0.mod_mod. }
  assert (c mod 256 mod 16 = c mod 16) as E2.
  { change 256 with (16 * 16). rewrite N.Div0.mod_mul_r.
    rewrite N.mul_comm, N.Div0.mod_add. apply N.Div0.mod_mod. }
  rewrite E1 in *. rewrite E2 in *. lia.
Qed.

Lemma feed_quote_unit (c : N) (buf : text) :
  is_high_surrogate c = false ->
  str_feed SChars buf (quote_unit c) = Some (SChars, c :: buf).
Proof.
  intros Hh. unfold quote_unit.
  destruct (N.eqb_spec c 8) as [->|]; [reflexivity|].
  destruct (N.eqb_spec c 9) as [->|]; [reflexivity|].
  destruct (N.eqb_spec c 10) as [->|]; [reflexivity|].
  destruct (N.eqb_spec c 12) as [->|]; [reflexivity|].
  destruct (N.eqb_spec c 13) as [->|]; [reflexivity|].
  destruct (N.eqb_spec c 34) as [->|]; [reflexivity|].
  destruct (N.eqb_spec c 92) as [->|]; [reflexivity|].
  rewrite Hh, orb_false_r.
  destruct ((c <? 32) || is_low_surrogate c) eqn:E.
  - apply feed_unicode_escape.
    apply orb_true_iff in E. destruct E as [E|E].
    + apply N.ltb_lt in E. lia.
    + unfold is_low_surrogate in E. apply andb_true_iff in E.
      destruct E as [_ E]. apply N.leb_le in E. lia.
  - apply orb_false_iff in E. destruct E as [E _]. apply N.ltb_ge in E.
    simpl. unfold str_step. case_chars. reflexivity.
Qed.

Lemma feed_quote_units (n : nat) :
  forall s buf, (length s <= n)%nat ->
    str_feed SChars buf (quote_units s) = Some (SChars, rev s ++ buf).
Proof.
  induction n as [|n IH]; intros s buf Hlen.
  - destruct s; [reflexivity | simpl in Hlen; lia].
  - destruct s as [|c s]; [reflexivity|]. simpl in Hlen.
    cbn [quote_units rev]. rewrite <- app_assoc. cbn [app].
    destruct (is_high_surrogate c) eqn:Hh.
    + assert (c < 65536) as Hc.
      { unfold is_high_surrogate in Hh. apply andb_true_iff in Hh.
        destruct Hh as [_ Hh]. apply N.leb_le in Hh. lia. }
      destruct s as [|d s].
      * rewrite feed_unicode_escape by exact Hc. reflexivity.
      * destruct (is_low_surrogate d) eqn:Hl.
        -- cbn [str_feed].
           assert (str_step SChars buf c = StrMore SChars (c :: buf)) as ->.
           { unfold is_high_surrogate in Hh. apply andb_true_iff in Hh.
             destruct Hh as [Hh _]. apply N.leb_le in Hh.
             unfold str_step. case_chars. reflexivity. }
           assert (str_step SChars (c :: buf) d = StrMore SChars (d :: c :: buf)) as ->.
           { unfold is_low_surrogate in Hl. apply andb_true_iff in Hl.
             destruct Hl as [Hl _]. apply N.leb_le in Hl.
             unfold str_step. case_chars. reflexivity. }
           rewrite IH by (simpl in Hlen; lia).
           cbn [rev]. rewrite <- !app_assoc. reflexivity.
        -- rewrite str_feed_app, feed_unicode_escape by exact Hc.
           apply IH. lia.
    + rewrite str_feed_app, feed_quote_unit by exact Hh. apply IH. lia.
Qed.

Section StringModes.

(** A mode that reads a string ([MStr] or [MKey acc]) and where the
    automaton goes when the string ends. *)
Variable wrap : str_state -> text -> mode.
Variable st : list frame.
Variable fin : text -> pstate.
Hypothesis step_wrap : forall ss buf c,
  step (wrap ss buf, st) c
  = match str_step ss buf c with
    | StrMore ss' buf' => Some (wrap ss' buf', st)
    | StrEnd x => Some (fin x)
    | StrBad => None
    end.

Lemma run_str_feed (t : text) :
  forall ss buf ss' buf' rest,
    str_feed ss buf t = Some (ss', buf') ->
    run (wrap ss buf, st) (t ++ rest) = run (wrap ss' buf', st) rest.
Proof.
  induction t as [|c t IH]; intros ss buf ss' buf' rest H; simpl in *.
  - injection H as <- <-. reflexivity.
  - rewrite step_wrap. destruct (str_step ss buf c); try discriminate.
    apply IH. exact H.
Qed.

Lemma run_quoted (s rest : text) :
  run (wrap SChars [], st) (quote_units s ++ 34 :: rest) = run (fin s) rest.
Proof.
  rewrite (run_str_feed _ _ _ _ _ _ (feed_quote_units (length s) s [] (le_n _))).
  cbn [run]. rewrite step_wrap. unfold str_step. rewrite N.eqb_refl.
  rewrite app_nil_r, rev_involutive. reflexivity.
Qed.

End StringModes.

Lemma run_string_value (s : text) (st : list frame) (rest : text) :
  run (MStr SChars [], st) (quote_units s ++ 34 :: rest)
  = run (complete (JString s) st) rest.
Proof.
  apply (run_quoted MStr st (fun x => complete (JString x) st)).
  reflexivity.
Qed.

Lemma run_string_key (acc : list (text * json)) (k : text) (st : list frame)
    (rest : text) :
  run (MKey acc SChars [], st) (quote_units k ++ 34 :: rest)
  = run (MColon acc k, st) rest.
Proof.
  apply (run_quoted (MKey acc) st (fun x => (MColon acc x, st))).
  reflexivity.
Qed.

(** *** Numbers *)

Definition final_phase (lit : text) : num_phase :=
  match num_run NStart lit with
  | Some ph => ph
  | None => NStart
  end.

Lemma run_number_tail (t : text) :
  forall ph ph' buf st rest,
    num_run ph t = Some ph' ->
    run (MNum ph buf, st) (t ++ rest) = run (MNum ph' (rev t ++ buf), st) rest.
Proof.
  induction t as [|c t IH]; intros ph ph' buf st rest H; simpl in *.
  - injection H as <-. reflexivity.
  - destruct (num_step ph c) as [ph1|]; [|discriminate].
    rewrite (IH _ _ _ _ _ H). rewrite <- app_assoc. reflexivity.
Qed.

Lemma num_start_char (c : N) (ph : num_phase) :
  num_step NStart c = Some ph -> c = 45 \/ is_digit c = true.
Proof.
  unfold num_step. destruct (N.eqb_spec c 45); [auto|].
  destruct (N.eqb_spec c 48) as [->|]; [auto|].
  destruct (is_digit c); [auto | discriminate].
Qed.

Lemma start_value_number (c : N) (ph : num_phase) (st : list frame) :
  num_step NStart c = Some ph ->
  is_ws c = false /\ c <> 93 /\ is_js_space c = false /\ 32 <= c
  /\ start_value c st = Some (MNum ph [c], st).
Proof.
  intros H. pose proof (num_start_char c ph H) as Hc.
  unfold start_value. rewrite H.
  unfold is_ws, is_js_space, is_digit in *.
  destruct Hc as [-> | Hc].
  - repeat split; try reflexivity; lia.
  - apply andb_true_iff in Hc. destruct Hc as [H1 H2].
    apply N.leb_le in H1, H2.
    repeat split; try lia; case_chars; reflexivity.
Qed.

Lemma run_number (lit : text) (st : list frame) (rest : text) :
  is_number_literal lit = true ->
  run (MValue, st) (lit ++ rest) = run (MNum (final_phase lit) (rev lit), st) rest
  /\ num_accepting (final_phase lit) = true.
Proof.
  unfold is_number_literal, final_phase. intros H.
  destruct lit as [|c t]; [discriminate|]. cbn [num_run] in *.
  destruct (num_step NStart c) as [ph1|] eqn:E1; [|discriminate].
  destruct (num_run ph1 t) as [ph'|] eqn:E2; [|discriminate].
  destruct (start_value_number c ph1 st E1) as (Hw & _ & _ & _ & Hs).
  split; [|exact H]. cbn [app run].
  change (step (MValue, st) c)
    with (if is_ws c then Some (MValue, st) else start_value c st).
  rewrite Hw, Hs. apply (run_number_tail t ph1 ph' [c] st rest E2).
Qed.

Lemma num_step_delim (ph : num_phase) (c : N) :
  c = 44 \/ c = 93 \/ c = 125 -> num_step ph c = None.
Proof. intros [->|[->| ->]]; destruct ph; reflexivity. Qed.

(** *** Values *)

(** Where the automaton stands after the text of [v], read as a value inside
    the containers [st]: a number is still open, any other value has been
    handed to its container. *)
Definition landing (v : json) (st : list frame) : pstate :=
  match v with
  | JNumber lit => (MNum (final_phase lit) (rev lit), st)
  | _ => complete v st
  end.

Definition parses_back (v : json) : Prop :=
  forall st rest,
    run (MValue, st) (JSON_stringify v ++ rest) = run (landing v st) rest.

Lemma stringify_head (v : json) :
  wf_json v = true ->
  exists c t, JSON_stringify v = c :: t
              /\ is_ws c = false /\ c <> 93 /\ is_js_space c = false.
Proof.
  destruct v as [ | [|] | lit | s | elems | members]; intros Hwf;
    try (eexists; eexists; split; [reflexivity|];
         split; [reflexivity | split; [discriminate | reflexivity]]).
  simpl in Hwf. unfold is_number_literal in Hwf.
  destruct lit as [|c t]; [discriminate|]. cbn [num_run] in Hwf.
  destruct (num_step NStart c) as [ph|] eqn:E; [|discriminate].
  destruct (start_value_number c ph [] E) as (H1 & H2 & H3 & _).
  exists c, t. auto.
Qed.

Lemma landing_delim (v : json) (st : list frame) (c : N) :
  wf_json v = true ->
  c = 44 \/ c = 93 \/ c = 125 ->
  step (landing v st) c = step_delim (complete v st) c.
Proof.
  intros Hwf Hc.
  destruct v; try (simpl; destruct st as [|[]]; reflexivity).
  simpl in Hwf. destruct (run_number lit st [] Hwf) as [_ Hacc].
  unfold landing, step. rewrite (num_step_delim _ c Hc), Hacc, rev_involutive.
  reflexivity.
Qed.

Lemma finish_landing (v : json) :
  wf_json v = true -> finish (landing v []) = Some v.
Proof.
  intros Hwf. destruct v; try reflexivity.
  simpl in Hwf. destruct (run_number lit [] [] Hwf) as [_ Hacc].
  simpl. rewrite Hacc, rev_involutive. reflexivity.
Qed.

Lemma join_comma_cons (p : text) (ps : list text) :
  join_comma (p :: ps)
  = p ++ match ps with [] => [] | _ => 44 :: join_comma ps end.
Proof. destruct ps; simpl; [rewrite app_nil_r|]; reflexivity. Qed.

Lemma run_elements (elems : list json) :
  Forall (fun v => wf_json v = true /\ parses_back v) elems ->
  elems <> [] ->
  forall acc st rest,
    run (MValue, FArr acc :: st)
      (join_comma (List.map JSON_stringify elems) ++ 93 :: rest)
    = run (complete (JArray (rev acc ++ elems)) st) rest.
Proof.
  induction 1 as [|v elems [Hwf Hv] Hall IH]; [congruence|].
  intros _ acc st rest. cbn [List.map]. rewrite join_comma_cons, <- app_assoc.
  rewrite Hv. destruct elems as [|v2 elems].
  - cbn [List.map app run]. rewrite (landing_delim v _ 93 Hwf) by auto.
    reflexivity.
  - cbn [List.map app run]. rewrite (landing_delim v _ 44 Hwf) by auto.
    cbn [complete step_delim]. simpl (is_ws 44). simpl (44 =? 44). cbv iota.
    etransitivity; [apply (IH ltac:(discriminate) (v :: acc) st rest)|].
    cbn [rev]. rewrite <- app_assoc. reflexivity.
Qed.

Lemma run_members (members : list (text * json)) :
  Forall (fun kv => wf_json (snd kv) = true /\ parses_back (snd kv)) members ->
  members <> [] ->
  forall m0 acc st rest,
    step (m0, st) 34 = Some (MKey acc SChars [], st) ->
    run (m0, st)
      (join_comma
         (List.map (fun kv => quote (fst kv) ++ [58] ++ JSON_stringify (snd kv))
            members)
       ++ 125 :: rest)
    = run (complete (JObject (rev acc ++ members)) st) rest.
Proof.
  induction 1 as [|[k v] members [Hwf Hv] Hall IH]; [congruence|].
  intros _ m0 acc st rest Hm0. cbn [List.map fst snd] in *.
  rewrite join_comma_cons. unfold quote at 1.
  cbn [app]. rewrite <- !app_assoc. cbn [app run]. rewrite Hm0.
  rewrite run_string_key. cbn [run].
  change (step (MColon acc k, st) 58) with (Some (MValue, FObj acc k :: st)).
  cbv iota. rewrite Hv. destruct members as [|kv2 members].
  - cbn [List.map app run]. rewrite (landing_delim v _ 125 Hwf) by auto.
    reflexivity.
  - cbn [List.map app run]. rewrite (landing_delim v _ 44 Hwf) by auto.
    cbn [complete step_delim]. simpl (is_ws 44). simpl (44 =? 44). cbv iota.
    etransitivity;
      [apply (IH ltac:(discriminate) (MObjKey ((k, v) :: acc)) ((k, v) :: acc)
                st rest eq_refl)|].
    cbn [rev]. rewrite <- app_assoc. reflexivity.
Qed.

Lemma run_arr_start (c : N) (t : text) (st : list frame) :
  is_ws c = false -> c <> 93 ->
  run (MArrStart, st) (c :: t) = run (MValue, FArr [] :: st) (c :: t).
Proof.
  intros Hw Hc. cbn [run]. unfold step. rewrite Hw.
  destruct (N.eqb_spec c 93); [contradiction | reflexivity].
Qed.

Lemma run_stringify (v : json) : wf_json v = true -> parses_back v.
Proof.
  induction v as [ | b | lit | s | elems IH | members IH] using json_induction;
    intros Hwf st rest.
  - reflexivity.
  - destruct b; reflexivity.
  - simpl in Hwf. apply (run_number lit st rest Hwf).
  - cbn [JSON_stringify landing]. unfold quote. cbn [app run].
    change (step (MValue, st) 34) with (Some (MStr SChars [], st)). cbv iota.
    rewrite <- app_assoc. apply run_string_value.
  - cbn [JSON_stringify landing]. cbn [app run].
    change (step (MValue, st) 91) with (Some (MArrStart, st)). cbv iota.
    rewrite <- app_assoc. cbn [app].
    assert (Forall (fun v => wf_json v = true /\ parses_back v) elems) as Hall.
    { simpl in Hwf. rewrite forallb_forall in Hwf.
      rewrite List.Forall_forall in IH |- *. intros x Hx. split; auto. }
    destruct elems as [|v elems]; [reflexivity|].
    inversion Hall as [|? ? [Hwfv _] _]; subst.
    destruct (stringify_head v Hwfv) as (c & t & Hct & Hw & Hc & _).
    assert (exists t', join_comma (List.map JSON_stringify (v :: elems)) ++ 93 :: rest
                       = c :: t') as [t' Ht'].
    { cbn [List.map]. rewrite join_comma_cons, Hct. eexists. reflexivity. }
    pose proof (run_elements (v :: elems) Hall ltac:(discriminate) [] st rest) as Hrun.
    rewrite Ht' in Hrun |- *. rewrite (run_arr_start c t' st Hw Hc). exact Hrun.
  - cbn [JSON_stringify landing]. cbn [app run].
    change (step (MValue, st) 123) with (Some (MObjStart, st)). cbv iota.
    rewrite <- app_assoc. cbn [app].
    assert (Forall (fun kv => wf_json (snd kv) = true /\ parses_back (snd kv)) members)
      as Hall.
    { simpl in Hwf. rewrite forallb_forall in Hwf.
      rewrite List.Forall_forall in IH |- *. intros x Hx. split; auto. }
    destruct members as [|kv members]; [reflexivity|].
    apply (run_members (kv :: members) Hall ltac:(discriminate) MObjStart [] st rest).
    reflexivity.
Qed.

(** [JSON.parse(JSON.stringify(v))] is [v]. *)
Lemma parse_stringify (v : json) :
  wf_json v = true -> parse_text (JSON_stringify v) = Some v.
Proof.
  intros Hwf. unfold parse_text.
  rewrite <- (app_nil_r (JSON_stringify v)), (run_stringify v Hwf).
  simpl. apply finish_landing. exact Hwf.
Qed.

(** *** The text of a value is one non-blank line *)

Definition printable (t : text) : Prop := Forall (fun c => 32 <= c) t.

Lemma printable_app (a b : text) : printable a -> printable b -> printable (a ++ b).
Proof. unfold printable. rewrite Forall_app. auto. Qed.

Lemma printable_unicode_escape (c : N) : printable (unicode_escape c).
Proof.
  unfold unicode_escape, printable, hex_digit.
  repeat constructor; try (intros H; discriminate H); case_chars;
    (apply N.le_trans with 48; [intros H'; discriminate H' | apply N.le_add_r]).
Qed.

Lemma printable_quote_unit (c : N) : printable (quote_unit c).
Proof.
  unfold quote_unit.
  repeat match goal with
         | |- context [if ?a =? ?b then _ else _] => destruct (N.eqb_spec a b)
         end; try (repeat constructor; intros H; discriminate H).
  destruct (N.ltb_spec c 32); simpl.
  - apply printable_unicode_escape.
  - destruct (is_high_surrogate c || is_low_surrogate c).
    + apply printable_unicode_escape.
    + repeat constructor. assumption.
Qed.

Lemma printable_quote_units (n : nat) :
  forall s, (length s <= n)%nat -> printable (quote_units s).
Proof.
  induction n as [|n IH]; intros s Hlen.
  - destruct s; [constructor | simpl in Hlen; lia].
  - destruct s as [|c s]; [constructor|]. simpl in Hlen. cbn [quote_units].
    destruct (is_high_surrogate c) eqn:Hh.
    + destruct s as [|d s]; [apply printable_unicode_escape|].
      destruct (is_low_surrogate d) eqn:Hl.
      * unfold is_high_surrogate in Hh. unfold is_low_surrogate in Hl.
        apply andb_true_iff in Hh, Hl. destruct Hh as [Hh _], Hl as [Hl _].
        apply N.leb_le in Hh, Hl.
        constructor; [lia|]. constructor; [lia|].
        apply IH. simpl in Hlen. lia.
      * apply printable_app; [apply printable_unicode_escape | apply IH; lia].
    + apply printable_app; [apply printable_quote_unit | apply IH; lia].
Qed.

Lemma printable_quote (s : text) : printable (quote s).
Proof.
  unfold quote. apply printable_app; [repeat constructor; discriminate|].
  apply printable_app; [apply (printable_quote_units (length s)); lia|].
  repeat constructor; discriminate.
Qed.

Lemma num_step_printable (ph ph' : num_phase) (c : N) :
  num_step ph c = Some ph' -> 32 <= c.
Proof.
  destruct ph; unfold num_step, is_digit, is_exp; case_chars;
    simpl; try discriminate; intros _; lia.
Qed.

Lemma num_run_printable (t : text) :
  forall ph ph', num_run ph t = Some ph' -> printable t.
Proof.
  induction t as [|c t IH]; intros ph ph' H; [constructor|].
  simpl in H. destruct (num_step ph c) as [ph1|] eqn:E; [|discriminate].
  constructor; [exact (num_step_printable _ _ _ E) | exact (IH _ _ H)].
Qed.

Lemma printable_join (parts : list text) :
  Forall printable parts -> printable (join_comma parts).
Proof.
  induction 1 as [|p ps Hp Hps IH]; [constructor|].
  rewrite join_comma_cons. apply printable_app; [exact Hp|].
  destruct ps; [constructor|]. constructor; [discriminate | exact IH].
Qed.

Lemma printable_stringify (v : json) :
  wf_json v = true -> printable (JSON_stringify v).
Proof.
  induction v as [ | b | lit | s | elems IH | members IH] using json_induction;
    intros Hwf.
  - repeat constructor; discriminate.
  - destruct b; repeat constructor; discriminate.
  - simpl in Hwf |- *. unfold is_number_literal in Hwf.
    destruct (num_run NStart lit) eqn:E; [|discriminate].
    exact (num_run_printable _ _ _ E).
  - apply printable_quote.
  - cbn [JSON_stringify]. simpl in Hwf. rewrite forallb_forall in Hwf.
    apply printable_app; [repeat constructor; discriminate|].
    apply printable_app; [|repeat constructor; discriminate].
    apply printable_join. rewrite List.Forall_forall in IH |- *.
    intros p Hp. apply in_map_iff in Hp. destruct Hp as (x & <- & Hx). auto.
  - cbn [JSON_stringify]. simpl in Hwf. rewrite forallb_forall in Hwf.
    apply printable_app; [repeat constructor; discriminate|].
    apply printable_app; [|repeat constructor; discriminate].
    apply printable_join. rewrite List.Forall_forall in IH |- *.
    intros p Hp. apply in_map_iff in Hp. destruct Hp as (x & <- & Hx).
    apply printable_app; [apply printable_quote|].
    apply printable_app; [repeat constructor; discriminate | auto].
Qed.

Lemma stringify_not_blank (v : json) :
  wf_json v = true -> not_blank (JSON_stringify v) = true.
Proof.
  intros Hwf. destruct (stringify_head v Hwf) as (c & t & Hct & _ & _ & Hs).
  unfold not_blank. destruct (trim (JSON_stringify v)) eqn:E; [|reflexivity].
  apply trim_nil_spaces in E. rewrite Hct in E. simpl in E.
  rewrite Hs in E. discriminate.
Qed.

(** *** Splitting a file of lines *)

Lemma split_from_line (a : text) :
  Forall (fun c => c <> 10) a ->
  forall cur rest,
    split_from cur (a ++ 10 :: rest) = (rev cur ++ a) :: split_from [] rest.
Proof.
  induction 1 as [|c a Hc Ha IH]; intros cur rest.
  - simpl. rewrite app_nil_r. reflexivity.
  - cbn [app split_from]. destruct (N.eqb_spec c 10); [contradiction|].
    rewrite IH. cbn [rev]. rewrite <- app_assoc. reflexivity.
Qed.

Definition log_text (entries : list json) : text :=
  concat (List.map (fun v => JSON_stringify v ++ [10]) entries).

Lemma split_log_text (entries : list json) :
  Forall (fun v => wf_json v = true) entries ->
  split_newline (log_text entries) = List.map JSON_stringify entries ++ [[]].
Proof.
  unfold split_newline, log_text.
  induction 1 as [|v entries Hv Hall IH]; [reflexivity|].
  cbn [List.map concat]. rewrite <- app_assoc. cbn [app].
  rewrite split_from_line.
  - rewrite IH. reflexivity.
  - pose proof (printable_stringify v Hv) as Hp.
    unfold printable in Hp. rewrite List.Forall_forall in Hp |- *.
    intros c Hc ->. specialize (Hp _ Hc). lia.
Qed.

Lemma filter_log_lines (entries : list json) :
  Forall (fun v => wf_json v = true) entries ->
  List.filter not_blank (List.map JSON_stringify entries ++ [[]])
  = List.map JSON_stringify entries.
Proof.
  intros Hall. rewrite List.filter_app. cbn [List.filter].
  change (not_blank []) with false. cbv iota. rewrite app_nil_r.
  induction Hall as [|v entries Hv Hall IH]; [reflexivity|].
  cbn [List.map List.filter]. rewrite (stringify_not_blank v Hv), IH. reflexivity.
Qed.

(** ** Listing a log *)

Section Listing.

Variable e : Engine.

Lemma map_parse_ok (lines : list text) (vs : list json) :
  Forall2 (fun line v => parse_text line = Some v) lines vs ->
  map_parse e lines = Returned vs.
Proof.
  induction 1 as [|line v lines vs Hv Hall IH]; [reflexivity|].
  simpl. unfold JSON_parse. rewrite Hv, IH. reflexivity.
Qed.

Lemma map_parse_fail (lines : list text) :
  Exists (fun line => parse_text line = None) lines ->
  exists message, map_parse e lines = Thrown message.
Proof.
  induction 1 as [line lines H | line lines H IH]; simpl; unfold JSON_parse.
  - rewrite H. eexists. reflexivity.
  - destruct (parse_text line); [|eexists; reflexivity].
    destruct IH as [m ->]. eexists. reflexivity.
Qed.

Lemma map_parse_stringify (entries : list json) :
  Forall (fun v => wf_json v = true) entries ->
  map_parse e (List.map JSON_stringify entries) = Returned entries.
Proof.
  intros Hall. apply map_parse_ok.
  induction Hall as [|v entries Hv Hall IH]; constructor;
    [apply parse_stringify, Hv | exact IH].
Qed.

Lemma listAll_absent (logPath : string) (w : world) :
  files w !! logPath = None -> listAll e logPath w = (Returned [], w).
Proof.
  intros H. unfold listAll, bind, existsSync. rewrite H. reflexivity.
Qed.

Lemma listAll_present (logPath : string) (w : world) (content : text) :
  files w !! logPath = Some content ->
  listAll e logPath w
  = (match map_parse e (List.filter not_blank (split_newline content)) with
     | Returned vs => Returned (rev vs)
     | Thrown message => Thrown message
     end, w).
Proof.
  intros H. unfold listAll, bind, existsSync, readFileSync, lift, ret.
  rewrite H. cbn [negb]. rewrite H.
  destruct (map_parse e _); reflexivity.
Qed.

End Listing.

(** C9: listing a log whose file does not exist answers with an empty
    sequence and no error; when the file exists the blank lines are dropped
    before parsing, the entries of the remaining lines are returned most
    recent first, and one remaining line that does not parse makes the whole
    listing fail with an error response. *)
Theorem listing_a_log (e : Engine) (logPath key failure : string) (w : world) :
  (files w !! logPath = None ->
     list_handler e logPath key failure w
     = (Returned (res_json (BListing (u key) [])), w))
  /\ (forall content, files w !! logPath = Some content ->
        let kept := List.filter not_blank (split_newline content) in
        (forall line, In line kept <->
                      In line (split_newline content) /\ trim line <> [])
        /\ (forall vs, Forall2 (fun line v => parse_text line = Some v) kept vs ->
              list_handler e logPath key failure w
              = (Returned (res_json (BListing (u key) (rev vs))), w))
        /\ (Exists (fun line => parse_text line = None) kept ->
              exists message,
                list_handler e logPath key failure w
                = (Returned (res_status_json 500
                               (BErrorDetails (u failure) message)), w))).
Proof.
  split.
  - intros H. unfold list_handler, try_catch, bind.
    rewrite (listAll_absent e logPath w H). reflexivity.
  - intros content H kept. split; [|split].
    + intros line. unfold kept. rewrite filter_In. unfold not_blank.
      destruct (trim line); intuition congruence.
    + intros vs Hvs. unfold list_handler, try_catch, bind.
      rewrite (listAll_present e logPath w content H).
      fold kept. rewrite (map_parse_ok e kept vs Hvs). reflexivity.
    + intros Hex. unfold list_handler, try_catch, bind.
      rewrite (listAll_present e logPath w content H). fold kept.
      destruct (map_parse_fail e kept Hex) as [m ->]. exists m. reflexivity.
Qed.

(** The three listing endpoints on a log with a blank line and on one with
    a malformed line. *)
Example listing_examples :
  let log content := {| files := {[ image_generations_log := content ]}; events := [] |} in
  fst (images_handler sample_engine
         (log (q "{'prompt':'a'}" ++ [10; 10] ++ q "{'prompt':'b'}" ++ [10])))
  = Returned (res_json (BListing (u "images")
                          [JObject [(u "prompt", JString (u "b"))];
                           JObject [(u "prompt", JString (u "a"))]]))
  /\ fst (images_handler sample_engine
            (log (q "{'prompt':'a'}" ++ [10] ++ q "{'prompt':" ++ [10])))
     = Returned (res_status_json 500
                   (BErrorDetails (u "Failed to fetch images")
                      (u "Unexpected end of JSON input")))
  /\ fst (image_edits_handler sample_engine
            (log (q "{'prompt':'a'}" ++ [10])))
     = Returned (res_json (BListing (u "edits") [])).
Proof. vm_compute. auto. Qed.

(** ** Appending then listing *)

Lemma appends_file (logPath : string) (entries : list json) :
  forall w, exists w',
    for_of entries (append_entry logPath) w = (Returned tt, w')
    /\ files w' !! logPath
       = match entries with
         | [] => files w !! logPath
         | _ => Some (default [] (files w !! logPath) ++ log_text entries)
         end.
Proof.
  induction entries as [|v entries IH]; intros w.
  - exists w. split; reflexivity.
  - cbn [for_of]. unfold bind at 1. unfold append_entry at 1, appendFileSync.
    match goal with
    | |- context [for_of entries _ ?w1] => destruct (IH w1) as (w' & Hrun & Hfile)
    end.
    exists w'. split; [exact Hrun|]. rewrite Hfile. cbn [files].
    rewrite lookup_insert_eq. unfold log_text. cbn [List.map concat].
    destruct entries.
    + cbn [List.map concat]. rewrite app_nil_r. reflexivity.
    + simpl (default [] (Some _)). rewrite <- !app_assoc. reflexivity.
Qed.

(** C5: starting from a log file that is absent or empty, appending the
    entries one after the other and then listing returns exactly those
    entries, last appended first. *)
Theorem append_then_listAll (e : Engine) (logPath : string) (entries : list json)
    (w : world) :
  files w !! logPath = None \/ files w !! logPath = Some [] ->
  Forall (fun v => wf_json v = true) entries ->
  exists w',
    for_of entries (append_entry logPath) w = (Returned tt, w')
    /\ fst (listAll e logPath w') = Returned (rev entries)
    /\ (forall e1 e2 e3, entries = [e1; e2; e3] ->
          fst (listAll e logPath w') = Returned [e3; e2; e1]).
Proof.
  intros Hstart Hwf.
  destruct (appends_file logPath entries w) as (w' & Hrun & Hfile).
  exists w'. split; [exact Hrun|].
  assert (fst (listAll e logPath w') = Returned (rev entries)) as Hlist.
  { destruct entries as [|v entries].
    - destruct Hstart as [H|H]; rewrite H in Hfile.
      + rewrite (listAll_absent e _ _ Hfile). reflexivity.
      + rewrite (listAll_present e _ _ _ Hfile). reflexivity.
    - assert (files w' !! logPath = Some (log_text (v :: entries))) as Hfile'.
      { rewrite Hfile. destruct Hstart as [-> | ->]; reflexivity. }
      rewrite (listAll_present e _ _ _ Hfile').
      rewrite (split_log_text _ Hwf), (filter_log_lines _ Hwf).
      rewrite (map_parse_stringify e _ Hwf). reflexivity. }
  split; [exact Hlist|]. intros e1 e2 e3 ->. exact Hlist.
Qed.

Definition three_entries : list json :=
  [JObject [(u "timestamp", JString (u "2024-11-01T00:00:00.000Z"));
            (u "prompt", JString (u "a cat"));
            (u "created", JNumber (u "1730419200"));
            (u "data", JArray [JObject [(u "url", JString (u "https://x/1.png"))]])];
   JObject [(u "timestamp", JString (u "2024-11-01T00:00:01.000Z"));
            (u "prompt", JString [97; 10; 34; 92; 55357; 56832; 56832]);
            (u "data", JArray [])];
   JObject [(u "timestamp", JString (u "2024-11-01T00:00:02.000Z"));
            (u "prompt", JString (u "a dog"));
            (u "data", JArray [JNull; JBool true; JNumber (u "-1.5e+3")])]].

(** Three entries appended to a log that does not exist yet. *)
Lemma append_then_listAll_witness :
  (files {| files := ∅; events := [] |} !! image_generations_log = None
   \/ files {| files := ∅; events := [] |} !! image_generations_log = Some [])
  /\ Forall (fun v => wf_json v = true) three_entries
  /\ exists w',
       for_of three_entries (append_entry image_generations_log)
         {| files := ∅; events := [] |} = (Returned tt, w')
       /\ fst (listAll sample_engine image_generations_log w')
          = Returned (rev three_entries)
       /\ (forall e1 e2 e3, three_entries = [e1; e2; e3] ->
             fst (listAll sample_engine image_generations_log w')
             = Returned [e3; e2; e1]).
Proof.
  split; [left; reflexivity|].
  split; [repeat constructor|].
  apply (append_then_listAll sample_engine image_generations_log three_entries
           {| files := ∅; events := [] |}).
  - left. reflexivity.
  - repeat constructor.
Defined.

(** ** What JSON.parse returns is well formed

    The entries the theorem above ranges over are exactly values that
    [JSON.parse] can return: every number in a parsed value is a number
    literal. *)

Definition wf_members (acc : list (text * json)) : Prop :=
  Forall (fun kv => wf_json (snd kv) = true) acc.

Definition wf_mode (m : mode) : Prop :=
  match m with
  | MArrNext acc => Forall (fun v => wf_json v = true) acc
  | MObjKey acc | MKey acc _ _ | MColon acc _ | MObjNext acc => wf_members acc
  | MLit _ v | MDone v => wf_json v = true
  | MNum ph buf => num_run NStart (rev buf) = Some ph
  | MValue | MArrStart | MObjStart | MStr _ _ => True
  end.

Definition wf_frame (f : frame) : Prop :=
  match f with
  | FArr acc => Forall (fun v => wf_json v = true) acc
  | FObj acc _ => wf_members acc
  end.

Definition wf_state (s : pstate) : Prop := wf_mode (fst s) /\ Forall wf_frame (snd s).

Lemma wf_array (acc : list json) :
  Forall (fun v => wf_json v = true) acc -> wf_json (JArray (rev acc)) = true.
Proof.
  intros H. simpl. apply forallb_forall. intros x Hx.
  apply in_rev in Hx. rewrite List.Forall_forall in H. auto.
Qed.

Lemma wf_object (acc : list (text * json)) :
  wf_members acc -> wf_json (JObject (rev acc)) = true.
Proof.
  intros H. simpl. apply forallb_forall. intros x Hx.
  apply in_rev in Hx. unfold wf_members in H. rewrite List.Forall_forall in H. auto.
Qed.

Lemma wf_complete (v : json) (st : list frame) :
  wf_json v = true -> Forall wf_frame st -> wf_state (complete v st).
Proof.
  intros Hv Hst. destruct st as [|[acc|acc k] st]; simpl.
  - split; [exact Hv | constructor].
  - inversion Hst; subst. split; [constructor; assumption | assumption].
  - inversion Hst; subst. split; [constructor; assumption | assumption].
Qed.

Lemma wf_start_value (c : N) (st : list frame) (s : pstate) :
  Forall wf_frame st -> start_value c st = Some s -> wf_state s.
Proof.
  intros Hst. unfold start_value.
  repeat match goal with
         | |- context [if ?a =? ?b then _ else _] => destruct (N.eqb_spec a b)
         end;
    try (intros H; injection H as <-; split; [exact I || reflexivity | exact Hst]).
  destruct (num_step NStart c) as [ph|] eqn:E; [|discriminate].
  intros H. injection H as <-. split; [|exact Hst].
  cbn [fst wf_mode rev app num_run]. rewrite E. reflexivity.
Qed.

Lemma wf_step_delim (s s' : pstate) (c : N) :
  wf_state s -> step_delim s c = Some s' -> wf_state s'.
Proof.
  destruct s as [m st]. intros [Hm Hst]. simpl in Hm, Hst.
  destruct m; simpl; try discriminate.
  - destruct (is_ws c); [intros H; injection H as <-; split; assumption|].
    destruct (c =? 44).
    + intros H. injection H as <-. split; [exact I | constructor; assumption].
    + destruct (c =? 93); [|discriminate].
      intros H. injection H as <-. apply wf_complete; [apply wf_array|]; assumption.
  - destruct (is_ws c); [intros H; injection H as <-; split; assumption|].
    destruct (c =? 44).
    + intros H. injection H as <-. split; assumption.
    + destruct (c =? 125); [|discriminate].
      intros H. injection H as <-. apply wf_complete; [apply wf_object|]; assumption.
  - destruct (is_ws c); [|discriminate].
    intros H. injection H as <-. split; assumption.
Qed.

Lemma num_run_snoc (t : text) (c : N) :
  forall ph ph' ph'',
    num_run ph t = Some ph' -> num_step ph' c = Some ph'' ->
    num_run ph (t ++ [c]) = Some ph''.
Proof.
  induction t as [|d t IH]; intros ph ph' ph'' H1 H2; simpl in *.
  - injection H1 as ->. rewrite H2. reflexivity.
  - destruct (num_step ph d); [eauto | discriminate].
Qed.

Lemma wf_step (s s' : pstate) (c : N) :
  wf_state s -> step s c = Some s' -> wf_state s'.
Proof.
  destruct s as [m st]. intros Hs. pose proof Hs as [Hm Hst]. simpl in Hm, Hst.
  destruct m; cbn [step].
  - destruct (is_ws c); [intros H; injection H as <-; exact Hs|].
    apply wf_start_value. exact Hst.
  - destruct (is_ws c); [intros H; injection H as <-; exact Hs|].
    destruct (c =? 93).
    + intros H. injection H as <-. apply wf_complete; [reflexivity | exact Hst].
    + apply wf_start_value. constructor; [constructor | exact Hst].
  - apply wf_step_delim. exact Hs.
  - destruct (is_ws c); [intros H; injection H as <-; exact Hs|].
    destruct (c =? 34); [intros H; injection H as <-; split; [constructor | exact Hst]|].
    destruct (c =? 125); [|discriminate].
    intros H. injection H as <-. apply wf_complete; [reflexivity | exact Hst].
  - destruct (is_ws c); [intros H; injection H as <-; exact Hs|].
    destruct (c =? 34); [|discriminate].
    intros H. injection H as <-. split; assumption.
  - destruct (str_step s buf c); try discriminate;
      intros H; injection H as <-; split; assumption.
  - destruct (is_ws c); [intros H; injection H as <-; exact Hs|].
    destruct (c =? 58); [|discriminate].
    intros H. injection H as <-. split; [exact I | constructor; assumption].
  - apply wf_step_delim. exact Hs.
  - destruct (str_step s buf c); try discriminate; intros H; injection H as <-.
    + split; [exact I | exact Hst].
    + apply wf_complete; [reflexivity | exact Hst].
  - destruct rest as [|x rest]; [discriminate|].
    destruct (c =? x); [|discriminate].
    destruct rest; intros H; injection H as <-.
    + apply wf_complete; assumption.
    + split; assumption.
  - destruct (num_step ph c) as [ph'|] eqn:E.
    + intros H. injection H as <-. split; [|exact Hst].
      simpl. apply (num_run_snoc _ _ _ _ _ Hm E).
    + destruct (num_accepting ph) eqn:Ha; [|discriminate].
      apply wf_step_delim. apply wf_complete; [|exact Hst].
      simpl. unfold is_number_literal. rewrite Hm. exact Ha.
  - apply wf_step_delim. exact Hs.
Qed.

Lemma wf_run (t : text) :
  forall s s', wf_state s -> run s t = Some s' -> wf_state s'.
Proof.
  induction t as [|c t IH]; intros s s' Hs H; simpl in H.
  - injection H as <-. exact Hs.
  - destruct (step s c) as [s1|] eqn:E; [|discriminate].
    exact (IH _ _ (wf_step _ _ _ Hs E) H).
Qed.

(** Every value [JSON.parse] returns is well formed. *)
Lemma parse_text_wf (t : text) (v : json) :
  parse_text t = Some v -> wf_json v = true.
Proof.
  unfold parse_text. destruct (run (MValue, []) t) as [[m st]|] eqn:E; [|discriminate].
  assert (wf_state (m, st)) as [Hm _]
    by (apply (wf_run t (MValue, []) _); [split; constructor | exact E]).
  simpl in Hm. destruct m; simpl; try discriminate; destruct st; try discriminate.
  - destruct (num_accepting ph) eqn:Ha; [|discriminate].
    intros H. injection H as <-. simpl. unfold is_number_literal.
    rewrite Hm. exact Ha.
  - intros H. injection H as <-. exact Hm.
Qed.

(** ** The generation handler appends, the listing handler lists *)

(** On its success path [POST /api/generate-image] makes exactly one append
    to the generation log, of the entry built from the prompt and the
    response. *)
Lemma generate_image_handler_appends (e : Engine) (openai : Upstream)
    (req_body : list (text * json)) (prompt : json)
    (response : list (text * json)) (w : world) :
  lookup_member (u "prompt") req_body = Some prompt ->
  truthy e (VData prompt) = true ->
  images_generate openai (generate_options req_body prompt) = Returned response ->
  generate_image_handler e openai req_body w
  = (Returned (res_json (BUpstream response)),
     snd (append_entry image_generations_log (imageData openai prompt response)
            (log (ImagesGenerate (generate_options req_body prompt)) w))).
Proof.
  intros Hp Ht Hr. unfold generate_image_handler, try_catch.
  cbn [get_property]. change (property_name Prompt) with (u "prompt").
  rewrite Hp, Ht. cbn [negb].
  unfold bind, modify, lift. rewrite Hr. reflexivity.
Qed.

(** An upstream that answers every image request with one URL. *)
Definition sample_upstream : Upstream :=
  {| files_create := fun _ purpose =>
       Returned {| id := u "file-1"; purpose := purpose; filename := u "data.jsonl";
                   bytes := 50; created_at := 1730419200; file_status := u "processed" |};
     images_generate := fun _ =>
       Returned [(u "created", JNumber (u "1730419200"));
                 (u "data", JArray [JObject [(u "url", JString (u "https://x/1.png"))]])];
     images_edit := fun _ _ _ => Returned [(u "created", JNumber (u "1730419200"))];
     images_createVariation := fun _ => Returned [(u "created", JNumber (u "1730419200"))];
     now_iso := u "2024-11-01T00:00:00.000Z" |}.

Example generate_twice_then_list :
  let generate prompt w :=
    snd (generate_image_handler sample_engine sample_upstream
           [(u "prompt", JString (u prompt))] w) in
  let entry prompt :=
    JObject [(u "timestamp", JString (u "2024-11-01T00:00:00.000Z"));
             (u "prompt", JString (u prompt));
             (u "created", JNumber (u "1730419200"));
             (u "data", JArray [JObject [(u "url", JString (u "https://x/1.png"))]])] in
  fst (images_handler sample_engine
         (generate "a dog" (generate "a cat" {| files := ∅; events := [] |})))
  = Returned (res_json (BListing (u "images") [entry "a dog"; entry "a cat"])).
Proof. vm_compute. reflexivity. Qed.

(** The upload endpoint on a valid file with no purpose field: the
    create-file call gets the purpose [fine-tune]. *)
Example upload_default_purpose :
  let w := {| files := {[ "uploads/1-ok.jsonl" := q "{'prompt':'a','completion':'b'}" ]};
              events := [] |} in
  let f := {| upload_path := "uploads/1-ok.jsonl"; upload_filename := u "1-ok.jsonl" |} in
  events (snd (upload_handler sample_engine sample_upstream (Some f) None w))
  = [Unlinked "uploads/1-ok.jsonl"; FilesCreate "uploads/1-ok.jsonl" (u "fine-tune")].
Proof. vm_compute. reflexivity. Qed.

(** * Further properties of the server *)

(** ** The shape of the error list *)

Section ErrorList.

Variable e : Engine.

(** The entries of a line: field errors in the order of the checks, then
    possibly the entry of the [catch] block, which ends the line's entries
    and leaves the last check undone. *)
Definition line_shape (n : nat) (entries : list text) : Prop :=
  exists b1 b2 b3 b4 caught,
    entries
    = opt_message b1 n "Missing or invalid 'prompt' field"
      ++ opt_message b2 n "Missing or invalid 'completion' field"
      ++ opt_message b3 n "Prompt exceeds maximum length of 4096 characters"
      ++ opt_message b4 n "Completion exceeds maximum length of 4096 characters"
      ++ caught
    /\ (caught = []
        \/ exists message,
             caught = [line_message n (u "Invalid JSON format - " ++ message)]
             /\ b4 = false).

Lemma line_shape_nil (n : nat) : line_shape n [].
Proof. exists false, false, false, false, []. split; [reflexivity | left; reflexivity]. Qed.

Lemma line_shape_length (n : nat) (entries : list text) :
  line_shape n entries -> (length entries <= 4)%nat.
Proof.
  intros (b1 & b2 & b3 & b4 & caught & -> & [-> | (message & -> & ->)]);
    destruct b1, b2, b3; try destruct b4; simpl; lia.
Qed.

Lemma line_report_shape (n : nat) (line : text) : line_shape n (line_report e n line).
Proof.
  unfold line_shape, line_report, length_report, invalid_json.
  destruct (parse_text line) as [parsed|].
  - assert (parsed = JNull \/ parsed <> JNull) as [->|Hn]
      by (destruct parsed; auto; right; discriminate).
    + exists false, false, false, false. eexists. split; [reflexivity|].
      right. eexists. split; reflexivity.
    + exists (missing_or_invalid e (field parsed Prompt)),
             (missing_or_invalid e (field parsed Completion)).
      destruct (too_long e (field parsed Prompt)) as [long_prompt|message].
      * destruct (too_long e (field parsed Completion)) as [long_completion|message].
        -- exists long_prompt, long_completion, [].
           split; [|left; reflexivity].
           rewrite app_nil_r. destruct parsed; congruence.
        -- exists long_prompt, false. eexists.
           split; [destruct parsed; try congruence; reflexivity|].
           right. eexists. split; reflexivity.
      * exists false, false. eexists.
        split; [destruct parsed; try congruence; reflexivity|].
        right. eexists. split; reflexivity.
  - exists false, false, false, false. eexists. split; [reflexivity|].
    right. eexists. split; reflexivity.
Qed.

Lemma line_report_length (n : nat) (line : text) :
  (length (line_report e n line) <= 4)%nat.
Proof. apply (line_shape_length n), line_report_shape. Qed.

Lemma reports_from_length (lines : list text) :
  forall n, (length (reports_from e n lines) <= 4 * length lines)%nat.
Proof.
  induction lines as [|line lines IH]; intros n; simpl; [lia|].
  rewrite length_app. pose proof (line_report_length n line).
  specialize (IH (S n)). lia.
Qed.

(** The line numbers that tag the entries of the lines numbered from [k],
    entry by entry. *)
Lemma reports_from_tags (lines : list text) :
  forall k, exists ns,
    Forall2 (fun n msg => starts_with (tag n) msg = true) ns (reports_from e k lines)
    /\ StronglySorted le ns
    /\ Forall (fun n => k <= n < k + length lines)%nat ns.
Proof.
  induction lines as [|line lines IH]; intros k.
  - exists []. repeat constructor.
  - destruct (IH (S k)) as (ns & Htag & Hsort & Hrange). cbn [reports_from].
    pose proof (line_report_tagged e k line) as Hk.
    induction Hk as [|msg l [w ->] _ IHl].
    + exists ns. split; [exact Htag|]. split; [exact Hsort|].
      eapply List.Forall_impl; [|exact Hrange]. simpl. intros n Hn. lia.
    + destruct IHl as (ns' & Htag' & Hsort' & Hrange').
      exists (k :: ns'). split; [|split].
      * constructor; [apply starts_with_app | exact Htag'].
      * constructor; [exact Hsort'|].
        eapply List.Forall_impl; [|exact Hrange']. simpl. intros n Hn. lia.
      * constructor; [simpl; lia | exact Hrange'].
Qed.

End ErrorList.

(** X1: the validator reports at most four errors per line, so at most
    4 * totalLines in all.  The entries of a line are field errors in the
    order of the four checks, followed or not by one entry of the [catch]
    block; when that entry is there it is the last of the line and the
    completion's length error is not. *)
Theorem errors_at_most_four_per_line (e : Engine) (content : text) :
  exists r, validateJSONL e content = Returned r
    /\ (length (errors r) <= 4 * totalLines r)%nat
    /\ (forall n, line_shape n (errors_of_line n (errors r))
                  /\ (length (errors_of_line n (errors r)) <= 4)%nat).
Proof.
  eexists. split; [apply validateJSONL_spec|]. cbn [errors totalLines]. split.
  - apply reports_from_length.
  - intros n.
    assert (line_shape n (errors_of_line n (reports_from e 1 (readline content))))
      as Hshape.
    { destruct n as [|i].
      + assert (forall lines k, (0 < k)%nat ->
                  errors_of_line 0 (reports_from e k lines) = []) as H0.
        { induction lines as [|l lines IH]; intros k Hk; simpl; [reflexivity|].
          rewrite errors_of_line_app, errors_of_line_other by lia.
          apply IH. lia. }
        rewrite H0 by lia. apply line_shape_nil.
      + destruct (nth_error (readline content) i) as [line|] eqn:Hi.
        * change (S i) with (1 + i)%nat.
          rewrite (errors_of_line_reports e _ 1 i line Hi). apply line_report_shape.
        * assert (forall lines k j, (k + length lines <= j)%nat ->
                    errors_of_line j (reports_from e k lines) = []) as Hout.
          { induction lines as [|l lines IH]; intros k j Hj; simpl in *; [reflexivity|].
            rewrite errors_of_line_app, errors_of_line_other by lia.
            apply IH. lia. }
          apply nth_error_None in Hi. rewrite Hout by lia. apply line_shape_nil. }
    split; [exact Hshape | exact (line_shape_length n _ Hshape)].
Qed.

Definition two_long_fields_line : text :=
  q "{'prompt':{'length':5000},'completion':{'length':5000}}".

(** Four errors on one line do occur: here both fields are objects whose
    [length] is a number above the bound.  With a completion whose [length]
    cannot be compared, the fourth is the entry of the [catch] block. *)
Example four_errors_on_a_line :
  validateJSONL sample_engine two_long_fields_line
  = Returned
      {| isValid := false;
         errors :=
           [u "Line 1: Missing or invalid 'prompt' field";
            u "Line 1: Missing or invalid 'completion' field";
            u "Line 1: Prompt exceeds maximum length of 4096 characters";
            u "Line 1: Completion exceeds maximum length of 4096 characters"];
         totalLines := 1 |}
  /\ validateJSONL sample_engine
       (q "{'prompt':{'length':5000},'completion':{'length':{'toString':0}}}")
     = Returned
         {| isValid := false;
            errors :=
              [u "Line 1: Missing or invalid 'prompt' field";
               u "Line 1: Missing or invalid 'completion' field";
               u "Line 1: Prompt exceeds maximum length of 4096 characters";
               u "Line 1: Invalid JSON format - Cannot convert object to primitive value"];
            totalLines := 1 |}.
Proof. vm_compute. split; reflexivity. Qed.

(** X2: the errors come in line order: entry by entry they carry line
    numbers that never decrease and lie between 1 and totalLines. *)
Theorem errors_in_line_order (e : Engine) (content : text) :
  exists r ns,
    validateJSONL e content = Returned r
    /\ Forall2 (fun n msg => starts_with (tag n) msg = true) ns (errors r)
    /\ StronglySorted le ns
    /\ Forall (fun n => 1 <= n <= totalLines r)%nat ns.
Proof.
  destruct (reports_from_tags e (readline content) 1) as (ns & Htag & Hsort & Hrange).
  eexists. exists ns. split; [apply validateJSONL_spec|].
  cbn [errors totalLines]. split; [exact Htag|]. split; [exact Hsort|].
  eapply List.Forall_impl; [|exact Hrange]. simpl. intros n Hn. lia.
Qed.

(** X3: a line that holds a JSON value other than null and other than an
    object (a number, a string, a boolean, an array) has no fields: it gets
    exactly the two missing-field errors. *)
Theorem primitive_line_two_errors (e : Engine) (content : text) (i : nat)
    (line : text) (parsed : json) :
  nth_error (readline content) i = Some line ->
  parse_text line = Some parsed ->
  match parsed with JNull | JObject _ => False | _ => True end ->
  exists r, validateJSONL e content = Returned r
    /\ errors_of_line (S i) (errors r)
       = [u "Line " ++ dec (S i) ++ u ": Missing or invalid 'prompt' field";
          u "Line " ++ dec (S i) ++ u ": Missing or invalid 'completion' field"].
Proof.
  intros Hi Hp Hshape. eexists. split; [apply validateJSONL_spec|].
  cbn [errors]. change (S i) with (1 + i)%nat.
  rewrite (errors_of_line_reports e _ 1 i line Hi).
  unfold line_report. rewrite Hp.
  destruct parsed; try contradiction; reflexivity.
Qed.

(** A line holding the number 42, after a valid line. *)
Lemma primitive_line_two_errors_witness :
  nth_error (readline (q "{'prompt':'a','completion':'b'}" ++ [10] ++ u "42")) 1
  = Some (u "42")
  /\ parse_text (u "42") = Some (JNumber (u "42"))
  /\ match JNumber (u "42") with JNull | JObject _ => False | _ => True end
  /\ exists r,
       validateJSONL sample_engine
         (q "{'prompt':'a','completion':'b'}" ++ [10] ++ u "42") = Returned r
       /\ errors_of_line 2 (errors r)
          = [u "Line " ++ dec 2 ++ u ": Missing or invalid 'prompt' field";
             u "Line " ++ dec 2 ++ u ": Missing or invalid 'completion' field"].
Proof.
  split; [reflexivity|]. split; [reflexivity|]. split; [exact I|].
  apply (primitive_line_two_errors sample_engine _ 1 (u "42") (JNumber (u "42")));
    [reflexivity | reflexivity | exact I].
Defined.

(** ** The two fine-tune endpoints, by outcome *)




(** A stored upload of one accepted line. *)
Definition valid_upload : upload :=
  {| upload_path := "uploads/1-ok.jsonl"; upload_filename := u "1-ok.jsonl" |}.

Definition valid_body : text := q "{'prompt':'a','completion':'b'}".

Definition valid_world : world :=
  {| files := {[ upload_path valid_upload := valid_body ]}; events := [] |}.

(** The three answers of the upload endpoint: a valid file with the upstream
    resolving, the invalid scenario file, a valid file with the upstream
    rejecting. *)
Example upload_endpoint_statuses :
  List.map (fun o => match o with Returned r => status r | Thrown _ => 0%nat end)
    [fst (upload_handler sample_engine sample_upstream (Some valid_upload)
            None valid_world);
     fst (upload_handler sample_engine sample_upstream (Some scenario_upload)
            None scenario_world);
     fst (upload_handler sample_engine failing_upstream (Some valid_upload)
            None valid_world)]
  = [200; 400; 500]%nat.
Proof. vm_compute. reflexivity. Qed.


(** X7: the create-file call of [POST /api/upload] is made on the stored
    file, with the purpose of the request when that is a non-empty string and
    with [fine-tune] when the request has no purpose or an empty one; the
    purpose is never empty. *)
Theorem upload_purpose_never_empty (e : Engine) (openai : Upstream) (f : upload)
    (req_purpose : option text) (w : world) (path : string) (purpose : text) :
  In (FilesCreate path purpose)
    (events (snd (upload_handler e openai (Some f) req_purpose w))) ->
  ~ In (FilesCreate path purpose) (events w) ->
  purpose <> []
  /\ path = upload_path f
  /\ match req_purpose with
     | Some (c :: given) => purpose = c :: given
     | Some [] | None => purpose = u "fine-tune"
     end.
Proof.
  intros Hin Hnew.
  assert (purpose_or_default req_purpose <> []
          /\ match req_purpose with
             | Some (c :: given) => purpose_or_default req_purpose = c :: given
             | Some [] | None => purpose_or_default req_purpose = u "fine-tune"
             end) as [Hne Hdef].
  { destruct req_purpose as [[|c p]|]; simpl; split; auto; discriminate. }
  unfold upload_handler, try_catch, validateJSONL_at, bind, readFileSync, lift in Hin.
  destruct (files w !! upload_path f) as [content|] eqn:Hf.
  - rewrite (validateJSONL_spec e content) in Hin.
    match type of Hin with
    | context [negb ?b] => destruct b
    end; cbn [negb] in Hin.
    + unfold openai_files_create, bind, readFileSync, modify, lift, log in Hin.
      cbn [files events] in Hin. rewrite Hf in Hin.
      destruct (files_create openai content (purpose_or_default req_purpose));
        unfold unlinkSync, cleanup_if_exists, bind, existsSync, when, unlinkSync, ret in Hin;
        cbn [files events] in Hin; rewrite ?Hf in Hin; cbn [files events snd] in Hin;
        rewrite ?Hf in Hin; cbn [events snd] in Hin;
        (destruct Hin as [Hin|[Hin|Hin]];
          [discriminate | injection Hin as <- <-; auto | contradiction]).
    + unfold unlinkSync in Hin. rewrite Hf in Hin. cbn [events snd] in Hin.
      destruct Hin as [Hin|Hin]; [discriminate | contradiction].
  - unfold cleanup_if_exists, bind, existsSync, when, ret in Hin.
    cbn [files events] in Hin. rewrite Hf in Hin. cbn [events snd] in Hin.
    contradiction.
Qed.

(** An upload with the purpose [assistants]. *)
Lemma upload_purpose_never_empty_witness :
  In (FilesCreate "uploads/1-ok.jsonl" (u "assistants"))
    (events (snd (upload_handler sample_engine sample_upstream (Some valid_upload)
                    (Some (u "assistants")) valid_world)))
  /\ ~ In (FilesCreate "uploads/1-ok.jsonl" (u "assistants")) (events valid_world)
  /\ u "assistants" <> []
  /\ "uploads/1-ok.jsonl"%string = upload_path valid_upload
  /\ u "assistants" = u "assistants".
Proof.
  assert (In (FilesCreate "uploads/1-ok.jsonl" (u "assistants"))
            (events (snd (upload_handler sample_engine sample_upstream
                            (Some valid_upload) (Some (u "assistants")) valid_world))))
    as Hin by (vm_compute; right; left; reflexivity).
  assert (~ In (FilesCreate "uploads/1-ok.jsonl" (u "assistants")) (events valid_world))
    as Hnew by (intros []).
  split; [exact Hin|]. split; [exact Hnew|].
  exact (upload_purpose_never_empty sample_engine sample_upstream valid_upload
           (Some (u "assistants")) valid_world "uploads/1-ok.jsonl" (u "assistants")
           Hin Hnew).
Defined.

(** With an empty purpose, and with none, the call gets [fine-tune]. *)
Example upload_purpose_defaults :
  events (snd (upload_handler sample_engine sample_upstream (Some valid_upload)
                 (Some []) valid_world))
  = [Unlinked "uploads/1-ok.jsonl"; FilesCreate "uploads/1-ok.jsonl" (u "fine-tune")]
  /\ events (snd (upload_handler sample_engine sample_upstream (Some valid_upload)
                    None valid_world))
     = [Unlinked "uploads/1-ok.jsonl"; FilesCreate "uploads/1-ok.jsonl" (u "fine-tune")].
Proof. vm_compute. split; reflexivity. Qed.

(** ** Appending to a log that already has entries *)

(** A log file as the server leaves it: absent, empty, or ending with a
    newline. *)
Definition log_ready (content : option text) : Prop :=
  content = None \/ content = Some [] \/ exists c, content = Some (c ++ [10]).

Lemma split_from_app_newline (a b : text) :
  forall cur, split_from cur (a ++ 10 :: b) = split_from cur a ++ split_from [] b.
Proof.
  induction a as [|c a IH]; intros cur; [reflexivity|].
  cbn [app split_from]. destruct (c =? 10); [rewrite IH; reflexivity | apply IH].
Qed.

Section AppendFacts.

Variable e : Engine.

Lemma map_parse_app (a b : list text) :
  map_parse e (a ++ b)
  = match map_parse e a with
    | Returned va =>
        match map_parse e b with
        | Returned vb => Returned (va ++ vb)
        | Thrown message => Thrown message
        end
    | Thrown message => Thrown message
    end.
Proof.
  induction a as [|line a IH]; simpl.
  - destruct (map_parse e b); reflexivity.
  - destruct (JSON_parse e line); [|reflexivity]. rewrite IH.
    destruct (map_parse e a); [|reflexivity].
    destruct (map_parse e b); reflexivity.
Qed.

Lemma listAll_fst (logPath : string) (w : world) :
  fst (listAll e logPath w)
  = match files w !! logPath with
    | None => Returned []
    | Some content =>
        match map_parse e (List.filter not_blank (split_newline content)) with
        | Returned vs => Returned (rev vs)
        | Thrown message => Thrown message
        end
    end.
Proof.
  destruct (files w !! logPath) as [content|] eqn:E.
  - rewrite (listAll_present e _ _ _ E). reflexivity.
  - rewrite (listAll_absent e _ _ E). reflexivity.
Qed.

(** The lines kept by a listing, before and after one append. *)
Lemma kept_after_append (content : option text) (v : json) :
  log_ready content -> wf_json v = true ->
  List.filter not_blank
    (split_newline (default [] content ++ JSON_stringify v ++ [10]))
  = match content with
    | Some c => List.filter not_blank (split_newline c)
    | None => []
    end ++ [JSON_stringify v].
Proof.
  intros Hready Hwf.
  assert (Forall (fun c => c <> 10) (JSON_stringify v)) as Hnl.
  { pose proof (printable_stringify v Hwf) as Hp. unfold printable in Hp.
    rewrite List.Forall_forall in Hp |- *. intros c Hc ->.
    specialize (Hp _ Hc). lia. }
  assert (List.filter not_blank (split_newline (JSON_stringify v ++ [10]))
          = [JSON_stringify v]) as Hone.
  { unfold split_newline. rewrite (split_from_line _ Hnl [] []).
    cbn [rev app split_from List.filter]. rewrite (stringify_not_blank v Hwf).
    reflexivity. }
  destruct Hready as [-> | [-> | [c ->]]]; cbn [default app]; try exact Hone.
  unfold Datatypes.id. rewrite <- !app_assoc. cbn [app].
  unfold split_newline in *.
  rewrite (split_from_app_newline c (JSON_stringify v ++ [10])).
  rewrite (split_from_app_newline c []), !List.filter_app, Hone.
  cbn [split_from rev List.filter]. change (not_blank []) with false. cbv iota.
  rewrite app_nil_r. reflexivity.
Qed.

Lemma append_entry_listing (logPath : string) (v : json) (w : world) :
  log_ready (files w !! logPath) -> wf_json v = true ->
  let w' := snd (append_entry logPath v w) in
  (forall vs, fst (listAll e logPath w) = Returned vs ->
     fst (listAll e logPath w') = Returned (v :: vs))
  /\ (forall message, fst (listAll e logPath w) = Thrown message ->
        fst (listAll e logPath w') = Thrown message)
  /\ log_ready (files w' !! logPath)
  /\ (forall other, other <> logPath ->
        fst (listAll e other w') = fst (listAll e other w)).
Proof.
  intros Hready Hwf w'.
  assert (files w' !! logPath
          = Some (default [] (files w !! logPath) ++ JSON_stringify v ++ [10])) as Hfile
    by (unfold w', append_entry, appendFileSync; cbn [snd files];
        apply lookup_insert_eq).
  assert (fst (listAll e logPath w')
          = match map_parse e (match files w !! logPath with
                               | Some c => List.filter not_blank (split_newline c)
                               | None => []
                               end) with
            | Returned vs => Returned (v :: rev vs)
            | Thrown message => Thrown message
            end) as Hafter.
  { rewrite listAll_fst, Hfile, (kept_after_append _ v Hready Hwf), map_parse_app.
    destruct (map_parse e _) as [vs|m]; [|reflexivity].
    cbn [map_parse]. unfold JSON_parse. rewrite (parse_stringify v Hwf).
    rewrite rev_app_distr. reflexivity. }
  rewrite Hafter, listAll_fst. repeat split.
  - intros vs. destruct (files w !! logPath) as [c|].
    + destruct (map_parse e _); intros H; [injection H as <-; reflexivity | discriminate].
    + intros H. injection H as <-. reflexivity.
  - intros m. destruct (files w !! logPath) as [c|]; [|discriminate].
    destruct (map_parse e _); intros H; [discriminate | injection H as <-; reflexivity].
  - right. right. rewrite Hfile. exists (default [] (files w !! logPath) ++ JSON_stringify v).
    rewrite <- app_assoc. reflexivity.
  - intros other Hother. rewrite !listAll_fst.
    unfold w', append_entry, appendFileSync. cbn [snd files].
    rewrite lookup_insert_ne by congruence. reflexivity.
Qed.

End AppendFacts.

(** X8: an append never disturbs what is already in the logs.  On a log
    that is absent, empty or ends with a newline, appending an entry makes
    the listing return that entry followed by the entries it returned before;
    a listing that failed before still fails; the log again ends with a
    newline; and the listings of the other logs do not change. *)
Theorem append_keeps_earlier_entries (e : Engine) (logPath : string) (v : json)
    (w : world) :
  log_ready (files w !! logPath) ->
  wf_json v = true ->
  let w' := snd (append_entry logPath v w) in
  (forall vs, fst (listAll e logPath w) = Returned vs ->
     fst (listAll e logPath w') = Returned (v :: vs))
  /\ (forall message, fst (listAll e logPath w) = Thrown message ->
        fst (listAll e logPath w') = Thrown message)
  /\ log_ready (files w' !! logPath)
  /\ (forall other, other <> logPath ->
        fst (listAll e other w') = fst (listAll e other w)).
Proof. apply append_entry_listing. Qed.

(** One more entry on a log of two lines. *)
Lemma append_keeps_earlier_entries_witness :
  let w := {| files := {[ image_edits_log := q "{'n':1}" ++ [10] ++ q "{'n':2}" ++ [10] ]};
              events := [] |} in
  let v := JObject [(u "n", JNumber (u "3"))] in
  log_ready (files w !! image_edits_log)
  /\ wf_json v = true
  /\ let w' := snd (append_entry image_edits_log v w) in
     (forall vs, fst (listAll sample_engine image_edits_log w) = Returned vs ->
        fst (listAll sample_engine image_edits_log w') = Returned (v :: vs))
     /\ (forall message,
           fst (listAll sample_engine image_edits_log w) = Thrown message ->
           fst (listAll sample_engine image_edits_log w') = Thrown message)
     /\ log_ready (files w' !! image_edits_log)
     /\ (forall other, other <> image_edits_log ->
           fst (listAll sample_engine other w') = fst (listAll sample_engine other w)).
Proof.
  intros w v.
  assert (log_ready (files w !! image_edits_log)) as Hready
    by (right; right; exists (q "{'n':1}" ++ [10] ++ q "{'n':2}"); reflexivity).
  split; [exact Hready|]. split; [reflexivity|].
  exact (append_keeps_earlier_entries sample_engine image_edits_log v w Hready eq_refl).
Defined.

(** ** Log entries as objects *)

(** The last binding of a name. *)
Fixpoint last_assoc {B : Type} (name : text) (kvs : list (text * B)) : option B :=
  match kvs with
  | [] => None
  | (k, v) :: kvs' =>
      match last_assoc name kvs' with
      | Some w => Some w
      | None => if text_eqb k name then Some v else None
      end
  end.

Lemma lookup_member_last (name : text) (ms : list (text * json)) :
  lookup_member name ms = last_assoc name ms.
Proof. induction ms as [|[k v] ms IH]; simpl; [|rewrite IH]; reflexivity. Qed.

Lemma text_eqb_eq (a b : text) : text_eqb a b = true <-> a = b.
Proof. unfold text_eqb. destruct (decide (a = b)); split; congruence. Qed.

(** The first binding of a name in an object under construction. *)
Fixpoint obj_get (name : text) (ms : list (text * option json))
  : option (option json) :=
  match ms with
  | [] => None
  | (k, v) :: ms' => if text_eqb k name then Some v else obj_get name ms'
  end.

Lemma set_member_get (k name : text) (v : option json) (ms : list (text * option json)) :
  obj_get name (set_member k v ms)
  = if text_eqb k name then Some v else obj_get name ms.
Proof.
  induction ms as [|[k' v'] ms IH]; simpl; [reflexivity|].
  destruct (text_eqb k' k) eqn:E; simpl.
  - apply text_eqb_eq in E. subst k'.
    destruct (text_eqb k name); reflexivity.
  - destruct (text_eqb k' name) eqn:E'; [|exact IH].
    destruct (text_eqb k name) eqn:E''; [|reflexivity].
    apply text_eqb_eq in E', E''. subst. rewrite (proj2 (text_eqb_eq name name) eq_refl) in E.
    discriminate.
Qed.

Lemma set_member_keys (k : text) (v : option json) (ms : list (text * option json)) :
  forall name, In name (List.map fst (set_member k v ms))
               <-> name = k \/ In name (List.map fst ms).
Proof.
  induction ms as [|[k' v'] ms IH]; intros name; simpl; [intuition congruence|].
  destruct (text_eqb k' k) eqn:E; simpl.
  - apply text_eqb_eq in E. subst. intuition congruence.
  - rewrite IH. intuition congruence.
Qed.

Lemma set_member_NoDup (k : text) (v : option json) (ms : list (text * option json)) :
  List.NoDup (List.map fst ms) -> List.NoDup (List.map fst (set_member k v ms)).
Proof.
  induction ms as [|[k' v'] ms IH]; simpl; intros H.
  - constructor; [intros [] | constructor].
  - inversion H as [|? ? Hnotin Hnd]; subst.
    destruct (text_eqb k' k) eqn:E; simpl.
    + constructor; assumption.
    + constructor; [|auto]. rewrite set_member_keys. intros [->|Hin]; [|contradiction].
      rewrite (proj2 (text_eqb_eq k k) eq_refl) in E. discriminate.
Qed.

Lemma fold_set_member {B : Type} (f : B -> option json) (kvs : list (text * B)) :
  forall ms, List.NoDup (List.map fst ms) ->
    let ms' := fold_left (fun acc kv => set_member (fst kv) (f (snd kv)) acc) kvs ms in
    List.NoDup (List.map fst ms')
    /\ forall name,
         obj_get name ms'
         = match last_assoc name kvs with
           | Some b => Some (f b)
           | None => obj_get name ms
           end.
Proof.
  induction kvs as [|[k b] kvs IH]; intros ms Hnd; cbv zeta; cbn [fold_left fst snd].
  - split; [exact Hnd | reflexivity].
  - destruct (IH (set_member k (f b) ms) (set_member_NoDup k (f b) ms Hnd)) as [H1 H2].
    split; [exact H1|]. intros name. rewrite H2. cbn [last_assoc].
    destruct (last_assoc name kvs); [reflexivity|].
    rewrite set_member_get. destruct (text_eqb k name); reflexivity.
Qed.

Lemma as_json_lookup (ms : list (text * option json)) :
  List.NoDup (List.map fst ms) ->
  exists members,
    as_json ms = JObject members
    /\ List.NoDup (List.map fst members)
    /\ (forall name, In name (List.map fst members) -> In name (List.map fst ms))
    /\ forall name,
         lookup_member name members
         = match obj_get name ms with
           | Some (Some v) => Some v
           | _ => None
           end.
Proof.
  unfold as_json. intros Hnd. eexists. split; [reflexivity|].
  induction ms as [|[k ov] ms IH]; cbn [flat_map fst snd List.map].
  - split; [constructor|]. split; [auto | reflexivity].
  - inversion Hnd as [|? ? Hnotin Hnd']; subst.
    destruct (IH Hnd') as (IH1 & IH2 & IH3).
    assert (forall name, ~ In name (List.map fst ms) ->
              lookup_member name
                (flat_map (fun kv => match snd kv with
                                     | Some v => [(fst kv, v)]
                                     | None => []
                                     end) ms) = None) as Hnone.
    { intros name Hn. rewrite IH3.
      assert (obj_get name ms = None) as ->; [|reflexivity].
      clear -Hn. induction ms as [|[k' v'] ms IHm]; simpl in *; [reflexivity|].
      destruct (text_eqb k' name) eqn:E.
      - apply text_eqb_eq in E. subst. tauto.
      - apply IHm. tauto. }
    destruct ov as [v|]; cbn [app List.map fst].
    + split; [constructor; [intros H; apply Hnotin, IH2, H | exact IH1]|].
      split; [intros name [->|H]; [left; reflexivity | right; apply IH2, H]|].
      intros name. cbn [lookup_member obj_get]. rewrite IH3.
      destruct (text_eqb k name) eqn:E.
      * apply text_eqb_eq in E. subst. rewrite <- IH3, (Hnone _ Hnotin). reflexivity.
      * destruct (obj_get name ms) as [[x|]|]; reflexivity.
    + split; [exact IH1|]. split; [intros name H; right; apply IH2, H|].
      intros name. cbn [obj_get]. rewrite IH3.
      destruct (text_eqb k name) eqn:E; [|reflexivity].
      apply text_eqb_eq in E. subst. rewrite <- IH3. apply Hnone, Hnotin.
Qed.

Lemma object_spread_get (fields : list (text * option json))
    (response : list (text * json)) :
  List.NoDup (List.map fst (object_spread fields response))
  /\ forall name,
       obj_get name (object_spread fields response)
       = match lookup_member name response with
         | Some v => Some (Some v)
         | None => last_assoc name fields
         end.
Proof.
  unfold object_spread.
  destruct (fold_set_member (fun ov : option json => ov) fields [] (List.NoDup_nil _))
    as [Hnd1 Hget1].
  destruct (fold_set_member (fun v : json => Some v) response _ Hnd1) as [Hnd2 Hget2].
  split; [exact Hnd2|]. intros name.
  rewrite (Hget2 name), (Hget1 name), lookup_member_last.
  destruct (last_assoc name response); [reflexivity|].
  destruct (last_assoc name fields); reflexivity.
Qed.

(** X9: the entry [{ ...fields, ...response }] written to a log is an object
    without duplicate names, and reading a name from it gives the response's
    value when the response has that name, and otherwise the field's value
    when the field is defined; so a response that carries a [prompt] or a
    [timestamp] replaces the request's. *)
Theorem log_entry_members (fields : list (text * option json))
    (response : list (text * json)) :
  exists members,
    as_json (object_spread fields response) = JObject members
    /\ List.NoDup (List.map fst members)
    /\ forall name,
         lookup_member name members
         = match lookup_member name response with
           | Some v => Some v
           | None =>
               match last_assoc name fields with
               | Some (Some v) => Some v
               | _ => None
               end
           end.
Proof.
  destruct (object_spread_get fields response) as [Hnd Hget].
  destruct (as_json_lookup _ Hnd) as (members & Heq & Hnd' & _ & Hlook).
  exists members. split; [exact Heq|]. split; [exact Hnd'|].
  intros name. rewrite Hlook, Hget.
  destruct (lookup_member name response); [reflexivity|].
  destruct (last_assoc name fields) as [[v|]|]; reflexivity.
Qed.

Example log_entry_override :
  as_json (object_spread [(u "timestamp", Some (JString (u "t")));
                          (u "prompt", Some (JString (u "a cat")));
                          (u "mask", None)]
             [(u "created", JNumber (u "1")); (u "prompt", JString (u "revised"))])
  = JObject [(u "timestamp", JString (u "t"));
             (u "prompt", JString (u "revised"));
             (u "created", JNumber (u "1"))].
Proof. vm_compute. reflexivity. Qed.

(** ** From a successful image request to the listing *)

Definition wf_optional (ms : list (text * option json)) : Prop :=
  Forall (fun kv => match snd kv with
                    | Some v => wf_json v = true
                    | None => True
                    end) ms.

Lemma set_member_wf (k : text) (v : option json) (ms : list (text * option json)) :
  match v with Some x => wf_json x = true | None => True end ->
  wf_optional ms -> wf_optional (set_member k v ms).
Proof.
  intros Hv. unfold wf_optional.
  induction 1 as [|[k' v'] ms Hk Hms IH]; simpl.
  - constructor; [exact Hv | constructor].
  - destruct (text_eqb k' k); constructor; auto.
Qed.

Lemma object_spread_wf (fields : list (text * option json))
    (response : list (text * json)) :
  wf_optional fields ->
  Forall (fun kv => wf_json (snd kv) = true) response ->
  wf_json (as_json (object_spread fields response)) = true.
Proof.
  intros Hf Hr.
  assert (wf_optional (object_spread fields response)) as Hall.
  { unfold object_spread.
    assert (forall ms, wf_optional ms ->
              wf_optional (fold_left (fun acc kv => set_member (fst kv) (snd kv) acc)
                             fields ms)) as H1.
    { induction Hf as [|[k v] fields Hk Hfs IH]; intros ms Hms; [exact Hms|].
      cbn [fold_left fst snd]. apply IH, set_member_wf; assumption. }
    assert (forall ms, wf_optional ms ->
              wf_optional (fold_left (fun acc kv => set_member (fst kv) (Some (snd kv)) acc)
                             response ms)) as H2.
    { induction Hr as [|[k v] response Hk Hrs IH]; intros ms Hms; [exact Hms|].
      cbn [fold_left fst snd]. apply IH, set_member_wf; assumption. }
    apply H2, H1. constructor. }
  unfold as_json. cbn [wf_json]. apply forallb_forall. intros [k v] Hin.
  apply in_flat_map in Hin. destruct Hin as ([k' ov] & Hin & Hkv).
  unfold wf_optional in Hall. rewrite List.Forall_forall in Hall.
  specialize (Hall _ Hin). cbn [snd fst] in *.
  destruct ov as [x|]; [|contradiction].
  destruct Hkv as [Hkv|[]]. injection Hkv as <- <-. exact Hall.
Qed.

Lemma list_handler_fst (e : Engine) (logPath key failure : string) (w : world) :
  fst (list_handler e logPath key failure w)
  = match fst (listAll e logPath w) with
    | Returned entries => Returned (res_json (BListing (u key) entries))
    | Thrown message =>
        Returned (res_status_json 500 (BErrorDetails (u failure) message))
    end.
Proof.
  unfold list_handler, try_catch, bind.
  destruct (listAll e logPath w) as [[entries|message] w']; reflexivity.
Qed.

(** X10: after a successful [POST /api/generate-image] on a log that is
    absent, empty or ends with a newline, [GET /api/images] returns the new
    entry first, followed by the entries it returned before; the answer of
    the generation request is the upstream response itself. *)
Theorem generate_image_then_list (e : Engine) (openai : Upstream)
    (req_body : list (text * json)) (prompt : json) (response : list (text * json))
    (w : world) (earlier : list json) :
  lookup_member (u "prompt") req_body = Some prompt ->
  truthy e (VData prompt) = true ->
  wf_json prompt = true ->
  images_generate openai (generate_options req_body prompt) = Returned response ->
  Forall (fun kv => wf_json (snd kv) = true) response ->
  log_ready (files w !! image_generations_log) ->
  fst (listAll e image_generations_log w) = Returned earlier ->
  exists w',
    generate_image_handler e openai req_body w
    = (Returned (res_json (BUpstream response)), w')
    /\ fst (images_handler e w')
       = Returned (res_json (BListing (u "images")
                               (imageData openai prompt response :: earlier))).
Proof.
  intros Hp Ht Hwp Hr Hwr Hready Hearlier.
  eexists. split; [apply (generate_image_handler_appends e openai _ _ _ w Hp Ht Hr)|].
  unfold images_handler. rewrite list_handler_fst.
  set (w1 := log (ImagesGenerate (generate_options req_body prompt)) w).
  assert (wf_json (imageData openai prompt response) = true) as Hwf.
  { unfold imageData. apply object_spread_wf; [|exact Hwr].
    repeat constructor. exact Hwp. }
  destruct (append_entry_listing e image_generations_log _ w1 Hready Hwf)
    as (Hlist & _).
  assert (fst (listAll e image_generations_log w1) = Returned earlier) as Hw1
    by (rewrite listAll_fst in Hearlier |- *; exact Hearlier).
  rewrite (Hlist _ Hw1). reflexivity.
Qed.

(** A generation request on a log that holds one entry. *)
Lemma generate_image_then_list_witness :
  let body := [(u "prompt", JString (u "a dog"))] in
  let response := [(u "created", JNumber (u "1730419200"));
                   (u "data", JArray [JObject [(u "url", JString (u "https://x/1.png"))]])] in
  let w := {| files := {[ image_generations_log := q "{'prompt':'a cat'}" ++ [10] ]};
              events := [] |} in
  let earlier := [JObject [(u "prompt", JString (u "a cat"))]] in
  lookup_member (u "prompt") body = Some (JString (u "a dog"))
  /\ truthy sample_engine (VData (JString (u "a dog"))) = true
  /\ wf_json (JString (u "a dog")) = true
  /\ images_generate sample_upstream (generate_options body (JString (u "a dog")))
     = Returned response
  /\ Forall (fun kv => wf_json (snd kv) = true) response
  /\ log_ready (files w !! image_generations_log)
  /\ fst (listAll sample_engine image_generations_log w) = Returned earlier
  /\ exists w',
       generate_image_handler sample_engine sample_upstream body w
       = (Returned (res_json (BUpstream response)), w')
       /\ fst (images_handler sample_engine w')
          = Returned (res_json (BListing (u "images")
                                  (imageData sample_upstream (JString (u "a dog")) response
                                   :: earlier))).
Proof.
  intros body response w earlier.
  assert (log_ready (files w !! image_generations_log)) as Hready
    by (right; right; exists (q "{'prompt':'a cat'}"); reflexivity).
  assert (Forall (fun kv => wf_json (snd kv) = true) response) as Hwr
    by (repeat constructor).
  repeat (split; [first [reflexivity | assumption | (vm_compute; reflexivity)]|]).
  apply (generate_image_then_list sample_engine sample_upstream body
           (JString (u "a dog")) response w earlier);
    first [reflexivity | assumption | (vm_compute; reflexivity)].
Defined.



(** * The text generation endpoints *)

(** What a text generation handler does, in order: the upstream call and the
    calls on the response object. *)
Inductive wire : Type :=
| ChatCreate (options : json)
| SetHeader (name value : text)
| Write (data : text)
| End_
| Send (code : nat) (answer : json).

(** The completion object: the [message.content] of each choice, and
    [usage] when the API gives it. *)
Record completion : Type := {
  choices : list json;
  usage : option json
}.

(** One choice of a stream chunk: [delta] may be missing, and so may its
    [content]. *)
Inductive stream_choice : Type :=
| NoDelta
| Delta (content : option json).

(** The chat API: a call resolves to a completion or rejects; a streaming
    call resolves to the chunks the stream yields and, when the stream
    breaks, the error it throws after them. *)
Record ChatUpstream : Type := {
  chat_create : json -> outcome completion;
  chat_stream : json -> outcome (list (list stream_choice) * option text)
}.

(** [chunk.choices[0]?.delta?.content]. *)
Definition chunk_content (chunk : list stream_choice) : value :=
  match chunk with
  | Delta (Some v) :: _ => VData v
  | _ => VUndefined
  end.

(** A value as a property of an object given to [JSON.stringify]. *)
Definition to_json (x : value) : option json :=
  match x with
  | VUndefined => None
  | VLength n => Some (JNumber (dec n))
  | VData v => Some v
  end.

(** The argument of [openai.chat.completions.create], with the defaults of
    the destructuring. *)
Definition chat_options (req_body : list (text * json)) (prompt : json)
    (stream : bool) : json :=
  JObject
    ([(u "model", with_default req_body "model" (JString (u "gpt-4-o-mini")));
      (u "messages",
       JArray [JObject [(u "role", JString (u "user")); (u "content", prompt)]]);
      (u "temperature", with_default req_body "temperature" (JNumber (u "0.7")));
      (u "presence_penalty",
       with_default req_body "presence_penalty" (JNumber (u "0")));
      (u "max_tokens", with_default req_body "max_tokens" (JNumber (u "150")))]
     ++ if stream then [(u "stream", JBool true)] else []).

Definition prompt_required : json :=
  JObject [(u "error", JString (u "Prompt is required"))].

Definition generation_failed (message : text) : json :=
  JObject [(u "error", JString (u "Failed to generate response"));
           (u "message", JString message)].

Definition done_frame : text := u "data: [DONE]" ++ [10; 10].

(** The message of Node's [ERR_HTTP_HEADERS_SENT]. *)
Definition headers_sent_message : text :=
  u "Cannot set headers after they are sent to the client".

Section TextGeneration.

Variable e : Engine.
Variable chat : ChatUpstream.

Local Open Scope js_scope.

Definition emit (x : wire) : js (list wire) unit := modify (fun ws => ws ++ [x]).

(** The head of the response has gone out: something was written, or the
    response was ended or answered. *)
Definition headers_sent (ws : list wire) : bool :=
  existsb (fun x => match x with
                    | Write _ | End_ | Send _ _ => true
                    | _ => false
                    end) ws.

(** [res.setHeader(name, value)], and [res.status(code).json(answer)], which
    sets the content type before it sends: once the head of the response has
    gone out both throw [ERR_HTTP_HEADERS_SENT]. *)
Definition set_header (name value : text) : js (list wire) unit :=
  fun ws =>
    if headers_sent ws then (Thrown headers_sent_message, ws)
    else emit (SetHeader name value) ws.

Definition send (code : nat) (answer : json) : js (list wire) unit :=
  fun ws =>
    if headers_sent ws then (Thrown headers_sent_message, ws)
    else emit (Send code answer) ws.

(** The body of the [for await] loop of the streaming endpoint. *)
Definition relay_chunk (chunk : list stream_choice) : js (list wire) unit :=
  let content :=
    if truthy e (chunk_content chunk) then chunk_content chunk
    else VData (JString []) in
  if truthy e content then
    emit (Write (u "data: "
                 ++ JSON_stringify (as_json [(u "content", to_json content)])
                 ++ [10; 10]))
  else ret tt.

(** [POST /api/generate/stream].  An exception of the [catch] block leaves
    the handler: the promise it returned rejects. *)
Definition generate_stream_handler (req_body : list (text * json))
  : js (list wire) unit :=
  try_catch
    (match get_property e (VData (JObject req_body)) Prompt with
     | Returned (VData prompt) =>
         if negb (truthy e (VData prompt)) then send 400 prompt_required
         else
           set_header (u "Content-Type") (u "text/event-stream") ;;
           set_header (u "Cache-Control") (u "no-cache") ;;
           set_header (u "Connection") (u "keep-alive") ;;
           emit (ChatCreate (chat_options req_body prompt true)) ;;
           stream <- lift (chat_stream chat (chat_options req_body prompt true)) ;;
           for_of (fst stream) relay_chunk ;;
           match snd stream with
           | Some message => throw message
           | None => ret tt
           end ;;
           emit (Write done_frame) ;;
           emit End_
     | _ => send 400 prompt_required
     end)
    (fun message => send 500 (generation_failed message)).

(** [POST /api/generate]. *)
Definition generate_handler (req_body : list (text * json)) : js (list wire) unit :=
  try_catch
    (match get_property e (VData (JObject req_body)) Prompt with
     | Returned (VData prompt) =>
         if negb (truthy e (VData prompt)) then send 400 prompt_required
         else
           emit (ChatCreate (chat_options req_body prompt false)) ;;
           completion <- lift (chat_create chat (chat_options req_body prompt false)) ;;
           match choices completion with
           | content :: _ =>
               send 200 (as_json [(u "result", Some content);
                                  (u "usage", usage completion)])
           | [] => throw (property_error_message e (u "undefined") (u "message"))
           end
     | _ => send 400 prompt_required
     end)
    (fun message => send 500 (generation_failed message)).

End TextGeneration.

(** A chat upstream that streams the fragments of a greeting. *)
Definition sample_chat : ChatUpstream :=
  {| chat_create := fun _ =>
       Returned {| choices := [JString (u "Hello there")];
                   usage := Some (JObject [(u "total_tokens", JNumber (u "12"))]) |};
     chat_stream := fun _ =>
       Returned ([[Delta (Some (JString []))];
                  [Delta (Some (JString (u "Hel")))];
                  [Delta None];
                  [Delta (Some (JString [108; 111; 10]))];
                  []],
                 None) |}.

Example stream_example :
  snd (generate_stream_handler sample_engine sample_chat
         [(u "prompt", JString (u "hi"))] [])
  = [SetHeader (u "Content-Type") (u "text/event-stream");
     SetHeader (u "Cache-Control") (u "no-cache");
     SetHeader (u "Connection") (u "keep-alive");
     ChatCreate (chat_options [(u "prompt", JString (u "hi"))] (JString (u "hi")) true);
     Write (q "data: {'content':'Hel'}" ++ [10; 10]);
     Write (q "data: {'content':'lo\n'}" ++ [10; 10]);
     Write (u "data: [DONE]" ++ [10; 10]);
     End_].
Proof. vm_compute. reflexivity. Qed.

Example generate_example :
  snd (generate_handler sample_engine sample_chat [(u "prompt", JString (u "hi"))] [])
  = [ChatCreate (chat_options [(u "prompt", JString (u "hi"))] (JString (u "hi")) false);
     Send 200 (JObject [(u "result", JString (u "Hello there"));
                        (u "usage", JObject [(u "total_tokens", JNumber (u "12"))])])].
Proof. vm_compute. reflexivity. Qed.

(** ** What the text generation endpoints put on the wire *)

(** The prompt of a request body, when it is there and truthy. *)
Definition prompt_of (e : Engine) (req_body : list (text * json)) : option json :=
  match lookup_member (u "prompt") req_body with
  | Some prompt => if truthy e (VData prompt) then Some prompt else None
  | None => None
  end.

(** The contents of the chunks that are relayed: the truthy ones. *)
Definition relayed (e : Engine) (chunks : list (list stream_choice)) : list json :=
  flat_map (fun chunk =>
              match chunk_content chunk with
              | VData v => if truthy e (VData v) then [v] else []
              | _ => []
              end) chunks.

Definition data_line (v : json) : text :=
  u "data: " ++ JSON_stringify (JObject [(u "content", v)]).

(** The text written to the response. *)
Definition written (ws : list wire) : text :=
  concat (flat_map (fun x => match x with Write d => [d] | _ => [] end) ws).

Definition stream_headers : list wire :=
  [SetHeader (u "Content-Type") (u "text/event-stream");
   SetHeader (u "Cache-Control") (u "no-cache");
   SetHeader (u "Connection") (u "keep-alive")].

Section WireFacts.

Variable e : Engine.
Variable chat : ChatUpstream.

Lemma relay_loop (chunks : list (list stream_choice)) :
  forall ws,
    for_of chunks (relay_chunk e) ws
    = (Returned tt,
       ws ++ List.map (fun v => Write (data_line v ++ [10; 10])) (relayed e chunks)).
Proof.
  induction chunks as [|chunk chunks IH]; intros ws.
  - simpl. unfold ret. rewrite app_nil_r. reflexivity.
  - cbn [for_of]. unfold bind.
    assert (relay_chunk e chunk ws
            = (Returned tt,
               ws ++ List.map (fun v => Write (data_line v ++ [10; 10]))
                       (relayed e [chunk]))) as ->.
    { unfold relay_chunk, relayed. cbn [flat_map]. rewrite app_nil_r.
      destruct (chunk_content chunk) as [|n|v] eqn:Hc.
      - simpl. unfold ret. rewrite app_nil_r. reflexivity.
      - destruct chunk as [|[|[x|]] chunk]; discriminate.
      - destruct (truthy e (VData v)) eqn:Ht.
        + rewrite Ht. unfold emit, modify, data_line. cbn [List.map to_json].
          rewrite <- app_assoc. reflexivity.
        + simpl. unfold ret. rewrite app_nil_r. reflexivity. }
    rewrite IH. unfold relayed. cbn [flat_map]. rewrite app_nil_r.
    rewrite List.map_app, app_assoc. reflexivity.
Qed.

Lemma prompt_of_get (req_body : list (text * json)) :
  match get_property e (VData (JObject req_body)) Prompt with
  | Returned (VData prompt) =>
      prompt_of e req_body = if truthy e (VData prompt) then Some prompt else None
  | _ => prompt_of e req_body = None
  end.
Proof.
  unfold prompt_of. cbn [get_property]. change (property_name Prompt) with (u "prompt").
  destruct (lookup_member (u "prompt") req_body); reflexivity.
Qed.

Lemma headers_sent_frames (before : list wire) (vs : list json) :
  headers_sent before = false ->
  headers_sent (before ++ List.map (fun v => Write (data_line v ++ [10; 10])) vs)
  = match vs with [] => false | _ => true end.
Proof.
  intros Hb. unfold headers_sent in *. rewrite existsb_app, Hb.
  destruct vs; reflexivity.
Qed.

(** The streaming endpoint, case by case: how the handler ends and what it
    has put on the wire. *)
Lemma generate_stream_wire (req_body : list (text * json)) :
  generate_stream_handler e chat req_body []
  = match prompt_of e req_body with
    | None => (Returned tt, [Send 400 prompt_required])
    | Some prompt =>
        let called := stream_headers ++ [ChatCreate (chat_options req_body prompt true)] in
        match chat_stream chat (chat_options req_body prompt true) with
        | Thrown message =>
            (Returned tt, called ++ [Send 500 (generation_failed message)])
        | Returned (chunks, failure) =>
            let frames :=
              List.map (fun v => Write (data_line v ++ [10; 10])) (relayed e chunks) in
            match failure with
            | None => (Returned tt, called ++ frames ++ [Write done_frame; End_])
            | Some message =>
                match relayed e chunks with
                | [] => (Returned tt, called ++ [Send 500 (generation_failed message)])
                | _ => (Thrown headers_sent_message, called ++ frames)
                end
            end
        end
    end.
Proof.
  unfold generate_stream_handler, try_catch.
  pose proof (prompt_of_get req_body) as Hp.
  destruct (get_property e (VData (JObject req_body)) Prompt) as [[|n|prompt]|m];
    try (rewrite Hp; reflexivity).
  rewrite Hp. destruct (truthy e (VData prompt)); cbn [negb]; [|reflexivity].
  cbv zeta. unfold bind, set_header, emit, modify, lift.
  cbn [headers_sent existsb orb app].
  destruct (chat_stream chat (chat_options req_body prompt true))
    as [[chunks failure]|message]; [|reflexivity].
  cbn [fst snd]. rewrite relay_loop.
  destruct failure as [message|]; unfold throw, ret.
  - unfold send.
    rewrite (headers_sent_frames
               [SetHeader (u "Content-Type") (u "text/event-stream");
                SetHeader (u "Cache-Control") (u "no-cache");
                SetHeader (u "Connection") (u "keep-alive");
                ChatCreate (chat_options req_body prompt true)]
               (relayed e chunks) eq_refl).
    destruct (relayed e chunks); reflexivity.
  - unfold stream_headers. cbn [app]. rewrite <- !app_assoc. reflexivity.
Qed.

(** The wire of the plain endpoint, case by case. *)
Lemma generate_wire (req_body : list (text * json)) :
  generate_handler e chat req_body []
  = (Returned tt,
     match prompt_of e req_body with
     | None => [Send 400 prompt_required]
     | Some prompt =>
         [ChatCreate (chat_options req_body prompt false);
          match chat_create chat (chat_options req_body prompt false) with
          | Thrown message => Send 500 (generation_failed message)
          | Returned completion =>
              match choices completion with
              | content :: _ =>
                  Send 200 (as_json [(u "result", Some content);
                                     (u "usage", usage completion)])
              | [] =>
                  Send 500 (generation_failed
                              (property_error_message e (u "undefined") (u "message")))
              end
          end]
     end).
Proof.
  unfold generate_handler, try_catch.
  pose proof (prompt_of_get req_body) as Hp.
  destruct (get_property e (VData (JObject req_body)) Prompt) as [[|n|prompt]|m];
    try (rewrite Hp; reflexivity).
  rewrite Hp. destruct (truthy e (VData prompt)); cbn [negb]; [|reflexivity].
  unfold bind, send, emit, modify, lift. cbn [app].
  destruct (chat_create chat (chat_options req_body prompt false))
    as [completion|message]; [|reflexivity].
  destruct (choices completion); reflexivity.
Qed.

End WireFacts.

(** X12: a request whose body has no prompt, or a falsy one (an empty
    string, [false], [null]), gets the answer 400 [Prompt is required] from
    the three generation endpoints, and nothing else happens: no upstream
    call, no header, no write, no append. *)
Theorem prompt_is_required (e : Engine) (chat : ChatUpstream) (openai : Upstream)
    (req_body : list (text * json)) (w : world) :
  prompt_of e req_body = None ->
  generate_handler e chat req_body [] = (Returned tt, [Send 400 prompt_required])
  /\ generate_stream_handler e chat req_body []
     = (Returned tt, [Send 400 prompt_required])
  /\ generate_image_handler e openai req_body w
     = (Returned (res_status_json 400 (BError (u "Prompt is required"))), w).
Proof.
  intros Hp. rewrite generate_wire, generate_stream_wire, Hp.
  split; [reflexivity|]. split; [reflexivity|].
  unfold generate_image_handler, try_catch.
  pose proof (prompt_of_get e req_body) as Hg. rewrite Hp in Hg.
  destruct (get_property e (VData (JObject req_body)) Prompt) as [[|n|prompt]|m];
    try reflexivity.
  destruct (truthy e (VData prompt)); [discriminate | reflexivity].
Qed.

(** A body whose prompt is the empty string. *)
Lemma prompt_is_required_witness :
  let body := [(u "prompt", JString []); (u "model", JString (u "gpt-4"))] in
  let w := {| files := ∅; events := [] |} in
  prompt_of sample_engine body = None
  /\ generate_handler sample_engine sample_chat body []
     = (Returned tt, [Send 400 prompt_required])
  /\ generate_stream_handler sample_engine sample_chat body []
     = (Returned tt, [Send 400 prompt_required])
  /\ generate_image_handler sample_engine sample_upstream body w
     = (Returned (res_status_json 400 (BError (u "Prompt is required"))), w).
Proof.
  intros body w. split; [reflexivity|].
  apply (prompt_is_required sample_engine sample_chat sample_upstream body w).
  reflexivity.
Defined.

(** ** Reading the stream back *)

Lemma data_line_no_newline (v : json) :
  wf_json v = true -> Forall (fun c => c <> 10) (data_line v).
Proof.
  intros Hwf. unfold data_line. apply Forall_app. split.
  - repeat constructor; discriminate.
  - assert (wf_json (JObject [(u "content", v)]) = true) as Hw
      by (simpl; rewrite Hwf; reflexivity).
    pose proof (printable_stringify _ Hw) as Hp. unfold printable in Hp.
    rewrite List.Forall_forall in Hp |- *. intros c Hc ->.
    specialize (Hp _ Hc). lia.
Qed.

Lemma data_line_not_blank (v : json) : not_blank (data_line v) = true.
Proof.
  unfold not_blank. destruct (trim (data_line v)) eqn:E; [|reflexivity].
  apply trim_nil_spaces in E. discriminate E.
Qed.

Lemma split_frames (vs : list json) (rest : text) :
  Forall (fun v => wf_json v = true) vs ->
  List.filter not_blank
    (split_newline (concat (List.map (fun v => data_line v ++ [10; 10]) vs) ++ rest))
  = List.map data_line vs ++ List.filter not_blank (split_newline rest).
Proof.
  unfold split_newline. induction 1 as [|v vs Hv Hvs IH]; [reflexivity|].
  cbn [List.map concat]. rewrite <- !app_assoc. cbn [app].
  rewrite (split_from_line _ (data_line_no_newline v Hv)).
  cbn [rev app split_from]. simpl (10 =? 10). cbv iota.
  cbn [List.filter rev]. rewrite data_line_not_blank.
  change (not_blank []) with false. cbv iota. rewrite IH. reflexivity.
Qed.

Lemma relayed_wf (e : Engine) (chunks : list (list stream_choice)) :
  Forall (fun chunk => match chunk_content chunk with
                       | VData v => wf_json v = true
                       | _ => True
                       end) chunks ->
  Forall (fun v => wf_json v = true) (relayed e chunks).
Proof.
  unfold relayed. induction 1 as [|chunk chunks Hc Hcs IH]; [constructor|].
  cbn [flat_map]. apply Forall_app. split; [|exact IH].
  destruct (chunk_content chunk) as [|n|v]; try constructor.
  destruct (truthy e (VData v)); repeat constructor. exact Hc.
Qed.

Lemma written_frames (vs : list json) (tail : list wire) :
  written (List.map (fun v => Write (data_line v ++ [10; 10])) vs ++ tail)
  = concat (List.map (fun v => data_line v ++ [10; 10]) vs) ++ written tail.
Proof.
  unfold written. rewrite flat_map_app, concat_app. f_equal.
  induction vs as [|v vs IH]; [reflexivity|].
  cbn [List.map flat_map app concat]. rewrite IH. reflexivity.
Qed.

(** X13: when the upstream stream completes, the text written by
    [POST /api/generate/stream] can be read back: cut at the newlines and
    with the empty lines dropped, it is one [data: ] line per relayed
    fragment, in order, each holding a JSON text that parses to
    [{content: fragment}], followed by the line [data: [DONE]], which is not
    JSON.  The relayed fragments are the truthy contents of the chunks. *)
Theorem stream_reads_back (e : Engine) (chat : ChatUpstream)
    (req_body : list (text * json)) (prompt : json)
    (chunks : list (list stream_choice)) :
  prompt_of e req_body = Some prompt ->
  chat_stream chat (chat_options req_body prompt true) = Returned (chunks, None) ->
  Forall (fun chunk => match chunk_content chunk with
                       | VData v => wf_json v = true
                       | _ => True
                       end) chunks ->
  exists ws,
    generate_stream_handler e chat req_body [] = (Returned tt, ws)
    /\ let lines := List.filter not_blank (split_newline (written ws)) in
       Forall (fun line => starts_with (u "data: ") line = true) lines
       /\ List.map (fun line => parse_text (skipn 6 line)) lines
          = List.map (fun v => Some (JObject [(u "content", v)])) (relayed e chunks)
            ++ [None].
Proof.
  intros Hp Hs Hwf. rewrite generate_stream_wire, Hp, Hs. cbv zeta.
  eexists. split; [reflexivity|]. cbv zeta.
  assert (written ((stream_headers ++ [ChatCreate (chat_options req_body prompt true)])
                   ++ List.map (fun v => Write (data_line v ++ [10; 10])) (relayed e chunks)
                   ++ [Write done_frame; End_])
          = concat (List.map (fun v => data_line v ++ [10; 10]) (relayed e chunks))
            ++ done_frame) as ->.
  { change (written ((stream_headers ++ [ChatCreate ?o]) ++ ?b)) with (written b).
    rewrite written_frames. f_equal. }
  pose proof (relayed_wf e chunks Hwf) as Hr.
  rewrite (split_frames _ done_frame Hr).
  change (List.filter not_blank (split_newline done_frame)) with [u "data: [DONE]"].
  split.
  - apply Forall_app. split; [|repeat constructor].
    rewrite List.Forall_forall. intros line Hin.
    apply in_map_iff in Hin. destruct Hin as (v & <- & _). reflexivity.
  - rewrite List.map_app, List.map_map. f_equal.
    apply map_ext_in. intros v Hv. rewrite List.Forall_forall in Hr.
    change (skipn 6 (data_line v)) with (JSON_stringify (JObject [(u "content", v)])).
    apply parse_stringify. simpl. rewrite (Hr _ Hv). reflexivity.
Qed.

(** The sample stream, whose fragments are [Hel] and [lo] with a newline. *)
Lemma stream_reads_back_witness :
  let body := [(u "prompt", JString (u "hi"))] in
  let chunks := [[Delta (Some (JString []))];
                 [Delta (Some (JString (u "Hel")))];
                 [Delta None];
                 [Delta (Some (JString [108; 111; 10]))];
                 []] in
  prompt_of sample_engine body = Some (JString (u "hi"))
  /\ chat_stream sample_chat (chat_options body (JString (u "hi")) true)
     = Returned (chunks, None)
  /\ Forall (fun chunk => match chunk_content chunk with
                          | VData v => wf_json v = true
                          | _ => True
                          end) chunks
  /\ exists ws,
       generate_stream_handler sample_engine sample_chat body [] = (Returned tt, ws)
       /\ let lines := List.filter not_blank (split_newline (written ws)) in
          Forall (fun line => starts_with (u "data: ") line = true) lines
          /\ List.map (fun line => parse_text (skipn 6 line)) lines
             = List.map (fun v => Some (JObject [(u "content", v)]))
                 (relayed sample_engine chunks)
               ++ [None].
Proof.
  intros body chunks.
  assert (Forall (fun chunk => match chunk_content chunk with
                               | VData v => wf_json v = true
                               | _ => True
                               end) chunks) as Hwf
    by (repeat constructor).
  split; [reflexivity|]. split; [reflexivity|]. split; [exact Hwf|].
  apply (stream_reads_back sample_engine sample_chat body (JString (u "hi")) chunks);
    [reflexivity | reflexivity | exact Hwf].
Defined.

(** ** The end of a stream *)








(** A stream that breaks after its first fragment: the fragment is on the
    wire, the handler throws, and no answer is sent. *)
Example broken_stream :
  generate_stream_handler sample_engine
    {| chat_create := fun _ => Thrown (u "unused");
       chat_stream := fun _ =>
         Returned ([[Delta (Some (JString (u "Hel")))]], Some (u "Connection error.")) |}
    [(u "prompt", JString (u "hi"))] []
  = (Thrown headers_sent_message,
     [SetHeader (u "Content-Type") (u "text/event-stream");
      SetHeader (u "Cache-Control") (u "no-cache");
      SetHeader (u "Connection") (u "keep-alive");
      ChatCreate (chat_options [(u "prompt", JString (u "hi"))] (JString (u "hi")) true);
      Write (q "data: {'content':'Hel'}" ++ [10; 10])]).
Proof. vm_compute. reflexivity. Qed.

(** X15: [POST /api/generate] sends exactly one answer, after at most one
    upstream call: 200 with the content of the first choice and the usage
    when the prompt is there and the call resolves with a choice, 400 exactly
    when the prompt is missing or falsy, and 500 otherwise (the call rejects,
    or resolves with no choice). *)
Theorem generate_sends_one_answer (e : Engine) (chat : ChatUpstream)
    (req_body : list (text * json)) :
  exists ws code answer,
    generate_handler e chat req_body [] = (Returned tt, ws)
    /\ (ws = [Send code answer]
        \/ exists options, ws = [ChatCreate options; Send code answer])
    /\ (code = 400%nat <-> prompt_of e req_body = None)
    /\ (code = 200%nat
        <-> exists prompt completion content rest,
              prompt_of e req_body = Some prompt
              /\ chat_create chat (chat_options req_body prompt false)
                 = Returned completion
              /\ choices completion = content :: rest
              /\ answer = as_json [(u "result", Some content);
                                   (u "usage", usage completion)])
    /\ (code = 200%nat \/ code = 400%nat \/ code = 500%nat).
Proof.
  rewrite generate_wire.
  destruct (prompt_of e req_body) as [prompt|].
  - destruct (chat_create chat (chat_options req_body prompt false))
      as [completion|message] eqn:Ec.
    + destruct (choices completion) as [|content rest] eqn:Eh.
      * eexists. exists 500%nat. eexists. split; [reflexivity|].
        split; [right; eexists; reflexivity|].
        split; [split; discriminate|].
        split; [|right; right; reflexivity].
        split; [discriminate|].
        intros (p & c & x & r & [= <-] & Hc & Hx & _).
        rewrite Ec in Hc. injection Hc as <-. rewrite Eh in Hx. discriminate Hx.
      * eexists. exists 200%nat. eexists. split; [reflexivity|].
        split; [right; eexists; reflexivity|].
        split; [split; discriminate|].
        split; [|left; reflexivity].
        split; [|reflexivity].
        intros _. exists prompt, completion, content, rest.
        repeat split; assumption.
    + eexists. exists 500%nat. eexists. split; [reflexivity|].
      split; [right; eexists; reflexivity|].
      split; [split; discriminate|].
      split; [|right; right; reflexivity].
      split; [discriminate|].
      intros (p & c & x & r & [= <-] & Hc & _). rewrite Ec in Hc. discriminate Hc.
  - eexists. exists 400%nat. eexists. split; [reflexivity|].
    split; [left; reflexivity|].
    split; [split; reflexivity|].
    split; [|right; left; reflexivity].
    split; [discriminate|].
    intros (p & c & x & r & Hp & _). discriminate Hp.
Qed.

(** * The file preview of the client

    [FilePreview.tsx]: what the component does with the text of the chosen
    file once the reader has loaded it.  The calls of the state setters are
    the writes of the record [component]; the local array [preview] is a
    field of it. *)

Module FilePreview.

Record PreviewData : Type := {
  prompt : value;
  completion : value;
  lineNumber : nat;
  raw : text
}.

Record component : Type := {
  previewData : list PreviewData;
  filteredData : list PreviewData;
  totalLines : nat;
  isLoading : bool;
  error : option text;
  rawContent : text;
  editedContent : text;
  previousContent : text;
  preview : list PreviewData
}.

Definition setPreviewData (v : list PreviewData) (s : component) : component :=
  {| previewData := v; filteredData := filteredData s; totalLines := totalLines s;
     isLoading := isLoading s; error := error s; rawContent := rawContent s;
     editedContent := editedContent s; previousContent := previousContent s;
     preview := preview s |}.

Definition setFilteredData (v : list PreviewData) (s : component) : component :=
  {| previewData := previewData s; filteredData := v; totalLines := totalLines s;
     isLoading := isLoading s; error := error s; rawContent := rawContent s;
     editedContent := editedContent s; previousContent := previousContent s;
     preview := preview s |}.

Definition setTotalLines (v : nat) (s : component) : component :=
  {| previewData := previewData s; filteredData := filteredData s; totalLines := v;
     isLoading := isLoading s; error := error s; rawContent := rawContent s;
     editedContent := editedContent s; previousContent := previousContent s;
     preview := preview s |}.

Definition setIsLoading (v : bool) (s : component) : component :=
  {| previewData := previewData s; filteredData := filteredData s;
     totalLines := totalLines s; isLoading := v; error := error s;
     rawContent := rawContent s; editedContent := editedContent s;
     previousContent := previousContent s; preview := preview s |}.

Definition setError (v : option text) (s : component) : component :=
  {| previewData := previewData s; filteredData := filteredData s;
     totalLines := totalLines s; isLoading := isLoading s; error := v;
     rawContent := rawContent s; editedContent := editedContent s;
     previousContent := previousContent s; preview := preview s |}.

Definition setRawContent (v : text) (s : component) : component :=
  {| previewData := previewData s; filteredData := filteredData s;
     totalLines := totalLines s; isLoading := isLoading s; error := error s;
     rawContent := v; editedContent := editedContent s;
     previousContent := previousContent s; preview := preview s |}.

Definition setEditedContent (v : text) (s : component) : component :=
  {| previewData := previewData s; filteredData := filteredData s;
     totalLines := totalLines s; isLoading := isLoading s; error := error s;
     rawContent := rawContent s; editedContent := v;
     previousContent := previousContent s; preview := preview s |}.

Definition setPreviousContent (v : text) (s : component) : component :=
  {| previewData := previewData s; filteredData := filteredData s;
     totalLines := totalLines s; isLoading := isLoading s; error := error s;
     rawContent := rawContent s; editedContent := editedContent s;
     previousContent := v; preview := preview s |}.

Definition set_preview (v : list PreviewData) (s : component) : component :=
  {| previewData := previewData s; filteredData := filteredData s;
     totalLines := totalLines s; isLoading := isLoading s; error := error s;
     rawContent := rawContent s; editedContent := editedContent s;
     previousContent := previousContent s; preview := v |}.

(** The text shown for a line that could not be read. *)
Definition invalid : value := VData (JString (u "Invalid JSON")).

Section Reader.

Variable e : Engine.

Local Open Scope js_scope.

(** [preview.push(row)]. *)
Definition push (row : PreviewData) : js component unit :=
  modify (fun s => set_preview (preview s ++ [row]) s).

(** The body of the [for] loop at index [i]. *)
Definition loop_body (lines : list text) (i : nat) : js component unit :=
  try_catch
    (parsed <- lift (JSON_parse e (nth i lines [])) ;;
     p <- lift (get_property e (VData parsed) Prompt) ;;
     c <- lift (get_property e (VData parsed) Completion) ;;
     push {| prompt := p; completion := c;
             lineNumber := i + 1; raw := nth i lines [] |})
    (fun _ =>
       push {| prompt := invalid; completion := invalid;
               lineNumber := i + 1; raw := nth i lines [] |}).

(** [readFileContent] when the reader loads [content]: the two writes
    before the read, the [onload] callback with its [try], [catch] and
    [finally]. *)
Definition readFileContent (content : text) (displayLines : nat)
  : js component unit :=
  modify (setIsLoading true) ;;
  modify (setError None) ;;
  modify (set_preview []) ;;
  try_catch
    (modify (setRawContent content) ;;
     modify (setEditedContent content) ;;
     modify (setPreviousContent content) ;;
     let lines := List.filter not_blank (split_newline content) in
     modify (setTotalLines (length lines)) ;;
     for_of (seq 0 (Nat.min (length lines) displayLines)) (loop_body lines) ;;
     s <- get_state ;;
     modify (setPreviewData (preview s)) ;;
     modify (setFilteredData (preview s)))
    (fun _ => modify (setError (Some (u "Failed to parse file content")))) ;;
  modify (setIsLoading false).

(** The object of a row of the CSV and of the Excel export:
    [const { prompt, completion } = JSON.parse(line)] under [try]. *)
Definition export_row (line : text) : value * value :=
  match JSON_parse e line with
  | Returned parsed =>
      match get_property e (VData parsed) Prompt,
            get_property e (VData parsed) Completion with
      | Returned p, Returned c => (p, c)
      | _, _ => (invalid, invalid)
      end
  | Thrown _ => (invalid, invalid)
  end.

(** message of the TypeError for calling a property that is not a function *)
Variable not_a_function : text.

(** [x.substring(0, n)]: only a string has the method. *)
Definition substring (x : value) (n : nat) : outcome text :=
  match x with
  | VData (JString s) => Returned (firstn n s)
  | VUndefined => Thrown (property_error_message e (u "undefined") (u "substring"))
  | VData JNull => Thrown (property_error_message e (u "null") (u "substring"))
  | _ => Thrown not_a_function
  end.

(** The expression of a table cell:
    [x.length > 100 ? `${x.substring(0, 100)}...` : x]. *)
Definition cell (x : value) : outcome value :=
  match get_property e x Length with
  | Thrown message => Thrown message
  | Returned l =>
      match greater e l 100 with
      | Thrown message => Thrown message
      | Returned true =>
          match substring x 100 with
          | Returned s => Returned (VData (JString (s ++ u "...")))
          | Thrown message => Thrown message
          end
      | Returned false => Returned x
      end
  end.

End Reader.

Inductive ExportFormat : Type := jsonl | csv | excel | txt.

(** [name.split('.')[0]]. *)
Fixpoint before_dot (name : text) : text :=
  match name with
  | [] => []
  | c :: name' => if c =? 46 then [] else c :: before_dot name'
  end.

(** What is handed to [Blob]: the content with its type, or the rows given to
    [Papa.unparse] and to [XLSX.utils.json_to_sheet]. *)
Inductive blob : Type :=
| Content (content type : text)
| CsvRows (rows : list (value * value))
| SheetRows (rows : list (value * value)).

(** [handleExport]: the name and the content of the download. *)
Definition handleExport (e : Engine) (s : component) (name : text)
    (format : ExportFormat) : text * blob :=
  let content := match editedContent s with
                 | [] => rawContent s
                 | _ => editedContent s
                 end in
  let filename := u "edited_" ++ before_dot name in
  match format with
  | jsonl => (filename ++ u ".jsonl", Content content (u "application/jsonl"))
  | csv =>
      (filename ++ u ".csv",
       CsvRows (List.map (export_row e)
                  (List.filter not_blank (split_newline content))))
  | excel =>
      (filename ++ u ".xlsx",
       SheetRows (List.map (export_row e)
                    (List.filter not_blank (split_newline content))))
  | txt => (filename ++ u ".txt", Content content (u "text/plain"))
  end.

Definition initial : component :=
  {| previewData := []; filteredData := []; totalLines := 0; isLoading := false;
     error := None; rawContent := []; editedContent := []; previousContent := [];
     preview := [] |}.

End FilePreview.

Example preview_example :
  FilePreview.previewData
    (snd (FilePreview.readFileContent sample_engine
            (q "{'prompt':'a','completion':'b'}" ++ [10; 10]
             ++ q "{'prompt':1}" ++ [10] ++ u "null" ++ [10] ++ u "oops")
            3 FilePreview.initial))
  = [ {| FilePreview.prompt := VData (JString (u "a"));
         FilePreview.completion := VData (JString (u "b"));
         FilePreview.lineNumber := 1;
         FilePreview.raw := q "{'prompt':'a','completion':'b'}" |};
      {| FilePreview.prompt := VData (JNumber (u "1"));
         FilePreview.completion := VUndefined;
         FilePreview.lineNumber := 2;
         FilePreview.raw := q "{'prompt':1}" |};
      {| FilePreview.prompt := FilePreview.invalid;
         FilePreview.completion := FilePreview.invalid;
         FilePreview.lineNumber := 3;
         FilePreview.raw := u "null" |} ].
Proof. vm_compute. reflexivity. Qed.

(** ** The rows of the preview *)

(** What the loop pushes for a line at index [i]. *)
Definition shown_row (i : nat) (line : text) : FilePreview.PreviewData :=
  match parse_text line with
  | None | Some JNull =>
      {| FilePreview.prompt := FilePreview.invalid;
         FilePreview.completion := FilePreview.invalid;
         FilePreview.lineNumber := i + 1;
         FilePreview.raw := line |}
  | Some parsed =>
      {| FilePreview.prompt := field parsed Prompt;
         FilePreview.completion := field parsed Completion;
         FilePreview.lineNumber := i + 1;
         FilePreview.raw := line |}
  end.

(** The lines the client sees in a text. *)
Definition client_lines (content : text) : list text :=
  List.filter not_blank (split_newline content).

Section PreviewFacts.

Variable e : Engine.

Lemma preview_loop_body (lines : list text) (i : nat) (s : FilePreview.component) :
  FilePreview.loop_body e lines i s
  = (Returned tt,
     FilePreview.set_preview
       (FilePreview.preview s ++ [shown_row i (nth i lines [])]) s).
Proof.
  unfold FilePreview.loop_body, try_catch, bind, lift, JSON_parse, shown_row,
    FilePreview.push, modify.
  destruct (parse_text (nth i lines [])) as [parsed|]; [|reflexivity].
  destruct parsed as [ | b | lit | str | elems | members]; try reflexivity.
  cbn [get_property field property_name].
  destruct (lookup_member (u "prompt") members);
    destruct (lookup_member (u "completion") members); reflexivity.
Qed.

Lemma preview_loop (lines : list text) (items : list nat) :
  forall s,
    for_of items (FilePreview.loop_body e lines) s
    = (Returned tt,
       FilePreview.set_preview
         (FilePreview.preview s
          ++ List.map (fun i => shown_row i (nth i lines [])) items) s).
Proof.
  induction items as [|i items IH]; intros s.
  - cbn [for_of List.map]. rewrite app_nil_r. destruct s; reflexivity.
  - cbn [for_of List.map]. unfold bind at 1. rewrite preview_loop_body, IH.
    destruct s. unfold FilePreview.set_preview. cbn. rewrite <- app_assoc.
    reflexivity.
Qed.

Lemma readFileContent_spec (content : text) (displayLines : nat)
    (s : FilePreview.component) :
  let lines := client_lines content in
  let rows := List.map (fun i => shown_row i (nth i lines []))
                (seq 0 (Nat.min (length lines) displayLines)) in
  FilePreview.readFileContent e content displayLines s
  = (Returned tt,
     {| FilePreview.previewData := rows;
        FilePreview.filteredData := rows;
        FilePreview.totalLines := length lines;
        FilePreview.isLoading := false;
        FilePreview.error := None;
        FilePreview.rawContent := content;
        FilePreview.editedContent := content;
        FilePreview.previousContent := content;
        FilePreview.preview := rows |}).
Proof.
  intros lines rows.
  unfold FilePreview.readFileContent, try_catch, bind, modify, get_state.
  rewrite preview_loop. destruct s. reflexivity.
Qed.

End PreviewFacts.

Lemma firstn_succ_nth {A} (d : A) (l : list A) :
  forall m, (m < length l)%nat -> firstn (S m) l = firstn m l ++ [nth m l d].
Proof.
  induction l as [|x l IH]; intros m Hm; [simpl in Hm; lia|].
  destruct m as [|m]; [reflexivity|].
  simpl in Hm. change (firstn (S (S m)) (x :: l)) with (x :: firstn (S m) l).
  rewrite IH by lia. reflexivity.
Qed.

Lemma map_nth_seq {A} (d : A) (l : list A) (m : nat) :
  (m <= length l)%nat ->
  List.map (fun i => nth i l d) (seq 0 m) = firstn m l.
Proof.
  induction m as [|m IH]; intros Hm; [reflexivity|].
  rewrite seq_S, List.map_app, IH by lia. cbn [List.map Nat.add].
  symmetry. apply firstn_succ_nth. lia.
Qed.

Lemma firstn_min_length {A} (l : list A) (n : nat) :
  firstn (Nat.min (length l) n) l = firstn n l.
Proof.
  destruct (Nat.le_ge_cases n (length l)) as [H|H].
  - rewrite Nat.min_r by exact H. reflexivity.
  - rewrite Nat.min_l by exact H. rewrite firstn_all, firstn_all2 by exact H.
    reflexivity.
Qed.

Lemma shown_row_raw (i : nat) (line : text) :
  FilePreview.raw (shown_row i line) = line.
Proof.
  unfold shown_row. destruct (parse_text line) as [[]|]; reflexivity.
Qed.

Lemma shown_row_lineNumber (i : nat) (line : text) :
  FilePreview.lineNumber (shown_row i line) = S i.
Proof.
  unfold shown_row.
  destruct (parse_text line) as [[]|]; cbn [FilePreview.lineNumber]; lia.
Qed.

(** What a row holds, by what its line parses to. *)
Definition row_reads_line (row : FilePreview.PreviewData) : Prop :=
  match parse_text (FilePreview.raw row) with
  | None | Some JNull =>
      FilePreview.prompt row = FilePreview.invalid
      /\ FilePreview.completion row = FilePreview.invalid
  | Some parsed =>
      FilePreview.prompt row = field parsed Prompt
      /\ FilePreview.completion row = field parsed Completion
  end.

Lemma shown_row_reads_line (i : nat) (line : text) : row_reads_line (shown_row i line).
Proof.
  unfold row_reads_line. rewrite shown_row_raw. unfold shown_row.
  destruct (parse_text line) as [[]|]; split; reflexivity.
Qed.

Lemma preview_rows_read_lines (e : Engine) (content : text) (displayLines : nat)
    (s : FilePreview.component) :
  Forall row_reads_line
    (FilePreview.previewData
       (snd (FilePreview.readFileContent e content displayLines s))).
Proof.
  rewrite readFileContent_spec. cbn [snd FilePreview.previewData].
  apply List.Forall_forall. intros row Hin. apply in_map_iff in Hin.
  destruct Hin as (i & <- & _). apply shown_row_reads_line.
Qed.

(** X16: once the reader has loaded a text, [readFileContent] leaves the
    component with no error and not loading, whatever the text: the [catch]
    that sets [Failed to parse file content] is never taken.  [totalLines] is
    the number of non-blank segments between line feeds; the table holds the
    first [displayLines] of them, each as [raw], numbered 1, 2, ... by their
    rank among the non-blank segments; a row whose line is not JSON, or is
    [null], shows [Invalid JSON] twice, any other row shows the [prompt] and
    [completion] members of the parsed line. *)
Theorem preview_rows (e : Engine) (content : text) (displayLines : nat)
    (s : FilePreview.component) :
  exists s',
    FilePreview.readFileContent e content displayLines s = (Returned tt, s')
    /\ FilePreview.error s' = None
    /\ FilePreview.isLoading s' = false
    /\ FilePreview.totalLines s' = length (client_lines content)
    /\ FilePreview.filteredData s' = FilePreview.previewData s'
    /\ List.map FilePreview.raw (FilePreview.previewData s')
       = firstn displayLines (client_lines content)
    /\ List.map FilePreview.lineNumber (FilePreview.previewData s')
       = seq 1 (Nat.min (length (client_lines content)) displayLines)
    /\ Forall row_reads_line (FilePreview.previewData s').
Proof.
  eexists. split; [apply readFileContent_spec|].
  cbn [FilePreview.error FilePreview.isLoading FilePreview.totalLines
       FilePreview.filteredData FilePreview.previewData].
  repeat split.
  - rewrite List.map_map.
    rewrite (map_ext _ (fun i => nth i (client_lines content) []))
      by (intros i; apply shown_row_raw).
    rewrite map_nth_seq by apply Nat.le_min_l. apply firstn_min_length.
  - rewrite List.map_map.
    rewrite (map_ext _ S) by (intros i; apply shown_row_lineNumber).
    apply seq_shift.
  - pose proof (preview_rows_read_lines e content displayLines s) as H.
    rewrite readFileContent_spec in H. exact H.
Qed.

(** A line that is not JSON and a line that spells the text out give the
    same cells. *)
Example invalid_rows_look_alike :
  List.map (fun row => (FilePreview.prompt row, FilePreview.completion row))
    (FilePreview.previewData
       (snd (FilePreview.readFileContent sample_engine
               (u "oops" ++ [10]
                ++ q "{'prompt':'Invalid JSON','completion':'Invalid JSON'}")
               5 FilePreview.initial)))
  = [(FilePreview.invalid, FilePreview.invalid);
     (FilePreview.invalid, FilePreview.invalid)].
Proof. vm_compute. reflexivity. Qed.

(** ** The client's line count and the server's *)

Lemma filter_cons_length {A} (f : A -> bool) (x : A) (l : list A) :
  (length (List.filter f (x :: l)) <= 1 + length (List.filter f l))%nat.
Proof. cbn [List.filter]. destruct (f x); simpl; lia. Qed.

Lemma client_lines_from (n : nat) :
  forall (t cs cr : text) (k : nat),
    (length t <= n)%nat ->
    (not_blank (rev cs) = true -> cr <> [] \/ (1 <= k)%nat) ->
    (length (List.filter not_blank (split_from cs t))
     <= k + length (readline_from cr t))%nat.
Proof.
  induction n as [|n IH]; intros t cs cr k Hlen Hcs.
  - destruct t; [|simpl in Hlen; lia].
    cbn [split_from readline_from List.filter].
    destruct (not_blank (rev cs)); [|simpl; lia].
    destruct (Hcs eq_refl) as [H|H]; [destruct cr; [congruence|simpl; lia]|].
    simpl. lia.
  - destruct t as [|c t].
    { cbn [split_from readline_from List.filter].
      destruct (not_blank (rev cs)); [|simpl; lia].
      destruct (Hcs eq_refl) as [H|H]; [destruct cr; [congruence|simpl; lia]|].
      simpl. lia. }
    simpl in Hlen. cbn [split_from readline_from].
    assert (forall t', (length t' <= n)%nat ->
              (length (List.filter not_blank (split_from [] t'))
               <= length (readline_from [] t'))%nat) as Hfresh.
    { intros t' Ht'. apply (IH t' [] [] 0%nat Ht'). intros H. discriminate H. }
    destruct (c =? 10) eqn:E10.
    + pose proof (filter_cons_length not_blank (rev cs) (split_from [] t)).
      pose proof (Hfresh t ltac:(lia)). cbn [length]. lia.
    + destruct (c =? 13).
      * destruct t as [|d t'].
        -- cbn [split_from List.filter length].
           destruct (not_blank (rev (c :: cs))); simpl; lia.
        -- destruct (d =? 10) eqn:Ed.
           ++ cbn [split_from]. rewrite Ed. simpl in Hlen.
              pose proof (filter_cons_length not_blank (rev (c :: cs))
                            (split_from [] t')).
              pose proof (Hfresh t' ltac:(lia)). cbn [length]. lia.
           ++ cbn [length].
              pose proof (IH (d :: t') (c :: cs) [] (S k) ltac:(lia)
                            ltac:(right; lia)). lia.
      * apply IH; [lia|]. intros _. left. discriminate.
Qed.

Lemma client_lines_le_readline (content : text) :
  (length (client_lines content) <= length (readline content))%nat.
Proof.
  unfold client_lines, split_newline, readline.
  apply (client_lines_from (length content) content [] [] 0%nat); [lia|].
  intros H. discriminate H.
Qed.

(** X17: on the same text, the [totalLines] of the preview is never more
    than the [totalLines] the server's validator returns: the client counts
    the non-blank segments between line feeds, the server every line of its
    line reader, blank ones included, a carriage return ending a line as
    well. *)
Theorem preview_counts_at_most_server (e : Engine) (content : text)
    (displayLines : nat) (s : FilePreview.component) :
  exists r s',
    validateJSONL e content = Returned r
    /\ FilePreview.readFileContent e content displayLines s = (Returned tt, s')
    /\ (FilePreview.totalLines s' <= totalLines r)%nat.
Proof.
  eexists. eexists. split; [apply validateJSONL_spec|].
  split; [apply readFileContent_spec|].
  cbn [FilePreview.totalLines totalLines]. apply client_lines_le_readline.
Qed.

(** A blank line counts for the server only, and so does a carriage return
    that ends a line. *)
Example preview_counts_fewer :
  length (client_lines ([97; 10; 10; 98; 13; 99])) = 2%nat
  /\ length (readline ([97; 10; 10; 98; 13; 99])) = 4%nat.
Proof. vm_compute. split; reflexivity. Qed.

(** ** The cells of the table *)

Lemma cell_of_string (e : Engine) (not_a_function : text) (str : text) :
  FilePreview.cell e not_a_function (VData (JString str))
  = Returned (VData (JString (if (100 <? length str)%nat
                              then firstn 100 str ++ u "..."
                              else str))).
Proof.
  unfold FilePreview.cell. cbn [get_property greater FilePreview.substring].
  destruct (100 <? length str)%nat; reflexivity.
Qed.

Lemma accepted_row_fields (row : FilePreview.PreviewData) :
  row_reads_line row ->
  accepted_line (FilePreview.raw row) ->
  exists p c,
    FilePreview.prompt row = VData (JString p)
    /\ FilePreview.completion row = VData (JString c)
    /\ p <> [] /\ c <> [].
Proof.
  unfold row_reads_line. intros Hrow (members & Hparse & Hp & Hc).
  rewrite Hparse in Hrow. destruct Hrow as [Hrp Hrc].
  destruct Hp as (p & Hp & Hpn & _). destruct Hc as (c & Hc & Hcn & _).
  exists p, c. rewrite Hrp, Hrc. cbn [field property_name].
  rewrite Hp, Hc. auto.
Qed.

(** X18: a row of the preview whose line the server's validator accepts has
    two strings as prompt and completion, and each of its table cells is
    evaluated without an exception: to the string itself when it has at most
    100 code units, to its first 100 code units followed by three dots
    otherwise. *)
Theorem accepted_rows_render (e : Engine) (not_a_function : text) (content : text)
    (displayLines : nat) (s : FilePreview.component)
    (row : FilePreview.PreviewData) :
  In row (FilePreview.previewData
            (snd (FilePreview.readFileContent e content displayLines s))) ->
  accepted_line (FilePreview.raw row) ->
  exists p c,
    FilePreview.prompt row = VData (JString p)
    /\ FilePreview.completion row = VData (JString c)
    /\ FilePreview.cell e not_a_function (FilePreview.prompt row)
       = Returned (VData (JString (if (100 <? length p)%nat
                                   then firstn 100 p ++ u "..."
                                   else p)))
    /\ FilePreview.cell e not_a_function (FilePreview.completion row)
       = Returned (VData (JString (if (100 <? length c)%nat
                                   then firstn 100 c ++ u "..."
                                   else c))).
Proof.
  intros Hin Hacc.
  pose proof (preview_rows_read_lines e content displayLines s) as Hall.
  rewrite List.Forall_forall in Hall.
  destruct (accepted_row_fields row (Hall row Hin) Hacc) as (p & c & Hp & Hc & _).
  exists p, c. rewrite Hp, Hc, !cell_of_string. auto.
Qed.

Definition accepted_sample : text := q "{'prompt':'a','completion':'b'}".

Definition accepted_sample_row : FilePreview.PreviewData :=
  {| FilePreview.prompt := VData (JString (u "a"));
     FilePreview.completion := VData (JString (u "b"));
     FilePreview.lineNumber := 1;
     FilePreview.raw := accepted_sample |}.

Lemma accepted_sample_accepted : accepted_line accepted_sample.
Proof.
  exists [(u "prompt", JString (u "a")); (u "completion", JString (u "b"))].
  split; [vm_compute; reflexivity|].
  split; eexists; (split; [vm_compute; reflexivity|]);
    (split; [discriminate | simpl; lia]).
Qed.

Lemma accepted_rows_render_witness :
  In accepted_sample_row
    (FilePreview.previewData
       (snd (FilePreview.readFileContent sample_engine accepted_sample 5
               FilePreview.initial)))
  /\ accepted_line (FilePreview.raw accepted_sample_row)
  /\ exists p c,
       FilePreview.prompt accepted_sample_row = VData (JString p)
       /\ FilePreview.completion accepted_sample_row = VData (JString c)
       /\ FilePreview.cell sample_engine (u "not a function")
            (FilePreview.prompt accepted_sample_row)
          = Returned (VData (JString (if (100 <? length p)%nat
                                      then firstn 100 p ++ u "..."
                                      else p)))
       /\ FilePreview.cell sample_engine (u "not a function")
            (FilePreview.completion accepted_sample_row)
          = Returned (VData (JString (if (100 <? length c)%nat
                                      then firstn 100 c ++ u "..."
                                      else c))).
Proof.
  assert (In accepted_sample_row
            (FilePreview.previewData
               (snd (FilePreview.readFileContent sample_engine accepted_sample 5
                       FilePreview.initial)))) as Hin
    by (vm_compute; left; reflexivity).
  split; [exact Hin|]. split; [exact accepted_sample_accepted|].
  exact (accepted_rows_render sample_engine (u "not a function") accepted_sample 5
           FilePreview.initial accepted_sample_row Hin accepted_sample_accepted).
Defined.

(** X19: a row of the preview whose line is JSON and not [null], but has no
    [prompt] member or [null] as its prompt, is not a sentinel row, and the
    expression of its prompt cell throws: reading [length] of [undefined] or
    of [null]. *)
Theorem row_without_prompt_throws (e : Engine) (not_a_function : text)
    (content : text) (displayLines : nat) (s : FilePreview.component)
    (row : FilePreview.PreviewData) (parsed : json) :
  In row (FilePreview.previewData
            (snd (FilePreview.readFileContent e content displayLines s))) ->
  parse_text (FilePreview.raw row) = Some parsed ->
  parsed <> JNull ->
  field parsed Prompt = VUndefined \/ field parsed Prompt = VData JNull ->
  FilePreview.prompt row <> FilePreview.invalid
  /\ exists what,
       (what = u "undefined" \/ what = u "null")
       /\ FilePreview.cell e not_a_function (FilePreview.prompt row)
          = Thrown (property_error_message e what (u "length")).
Proof.
  intros Hin Hparse Hnull Hfield.
  pose proof (preview_rows_read_lines e content displayLines s) as Hall.
  rewrite List.Forall_forall in Hall. specialize (Hall row Hin).
  unfold row_reads_line in Hall. rewrite Hparse in Hall.
  assert (FilePreview.prompt row = field parsed Prompt) as ->
    by (destruct parsed; [congruence | apply Hall ..]).
  destruct Hfield as [-> | ->].
  - split; [discriminate|]. exists (u "undefined"). split; [left|]; reflexivity.
  - split; [discriminate|]. exists (u "null"). split; [right|]; reflexivity.
Qed.

Definition empty_object_row : FilePreview.PreviewData :=
  {| FilePreview.prompt := VUndefined;
     FilePreview.completion := VUndefined;
     FilePreview.lineNumber := 1;
     FilePreview.raw := u "{}" |}.

Lemma row_without_prompt_throws_witness :
  In empty_object_row
    (FilePreview.previewData
       (snd (FilePreview.readFileContent sample_engine (u "{}") 5
               FilePreview.initial)))
  /\ parse_text (FilePreview.raw empty_object_row) = Some (JObject [])
  /\ JObject [] <> JNull
  /\ (field (JObject []) Prompt = VUndefined
      \/ field (JObject []) Prompt = VData JNull)
  /\ FilePreview.prompt empty_object_row <> FilePreview.invalid
  /\ exists what,
       (what = u "undefined" \/ what = u "null")
       /\ FilePreview.cell sample_engine (u "not a function")
            (FilePreview.prompt empty_object_row)
          = Thrown (property_error_message sample_engine what (u "length")).
Proof.
  assert (In empty_object_row
            (FilePreview.previewData
               (snd (FilePreview.readFileContent sample_engine (u "{}") 5
                       FilePreview.initial)))) as Hin
    by (vm_compute; left; reflexivity).
  assert (parse_text (FilePreview.raw empty_object_row) = Some (JObject [])) as Hparse
    by (vm_compute; reflexivity).
  assert (JObject [] <> JNull) as Hnull by discriminate.
  assert (field (JObject []) Prompt = VUndefined
          \/ field (JObject []) Prompt = VData JNull) as Hfield
    by (left; reflexivity).
  split; [exact Hin|]. split; [exact Hparse|]. split; [exact Hnull|].
  split; [exact Hfield|].
  exact (row_without_prompt_throws sample_engine (u "not a function") (u "{}") 5
           FilePreview.initial empty_object_row (JObject []) Hin Hparse Hnull Hfield).
Defined.

(** ** The export *)

Lemma before_dot_prefix (name : text) :
  exists rest,
    name = FilePreview.before_dot name ++ rest
    /\ Forall (fun c => c <> 46) (FilePreview.before_dot name)
    /\ (rest = [] \/ exists rest', rest = 46 :: rest').
Proof.
  induction name as [|c name (rest & Hname & Hstem & Hrest)].
  - exists []. repeat split; [constructor | left; reflexivity].
  - cbn [FilePreview.before_dot]. destruct (N.eqb_spec c 46) as [-> | Hc].
    + exists (46 :: name). repeat split; [constructor | right; eexists; reflexivity].
    + exists rest. cbn [app]. rewrite <- Hname.
      repeat split; [constructor; assumption | exact Hrest].
Qed.

Lemma count_occ_none (t : text) (c : N) :
  Forall (fun d => d <> c) t -> count_occ N.eq_dec t c = 0%nat.
Proof.
  induction 1 as [|d t Hd _ IH]; [reflexivity|].
  cbn [count_occ]. destruct (N.eq_dec d c); [contradiction | exact IH].
Qed.

(** X20: the name of an exported file is [edited_], then the name of the
    chosen file up to its first dot (all of it when it has none), then the
    extension of the format; whatever the name of the file, it holds one dot
    only, that of the extension. *)
Theorem export_filename (e : Engine) (s : FilePreview.component) (name : text)
    (format : FilePreview.ExportFormat) :
  exists stem rest,
    fst (FilePreview.handleExport e s name format)
    = u "edited_" ++ stem
      ++ match format with
         | FilePreview.jsonl => u ".jsonl"
         | FilePreview.csv => u ".csv"
         | FilePreview.excel => u ".xlsx"
         | FilePreview.txt => u ".txt"
         end
    /\ name = stem ++ rest
    /\ Forall (fun c => c <> 46) stem
    /\ (rest = [] \/ exists rest', rest = 46 :: rest')
    /\ count_occ N.eq_dec (fst (FilePreview.handleExport e s name format)) 46 = 1%nat.
Proof.
  destruct (before_dot_prefix name) as (rest & Hname & Hstem & Hrest).
  exists (FilePreview.before_dot name), rest.
  split; [destruct format; cbn [FilePreview.handleExport fst];
          rewrite <- app_assoc; reflexivity|].
  split; [exact Hname|]. split; [exact Hstem|]. split; [exact Hrest|].
  destruct format; cbn [FilePreview.handleExport fst];
    rewrite !count_occ_app, (count_occ_none _ 46 Hstem); reflexivity.
Qed.

Example export_filename_example :
  fst (FilePreview.handleExport sample_engine FilePreview.initial
         (u "train.v2.jsonl") FilePreview.csv) = u "edited_train.csv"
  /\ fst (FilePreview.handleExport sample_engine FilePreview.initial
            (u ".hidden") FilePreview.txt) = u "edited_.txt".
Proof. vm_compute. split; reflexivity. Qed.

Lemma export_row_shown (e : Engine) (i : nat) (line : text) :
  FilePreview.export_row e line
  = (FilePreview.prompt (shown_row i line), FilePreview.completion (shown_row i line)).
Proof.
  unfold FilePreview.export_row, shown_row, JSON_parse.
  destruct (parse_text line) as [parsed|]; [|reflexivity].
  destruct parsed as [ | b | lit | str | elems | members]; try reflexivity.
  cbn [get_property field property_name].
  destruct (lookup_member (u "prompt") members);
    destruct (lookup_member (u "completion") members); reflexivity.
Qed.

(** X21: after [readFileContent] has loaded a text, the CSV and the Excel
    export have one row for each of the [totalLines] lines of the preview,
    not only for the [displayLines] shown, and their first rows hold the
    prompt and the completion of the rows of the table, in order. *)
Theorem export_rows_extend_preview (e : Engine) (content name : text)
    (displayLines : nat) (s : FilePreview.component) :
  exists s' rows,
    FilePreview.readFileContent e content displayLines s = (Returned tt, s')
    /\ snd (FilePreview.handleExport e s' name FilePreview.csv)
       = FilePreview.CsvRows rows
    /\ snd (FilePreview.handleExport e s' name FilePreview.excel)
       = FilePreview.SheetRows rows
    /\ length rows = FilePreview.totalLines s'
    /\ firstn displayLines rows
       = List.map (fun row => (FilePreview.prompt row, FilePreview.completion row))
           (FilePreview.previewData s').
Proof.
  eexists. exists (List.map (FilePreview.export_row e) (client_lines content)).
  split; [apply readFileContent_spec|].
  unfold FilePreview.handleExport.
  cbn [snd FilePreview.editedContent FilePreview.rawContent
       FilePreview.totalLines FilePreview.previewData].
  assert (match content with [] => content | _ :: _ => content end = content) as ->
    by (destruct content; reflexivity).
  fold (client_lines content).
  split; [reflexivity|]. split; [reflexivity|].
  split; [apply length_map|].
  rewrite List.map_map.
  rewrite (map_ext (fun i => (FilePreview.prompt (shown_row i (nth i (client_lines content) [])),
                              FilePreview.completion (shown_row i (nth i (client_lines content) []))))
             (fun i => FilePreview.export_row e (nth i (client_lines content) [])))
    by (intros i; symmetry; apply export_row_shown).
  rewrite <- (List.map_map (fun i => nth i (client_lines content) [])
                (FilePreview.export_row e)).
  rewrite map_nth_seq by apply Nat.le_min_l.
  rewrite firstn_min_length. apply firstn_map.
Qed.
